(** * Driva: driver-attention monitor and live audio session

    A shallow embedding of the logic of the Driva application
    (utils/fatigueDetection.ts, types.ts, the App component and the
    components MiraCore and SpotifyPlayer) and the properties established
    about it.

    How the program is represented.
    - Numbers.  A JavaScript [number] that holds a measurement is an IEEE
      binary64 value.  The arithmetic of fatigueDetection.ts is written once
      over the interface [Arith] and used at [float], which is what the
      program computes, and at [R], the exact arithmetic it approximates
      ([v ** 2] is the product [v * v]).  Frame counters are natural
      numbers, the countdown is an integer, timer ids are positive
      numbers.  Audio time (the output clock, the playback cursor, the
      duration of a buffer) is binary64 too: [Math.max] and [+=] are the
      operations of [float], and every sum is rounded.
    - Strings.  Transcript and log text are [string]s, a text being held
      as its UTF-8 bytes; the base64 payloads, where code units matter, are
      lists of code units.
    - Exceptions.  A JavaScript exception is the [Throw] branch of
      [result]; a callback that throws keeps the changes it made before.
    - State.  The [useState] values, the [useRef] cells, the two variables
      of the session closure and the live interval timers of the browser
      form one record, [AppState].  What the component does to the outside
      world (log lines, the emergency report, what it sends to the session,
      the audio sources it starts) is appended to the trace [actions].
    - Events.  A callback runs to its end without interleaving with other
      callbacks: the awaits inside [startLiveSession], [onmessage] and the
      detection callback are taken to resolve at once.  So the wait for the
      microphone (and its refusal) and a detection that completes after
      the detection loop was stopped are not represented.  After a
      callback the component renders: the effects whose dependencies
      changed run on the rendered state and queue updates, until nothing
      changes ([render]).
    - Updaters.  A function given to a state setter runs when React
      decides: at the call if the update queue of the component is clean,
      at the next render otherwise.  The countdown and the player do not
      depend on which; the transcript does, because its updaters read
      variables that the callback resets.  Whether the queue is clean is a
      field of the state that an event of its own ([UpdateQueue]) sets, so
      every schedule of React is covered.
    - Samples.  A block of microphone samples is a list of exact rational
      numbers; a store into the [Int16Array] truncates toward zero and
      wraps modulo 2^16, and the bytes of a typed array are little-endian.
      The coordinates of the visualiser are real numbers.
    - Components.  The player is a state machine of its own ([song],
      [isPlaying], [progress]) driven by its prop, its interval and its
      button.
    - Not represented: the page, the capture of the microphone, the set of
      playing audio sources. *)

From Stdlib Require Import ZArith NArith QArith Qminmax List String Ascii Bool Arith Lia.
From Stdlib Require Import Reals Lqa Lra PrimFloat.
From Stdlib Require Import DecimalString.
From Stdlib Require Floats Uint63.
Import ListNotations.

Set Implicit Arguments.

(** ** Exceptions *)

Inductive JsError : Type :=
| TypeError             (* reading a property of [undefined] *)
| RangeError            (* typed-array view of a misaligned buffer *)
| InvalidCharacterError (* [btoa] / [atob] on a string outside their domain *)
| NotSupportedError     (* [createBuffer] with a length of zero *)
| HandlerError (msg : string).  (* whatever a tool handler throws *)

Inductive result (A : Type) : Type :=
| Ok (a : A)
| Throw (e : JsError).

Arguments Ok {A} a.
Arguments Throw {A} e.

Definition rbind {A B} (r : result A) (k : A -> result B) : result B :=
  match r with
  | Ok a => k a
  | Throw e => Throw e
  end.

Declare Scope result_scope.
Delimit Scope result_scope with result.
Notation "x <- r ;; k" := (rbind r (fun x => k))
  (at level 61, r at next level, right associativity) : result_scope.

Definition isOk {A} (r : result A) : bool :=
  match r with Ok _ => true | Throw _ => false end.

(** ** utils/fatigueDetection.ts *)

Module FatigueDetection.

(** The arithmetic the file uses on [number]. *)
Class Arith (A : Type) : Type := {
  add : A -> A -> A;
  sub : A -> A -> A;
  mul : A -> A -> A;
  div : A -> A -> A;
  sqrt : A -> A;
  two : A                     (* the literal 2.0 *)
}.

#[export] Instance Arith_float : Arith float := {
  add := PrimFloat.add;
  sub := PrimFloat.sub;
  mul := PrimFloat.mul;
  div := PrimFloat.div;
  sqrt := PrimFloat.sqrt;
  two := 2%float
}.

#[export] Instance Arith_R : Arith R := {
  add := Rplus;
  sub := Rminus;
  mul := Rmult;
  div := Rdiv;
  sqrt := R_sqrt.sqrt;
  two := 2%R
}.

Record Point (A : Type) : Type := mkPoint { x : A; y : A }.

Arguments mkPoint {A} x y.
Arguments x {A} p.
Arguments y {A} p.

Section Generic.
Context {A : Type} `{Arith A}.

(** [v ** 2] *)
Definition square (v : A) : A := mul v v.

(** Reading [p.x] when [p] may be [undefined]. *)
Definition getX (p : option (Point A)) : result A :=
  match p with Some q => Ok (x q) | None => Throw TypeError end.

Definition getY (p : option (Point A)) : result A :=
  match p with Some q => Ok (y q) | None => Throw TypeError end.

(** [Math.sqrt((p1.x - p2.x) ** 2 + (p1.y - p2.y) ** 2)]; the arguments
    are array elements, hence possibly [undefined]. *)
Definition getEuclideanDistance (p1 p2 : option (Point A)) : result A :=
  (x1 <- getX p1 ;;
   x2 <- getX p2 ;;
   y1 <- getY p1 ;;
   y2 <- getY p2 ;;
   Ok (sqrt (add (square (sub x1 x2)) (square (sub y1 y2)))))%result.

Definition getEyeAspectRatio (eyeLandmarks : list (Point A)) : result A :=
  let p1 := nth_error eyeLandmarks 0 in
  let p2 := nth_error eyeLandmarks 1 in
  let p3 := nth_error eyeLandmarks 2 in
  let p4 := nth_error eyeLandmarks 3 in
  let p5 := nth_error eyeLandmarks 4 in
  let p6 := nth_error eyeLandmarks 5 in
  (verticalDist1 <- getEuclideanDistance p2 p6 ;;
   verticalDist2 <- getEuclideanDistance p3 p5 ;;
   horizontalDist <- getEuclideanDistance p1 p4 ;;
   Ok (div (add verticalDist1 verticalDist2) (mul two horizontalDist)))%result.


Definition scale (k : A) (p : Point A) : Point A :=
  mkPoint (mul k (x p)) (mul k (y p)).
End Generic.

End FatigueDetection.

(** ** Base64 framing of audio (App: [encode], [decode])

    A JavaScript string is the list of its UTF-16 code units.  [btoa] and
    [atob] are the platform's functions; they are written here after their
    definition in the HTML standard ([btoa]: RFC 4648 base64 of a string of
    code units up to U+00FF; [atob]: forgiving-base64 decode). *)

Module Base64.

Definition JsString : Type := list N.

Local Open Scope N_scope.

(** The base64 alphabet: position to code unit, [A-Z a-z 0-9 + /]. *)
Definition b64char (i : N) : N :=
  if i <? 26 then 65 + i
  else if i <? 52 then 97 + (i - 26)
  else if i <? 62 then 48 + (i - 52)
  else if i =? 62 then 43
  else 47.

(** Code unit to position; [None] outside the alphabet. *)
Definition b64index (c : N) : option N :=
  if (65 <=? c) && (c <=? 90) then Some (c - 65)
  else if (97 <=? c) && (c <=? 122) then Some (c - 97 + 26)
  else if (48 <=? c) && (c <=? 57) then Some (c - 48 + 52)
  else if c =? 43 then Some 62
  else if c =? 47 then Some 63
  else None.

Definition padChar : N := 61.   (* U+003D, = *)

(** RFC 4648 section 4: 24-bit groups as four 6-bit positions; a final
    group of 8 or 16 bits is padded with zero bits and completed with [=]. *)
Fixpoint base64Encode (s : list N) : JsString :=
  match s with
  | [] => []
  | [a] =>
      let n := a * 65536 in
      [b64char (n / 262144); b64char ((n / 4096) mod 64); padChar; padChar]
  | [a; b] =>
      let n := a * 65536 + b * 256 in
      [b64char (n / 262144); b64char ((n / 4096) mod 64);
       b64char ((n / 64) mod 64); padChar]
  | a :: b :: c :: rest =>
      let n := a * 65536 + b * 256 + c in
      b64char (n / 262144) :: b64char ((n / 4096) mod 64)
        :: b64char ((n / 64) mod 64) :: b64char (n mod 64)
        :: base64Encode rest
  end.

(** [btoa]: throws InvalidCharacterError when a code unit exceeds U+00FF. *)
Definition btoa (s : JsString) : result JsString :=
  if forallb (fun c => c <=? 255) s then Ok (base64Encode s)
  else Throw InvalidCharacterError.

(** ASCII whitespace: TAB, LF, FF, CR, SPACE. *)
Definition isAsciiWhitespace (c : N) : bool :=
  (c =? 9) || (c =? 10) || (c =? 12) || (c =? 13) || (c =? 32).

(** "If data ends with one or two U+003D (=) code points, remove them." *)
Fixpoint removeTrailingPad (d : JsString) : JsString :=
  match d with
  | [] => []
  | c :: r =>
      match r with
      | [] => if c =? padChar then [] else [c]
      | [c2] =>
          if (c =? padChar) && (c2 =? padChar) then []
          else c :: removeTrailingPad r
      | _ => c :: removeTrailingPad r
      end
  end.

(** The positions of all code units, or [None] if one is outside the
    alphabet. *)
Fixpoint indices (d : JsString) : option (list N) :=
  match d with
  | [] => Some []
  | c :: r =>
      match b64index c, indices r with
      | Some i, Some l => Some (i :: l)
      | _, _ => None
      end
  end.

(** The bit buffer of forgiving-base64 decode: every 24 bits give three
    bytes; 12 remaining bits give one byte (the last four discarded), 18
    give two (the last two discarded). *)
Fixpoint decodeGroups (l : list N) : list N :=
  match l with
  | a :: b :: c :: d :: rest =>
      let n := ((a * 64 + b) * 64 + c) * 64 + d in
      n / 65536 :: (n / 256) mod 256 :: n mod 256 :: decodeGroups rest
  | [a; b; c] =>
      let n := ((a * 64 + b) * 64 + c) / 4 in
      [n / 256; n mod 256]
  | [a; b] =>
      let n := (a * 64 + b) / 16 in
      [n]
  | _ => []
  end.

(** [atob]: forgiving-base64 decode; failure is InvalidCharacterError. *)
Definition atob (data : JsString) : result JsString :=
  let d1 := filter (fun c => negb (isAsciiWhitespace c)) data in
  let d2 := if (Nat.modulo (List.length d1) 4 =? 0)%nat then removeTrailingPad d1 else d1 in
  if (Nat.modulo (List.length d2) 4 =? 1)%nat then Throw InvalidCharacterError
  else
    match indices d2 with
    | Some l => Ok (decodeGroups l)
    | None => Throw InvalidCharacterError
    end.

(** [String.fromCharCode(bytes[i])] for an element of a Uint8Array. *)
Definition fromCharCode (b : Byte.byte) : N := Byte.to_N b.

(** Storing a number into a Uint8Array keeps it modulo 256. *)
Definition toUint8 (c : N) : Byte.byte :=
  match Byte.of_N (c mod 256) with
  | Some b => b
  | None => Byte.x00
  end.

(** [function encode(bytes: Uint8Array): string] *)
Definition encode (bytes : list Byte.byte) : result JsString :=
  let binary := map fromCharCode bytes in
  btoa binary.

(** [function decode(base64: string): Uint8Array] *)
Definition decode (base64 : JsString) : result (list Byte.byte) :=
  (binaryString <- atob base64 ;;
   Ok (map toUint8 binaryString))%result.

End Base64.

(** ** types.ts *)

Inductive DriverState : Type := MONITORING | DROWSY | UNRESPONSIVE | ENGAGED.

Inductive MiraState : Type := IDLE | LISTENING | THINKING | SPEAKING.

Inductive Speaker : Type := USER | MIRA.

Record TranscriptionEntry : Type := mkEntry { speaker : Speaker; text : string }.

Record Location : Type := mkLocation { latitude : float; longitude : float }.

Record Song : Type := mkSong { title : string; artist : string; albumArtUrl : string }.

Scheme Equality for DriverState.
Scheme Equality for MiraState.

(** ** The App component *)

Module App.

Import FatigueDetection Base64.

(** What the component does to the outside world, in the order it does
    it. *)
Inductive Action : Type :=
| ConsoleLog (msg : string)  (* a line of console.log or console.error *)
| Alert (msg : string)       (* alert(...) *)
| NotifyEmergencyContact (contact : string) (loc : option Location)
    (* the "EMERGENCY: Alerting contact ..." report *)
| ConnectSession            (* ai.live.connect *)
| SendText (msg : string)   (* session.sendText *)
| SendToolResponse (id name result : string)  (* session.sendToolResponse *)
| StartSource (when duration : float).      (* source.start(when) *)

(** The state of the component: the [useState] values, the [useRef]
    cells, the variables of the session closure, and the part of the
    browser the component acts on. *)
Record AppState : Type := mkApp {
  (* useState *)
  driverState : DriverState;
  miraState : MiraState;
  permissionsGranted : bool;
  modelsLoaded : bool;
  transcriptions : list TranscriptionEntry;
  location : option Location;
  (* identity of the object held in [location]: every setLocation stores a new one *)
  locationVersion : nat;
  isEmergency : bool;
  emergencyCountdown : Z;
  currentSong : option Song;
  (* whether an AnalyserNode is held *)
  analyserNode : bool;
  (* useRef; for a reference to a platform object, whether it is set *)
  aiRef : bool;
  sessionPromiseRef : bool;
  outputAudioContextRef : bool;
  nextAudioStartTimeRef : float;
  emergencyTimerRef : option positive;
  eyeClosedFramesRef : nat;
  noFaceFramesRef : nat;
  (* the two accumulators of the session closure *)
  currentInputTranscription : string;
  currentOutputTranscription : string;
  (* the browser: live 1 s interval timers, the next timer id *)
  intervals : list positive;
  nextTimerId : positive;
  (* trace of outside actions, oldest first *)
  actions : list Action;
  (* React: whether the update queue of the component is clean, so that
     the next updater function given to a state setter runs at the call
     and not at the next render *)
  updaterAtCall : bool
}.

(** Field updates. *)
Definition set_driverState (v : DriverState) (s : AppState) : AppState :=
  mkApp v (miraState s) (permissionsGranted s) (modelsLoaded s)
    (transcriptions s) (location s) (locationVersion s) (isEmergency s)
    (emergencyCountdown s) (currentSong s) (analyserNode s) (aiRef s)
    (sessionPromiseRef s) (outputAudioContextRef s) (nextAudioStartTimeRef s)
    (emergencyTimerRef s) (eyeClosedFramesRef s) (noFaceFramesRef s)
    (currentInputTranscription s) (currentOutputTranscription s)
    (intervals s) (nextTimerId s) (actions s)
    (updaterAtCall s).
Definition set_miraState (v : MiraState) (s : AppState) : AppState :=
  mkApp (driverState s) v (permissionsGranted s) (modelsLoaded s)
    (transcriptions s) (location s) (locationVersion s) (isEmergency s)
    (emergencyCountdown s) (currentSong s) (analyserNode s) (aiRef s)
    (sessionPromiseRef s) (outputAudioContextRef s) (nextAudioStartTimeRef s)
    (emergencyTimerRef s) (eyeClosedFramesRef s) (noFaceFramesRef s)
    (currentInputTranscription s) (currentOutputTranscription s)
    (intervals s) (nextTimerId s) (actions s)
    (updaterAtCall s).
Definition set_permissionsGranted (v : bool) (s : AppState) : AppState :=
  mkApp (driverState s) (miraState s) v (modelsLoaded s) (transcriptions s)
    (location s) (locationVersion s) (isEmergency s) (emergencyCountdown s)
    (currentSong s) (analyserNode s) (aiRef s) (sessionPromiseRef s)
    (outputAudioContextRef s) (nextAudioStartTimeRef s) (emergencyTimerRef s)
    (eyeClosedFramesRef s) (noFaceFramesRef s) (currentInputTranscription s)
    (currentOutputTranscription s) (intervals s) (nextTimerId s) (actions s)
    (updaterAtCall s).
Definition set_modelsLoaded (v : bool) (s : AppState) : AppState :=
  mkApp (driverState s) (miraState s) (permissionsGranted s) v (transcriptions s)
    (location s) (locationVersion s) (isEmergency s) (emergencyCountdown s)
    (currentSong s) (analyserNode s) (aiRef s) (sessionPromiseRef s)
    (outputAudioContextRef s) (nextAudioStartTimeRef s) (emergencyTimerRef s)
    (eyeClosedFramesRef s) (noFaceFramesRef s) (currentInputTranscription s)
    (currentOutputTranscription s) (intervals s) (nextTimerId s) (actions s)
    (updaterAtCall s).
Definition set_transcriptions (v : list TranscriptionEntry) (s : AppState) : AppState :=
  mkApp (driverState s) (miraState s) (permissionsGranted s) (modelsLoaded s) v
    (location s) (locationVersion s) (isEmergency s) (emergencyCountdown s)
    (currentSong s) (analyserNode s) (aiRef s) (sessionPromiseRef s)
    (outputAudioContextRef s) (nextAudioStartTimeRef s) (emergencyTimerRef s)
    (eyeClosedFramesRef s) (noFaceFramesRef s) (currentInputTranscription s)
    (currentOutputTranscription s) (intervals s) (nextTimerId s) (actions s)
    (updaterAtCall s).
Definition set_location (v : option Location) (s : AppState) : AppState :=
  mkApp (driverState s) (miraState s) (permissionsGranted s) (modelsLoaded s)
    (transcriptions s) v (locationVersion s) (isEmergency s)
    (emergencyCountdown s) (currentSong s) (analyserNode s) (aiRef s)
    (sessionPromiseRef s) (outputAudioContextRef s) (nextAudioStartTimeRef s)
    (emergencyTimerRef s) (eyeClosedFramesRef s) (noFaceFramesRef s)
    (currentInputTranscription s) (currentOutputTranscription s)
    (intervals s) (nextTimerId s) (actions s)
    (updaterAtCall s).
Definition set_locationVersion (v : nat) (s : AppState) : AppState :=
  mkApp (driverState s) (miraState s) (permissionsGranted s) (modelsLoaded s)
    (transcriptions s) (location s) v (isEmergency s) (emergencyCountdown s)
    (currentSong s) (analyserNode s) (aiRef s) (sessionPromiseRef s)
    (outputAudioContextRef s) (nextAudioStartTimeRef s) (emergencyTimerRef s)
    (eyeClosedFramesRef s) (noFaceFramesRef s) (currentInputTranscription s)
    (currentOutputTranscription s) (intervals s) (nextTimerId s) (actions s)
    (updaterAtCall s).
Definition set_isEmergency (v : bool) (s : AppState) : AppState :=
  mkApp (driverState s) (miraState s) (permissionsGranted s) (modelsLoaded s)
    (transcriptions s) (location s) (locationVersion s) v
    (emergencyCountdown s) (currentSong s) (analyserNode s) (aiRef s)
    (sessionPromiseRef s) (outputAudioContextRef s) (nextAudioStartTimeRef s)
    (emergencyTimerRef s) (eyeClosedFramesRef s) (noFaceFramesRef s)
    (currentInputTranscription s) (currentOutputTranscription s)
    (intervals s) (nextTimerId s) (actions s)
    (updaterAtCall s).
Definition set_emergencyCountdown (v : Z) (s : AppState) : AppState :=
  mkApp (driverState s) (miraState s) (permissionsGranted s) (modelsLoaded s)
    (transcriptions s) (location s) (locationVersion s) (isEmergency s) v
    (currentSong s) (analyserNode s) (aiRef s) (sessionPromiseRef s)
    (outputAudioContextRef s) (nextAudioStartTimeRef s) (emergencyTimerRef s)
    (eyeClosedFramesRef s) (noFaceFramesRef s) (currentInputTranscription s)
    (currentOutputTranscription s) (intervals s) (nextTimerId s) (actions s)
    (updaterAtCall s).
Definition set_currentSong (v : option Song) (s : AppState) : AppState :=
  mkApp (driverState s) (miraState s) (permissionsGranted s) (modelsLoaded s)
    (transcriptions s) (location s) (locationVersion s) (isEmergency s)
    (emergencyCountdown s) v (analyserNode s) (aiRef s) (sessionPromiseRef s)
    (outputAudioContextRef s) (nextAudioStartTimeRef s) (emergencyTimerRef s)
    (eyeClosedFramesRef s) (noFaceFramesRef s) (currentInputTranscription s)
    (currentOutputTranscription s) (intervals s) (nextTimerId s) (actions s)
    (updaterAtCall s).
Definition set_analyserNode (v : bool) (s : AppState) : AppState :=
  mkApp (driverState s) (miraState s) (permissionsGranted s) (modelsLoaded s)
    (transcriptions s) (location s) (locationVersion s) (isEmergency s)
    (emergencyCountdown s) (currentSong s) v (aiRef s) (sessionPromiseRef s)
    (outputAudioContextRef s) (nextAudioStartTimeRef s) (emergencyTimerRef s)
    (eyeClosedFramesRef s) (noFaceFramesRef s) (currentInputTranscription s)
    (currentOutputTranscription s) (intervals s) (nextTimerId s) (actions s)
    (updaterAtCall s).
Definition set_aiRef (v : bool) (s : AppState) : AppState :=
  mkApp (driverState s) (miraState s) (permissionsGranted s) (modelsLoaded s)
    (transcriptions s) (location s) (locationVersion s) (isEmergency s)
    (emergencyCountdown s) (currentSong s) (analyserNode s) v
    (sessionPromiseRef s) (outputAudioContextRef s) (nextAudioStartTimeRef s)
    (emergencyTimerRef s) (eyeClosedFramesRef s) (noFaceFramesRef s)
    (currentInputTranscription s) (currentOutputTranscription s)
    (intervals s) (nextTimerId s) (actions s)
    (updaterAtCall s).
Definition set_sessionPromiseRef (v : bool) (s : AppState) : AppState :=
  mkApp (driverState s) (miraState s) (permissionsGranted s) (modelsLoaded s)
    (transcriptions s) (location s) (locationVersion s) (isEmergency s)
    (emergencyCountdown s) (currentSong s) (analyserNode s) (aiRef s) v
    (outputAudioContextRef s) (nextAudioStartTimeRef s) (emergencyTimerRef s)
    (eyeClosedFramesRef s) (noFaceFramesRef s) (currentInputTranscription s)
    (currentOutputTranscription s) (intervals s) (nextTimerId s) (actions s)
    (updaterAtCall s).
Definition set_outputAudioContextRef (v : bool) (s : AppState) : AppState :=
  mkApp (driverState s) (miraState s) (permissionsGranted s) (modelsLoaded s)
    (transcriptions s) (location s) (locationVersion s) (isEmergency s)
    (emergencyCountdown s) (currentSong s) (analyserNode s) (aiRef s)
    (sessionPromiseRef s) v (nextAudioStartTimeRef s) (emergencyTimerRef s)
    (eyeClosedFramesRef s) (noFaceFramesRef s) (currentInputTranscription s)
    (currentOutputTranscription s) (intervals s) (nextTimerId s) (actions s)
    (updaterAtCall s).
Definition set_nextAudioStartTimeRef (v : float) (s : AppState) : AppState :=
  mkApp (driverState s) (miraState s) (permissionsGranted s) (modelsLoaded s)
    (transcriptions s) (location s) (locationVersion s) (isEmergency s)
    (emergencyCountdown s) (currentSong s) (analyserNode s) (aiRef s)
    (sessionPromiseRef s) (outputAudioContextRef s) v (emergencyTimerRef s)
    (eyeClosedFramesRef s) (noFaceFramesRef s) (currentInputTranscription s)
    (currentOutputTranscription s) (intervals s) (nextTimerId s) (actions s)
    (updaterAtCall s).
Definition set_emergencyTimerRef (v : option positive) (s : AppState) : AppState :=
  mkApp (driverState s) (miraState s) (permissionsGranted s) (modelsLoaded s)
    (transcriptions s) (location s) (locationVersion s) (isEmergency s)
    (emergencyCountdown s) (currentSong s) (analyserNode s) (aiRef s)
    (sessionPromiseRef s) (outputAudioContextRef s) (nextAudioStartTimeRef s)
    v (eyeClosedFramesRef s) (noFaceFramesRef s)
    (currentInputTranscription s) (currentOutputTranscription s)
    (intervals s) (nextTimerId s) (actions s)
    (updaterAtCall s).
Definition set_eyeClosedFramesRef (v : nat) (s : AppState) : AppState :=
  mkApp (driverState s) (miraState s) (permissionsGranted s) (modelsLoaded s)
    (transcriptions s) (location s) (locationVersion s) (isEmergency s)
    (emergencyCountdown s) (currentSong s) (analyserNode s) (aiRef s)
    (sessionPromiseRef s) (outputAudioContextRef s) (nextAudioStartTimeRef s)
    (emergencyTimerRef s) v (noFaceFramesRef s) (currentInputTranscription s)
    (currentOutputTranscription s) (intervals s) (nextTimerId s) (actions s)
    (updaterAtCall s).
Definition set_noFaceFramesRef (v : nat) (s : AppState) : AppState :=
  mkApp (driverState s) (miraState s) (permissionsGranted s) (modelsLoaded s)
    (transcriptions s) (location s) (locationVersion s) (isEmergency s)
    (emergencyCountdown s) (currentSong s) (analyserNode s) (aiRef s)
    (sessionPromiseRef s) (outputAudioContextRef s) (nextAudioStartTimeRef s)
    (emergencyTimerRef s) (eyeClosedFramesRef s) v
    (currentInputTranscription s) (currentOutputTranscription s)
    (intervals s) (nextTimerId s) (actions s)
    (updaterAtCall s).
Definition set_currentInputTranscription (v : string) (s : AppState) : AppState :=
  mkApp (driverState s) (miraState s) (permissionsGranted s) (modelsLoaded s)
    (transcriptions s) (location s) (locationVersion s) (isEmergency s)
    (emergencyCountdown s) (currentSong s) (analyserNode s) (aiRef s)
    (sessionPromiseRef s) (outputAudioContextRef s) (nextAudioStartTimeRef s)
    (emergencyTimerRef s) (eyeClosedFramesRef s) (noFaceFramesRef s) v
    (currentOutputTranscription s) (intervals s) (nextTimerId s) (actions s)
    (updaterAtCall s).
Definition set_currentOutputTranscription (v : string) (s : AppState) : AppState :=
  mkApp (driverState s) (miraState s) (permissionsGranted s) (modelsLoaded s)
    (transcriptions s) (location s) (locationVersion s) (isEmergency s)
    (emergencyCountdown s) (currentSong s) (analyserNode s) (aiRef s)
    (sessionPromiseRef s) (outputAudioContextRef s) (nextAudioStartTimeRef s)
    (emergencyTimerRef s) (eyeClosedFramesRef s) (noFaceFramesRef s)
    (currentInputTranscription s) v (intervals s) (nextTimerId s) (actions s)
    (updaterAtCall s).
Definition set_intervals (v : list positive) (s : AppState) : AppState :=
  mkApp (driverState s) (miraState s) (permissionsGranted s) (modelsLoaded s)
    (transcriptions s) (location s) (locationVersion s) (isEmergency s)
    (emergencyCountdown s) (currentSong s) (analyserNode s) (aiRef s)
    (sessionPromiseRef s) (outputAudioContextRef s) (nextAudioStartTimeRef s)
    (emergencyTimerRef s) (eyeClosedFramesRef s) (noFaceFramesRef s)
    (currentInputTranscription s) (currentOutputTranscription s) v
    (nextTimerId s) (actions s)
    (updaterAtCall s).
Definition set_nextTimerId (v : positive) (s : AppState) : AppState :=
  mkApp (driverState s) (miraState s) (permissionsGranted s) (modelsLoaded s)
    (transcriptions s) (location s) (locationVersion s) (isEmergency s)
    (emergencyCountdown s) (currentSong s) (analyserNode s) (aiRef s)
    (sessionPromiseRef s) (outputAudioContextRef s) (nextAudioStartTimeRef s)
    (emergencyTimerRef s) (eyeClosedFramesRef s) (noFaceFramesRef s)
    (currentInputTranscription s) (currentOutputTranscription s)
    (intervals s) v (actions s)
    (updaterAtCall s).
Definition set_actions (v : list Action) (s : AppState) : AppState :=
  mkApp (driverState s) (miraState s) (permissionsGranted s) (modelsLoaded s)
    (transcriptions s) (location s) (locationVersion s) (isEmergency s)
    (emergencyCountdown s) (currentSong s) (analyserNode s) (aiRef s)
    (sessionPromiseRef s) (outputAudioContextRef s) (nextAudioStartTimeRef s)
    (emergencyTimerRef s) (eyeClosedFramesRef s) (noFaceFramesRef s)
    (currentInputTranscription s) (currentOutputTranscription s)
    (intervals s) (nextTimerId s) v
    (updaterAtCall s).
Definition set_updaterAtCall (v : bool) (s : AppState) : AppState :=
  mkApp (driverState s) (miraState s) (permissionsGranted s) (modelsLoaded s)
    (transcriptions s) (location s) (locationVersion s) (isEmergency s)
    (emergencyCountdown s) (currentSong s) (analyserNode s) (aiRef s)
    (sessionPromiseRef s) (outputAudioContextRef s) (nextAudioStartTimeRef s)
    (emergencyTimerRef s) (eyeClosedFramesRef s) (noFaceFramesRef s)
    (currentInputTranscription s) (currentOutputTranscription s)
    (intervals s) (nextTimerId s) (actions s) v.

Definition push (a : Action) (s : AppState) : AppState :=
  set_actions (actions s ++ [a]) s.

(** *** Code that reads and writes the state and may throw *)

Definition Js (A : Type) : Type := AppState -> result A * AppState.

Definition ret {A} (a : A) : Js A := fun s => (Ok a, s).

Definition throw {A} (e : JsError) : Js A := fun s => (Throw e, s).

Definition bind {A B} (c : Js A) (k : A -> Js B) : Js B :=
  fun s =>
    match c s with
    | (Ok a, s') => k a s'
    | (Throw e, s') => (Throw e, s')
    end.

Definition get : Js AppState := fun s => (Ok s, s).

Definition modify (f : AppState -> AppState) : Js unit := fun s => (Ok tt, f s).

Definition liftResult {A} (r : result A) : Js A := fun s => (r, s).

Definition when (b : bool) (c : Js unit) : Js unit := if b then c else ret tt.

Declare Scope js_scope.
Delimit Scope js_scope with js.
Notation "x <- c ;; k" := (bind c (fun x => k))
  (at level 61, c at next level, right associativity) : js_scope.
Notation "c ;; k" := (bind c (fun _ => k))
  (at level 61, right associativity) : js_scope.

(** The state a callback leaves behind, whether it returned or threw (a
    throw inside an async callback is a rejected promise that nobody
    handles). *)
Definition exec {A} (c : Js A) (s : AppState) : AppState := snd (c s).

(** *** Constants *)

Definition emergencyContact : string := "6361449873".
Definition EAR_THRESHOLD : float := 0.25%float.
Definition CONSECUTIVE_FRAMES_DROWSY : nat := 10.
Definition CONSECUTIVE_FRAMES_UNRESPONSIVE : nat := 25.

Definition msgDrowsy : string := "Drowsiness detected (long eye closure).".
Definition msgUnresponsive : string := "Unresponsive detected (no face in view).".
Definition promptDrowsy : string :=
  "The driver seems drowsy. Start a short, engaging conversation to help them stay alert.".
Definition promptUnresponsive : string :=
  "The driver seems unresponsive. Please state clearly if you are okay. An emergency contact will be notified in 15 seconds if there is no response.".

(** *** Fatigue detection loop (the callback of the 200 ms interval) *)

(** What [detectSingleFace(...).withFaceLandmarks()] resolved to. *)
Record Detections : Type := mkDetections {
  leftEye : list (Point float);
  rightEye : list (Point float)
}.

Record DetectionInput : Type := mkInput {
  videoPlaying : bool;        (* videoRef.current && !videoRef.current.paused *)
  detections : option Detections
}.

Definition detectionCallback (inp : DetectionInput) : Js unit :=
  (if videoPlaying inp then
     match detections inp with
     | Some d =>
         modify (set_noFaceFramesRef 0) ;;
         leftEAR <- liftResult (getEyeAspectRatio (leftEye d)) ;;
         rightEAR <- liftResult (getEyeAspectRatio (rightEye d)) ;;
         let ear := ((leftEAR + rightEAR) / 2)%float in
         (if (ear <? EAR_THRESHOLD)%float
          then modify (fun s => set_eyeClosedFramesRef (S (eyeClosedFramesRef s)) s)
          else modify (set_eyeClosedFramesRef 0)) ;;
         s <- get ;;
         when (CONSECUTIVE_FRAMES_DROWSY <? eyeClosedFramesRef s)%nat
           (modify (push (ConsoleLog msgDrowsy)) ;;
            modify (set_driverState DROWSY))
     | None =>
         modify (fun s => set_noFaceFramesRef (S (noFaceFramesRef s)) s) ;;
         s <- get ;;
         when (CONSECUTIVE_FRAMES_UNRESPONSIVE <? noFaceFramesRef s)%nat
           (modify (push (ConsoleLog msgUnresponsive)) ;;
            modify (set_driverState UNRESPONSIVE))
     end
   else ret tt)%js.

(** The interval is installed by the effect with dependencies
    [permissionsGranted, modelsLoaded, driverState] exactly in this case. *)
Definition detectionActive (s : AppState) : bool :=
  permissionsGranted s && modelsLoaded s
  && DriverState_beq (driverState s) MONITORING.

(** *** Live session *)

(** The synchronous part of [startLiveSession] and what follows its two
    awaits, taken as one step: [getUserMedia] and [connect] are assumed to
    resolve.  [snap] is the render the callback was created in (its
    dependencies are [permissionsGranted] and [driverState]). *)
Definition startLiveSession (snap acc : AppState) : AppState :=
  if negb (permissionsGranted snap) || negb (aiRef acc) then acc
  else
    let acc := set_miraState LISTENING acc in
    let acc := set_outputAudioContextRef true acc in
    let acc := set_analyserNode true acc in
    let acc := set_currentInputTranscription EmptyString acc in
    let acc := set_currentOutputTranscription EmptyString acc in
    let acc := set_sessionPromiseRef true acc in
    let acc := push ConnectSession acc in
    if DriverState_beq (driverState snap) DROWSY
    then push (SendText promptDrowsy) acc
    else acc.

(** *** Emergency timer *)

(** [emergencyTimerRef.current = window.setInterval(..., 1000)] *)
Definition startEmergencyTimer (acc : AppState) : AppState :=
  let t := nextTimerId acc in
  set_emergencyTimerRef (Some t)
    (set_intervals (intervals acc ++ [t])
       (set_nextTimerId (Pos.succ t) acc)).

(** [if (emergencyTimerRef.current) clearInterval(emergencyTimerRef.current)];
    the reference keeps the id. *)
Definition clearEmergencyTimer (acc : AppState) : AppState :=
  match emergencyTimerRef acc with
  | Some t => set_intervals (List.remove Pos.eq_dec t (intervals acc)) acc
  | None => acc
  end.

(** The callback of the emergency interval. *)
Definition emergencyTick (s : AppState) : AppState :=
  set_emergencyCountdown (emergencyCountdown s - 1) s.

Definition cancelEmergency (s : AppState) : AppState :=
  let s := clearEmergencyTimer s in
  let s := set_isEmergency false s in
  let s := set_driverState MONITORING s in
  set_transcriptions (transcriptions s ++ [mkEntry USER "I'm okay."]) s.

(** *** Effects

    An effect reads the React state of the render it belongs to ([snap])
    and queues updates; references and the browser are read and written in
    place ([acc]). *)

(** [useEffect(..., [driverState, miraState, isEmergency, startLiveSession])] *)
Definition escalationEffect (snap acc : AppState) : AppState :=
  let acc :=
    if DriverState_beq (driverState snap) DROWSY
       && MiraState_beq (miraState snap) IDLE
    then set_driverState ENGAGED (startLiveSession snap acc)
    else acc in
  if DriverState_beq (driverState snap) UNRESPONSIVE && negb (isEmergency snap)
  then
    let acc := set_isEmergency true acc in
    let acc := set_emergencyCountdown 15 acc in
    let acc := startEmergencyTimer acc in
    if sessionPromiseRef acc then push (SendText promptUnresponsive) acc else acc
  else acc.

(** [useEffect(..., [emergencyCountdown, location])] *)
Definition expiryEffect (snap acc : AppState) : AppState :=
  if (emergencyCountdown snap <=? 0)%Z
  then
    let acc := clearEmergencyTimer acc in
    let acc := push (NotifyEmergencyContact emergencyContact (location snap)) acc in
    let acc := set_isEmergency false acc in
    set_driverState MONITORING acc
  else acc.

Definition escalationDepsChanged (prev cur : AppState) : bool :=
  negb (DriverState_beq (driverState prev) (driverState cur))
  || negb (MiraState_beq (miraState prev) (miraState cur))
  || negb (Bool.eqb (isEmergency prev) (isEmergency cur))
  || negb (Bool.eqb (permissionsGranted prev) (permissionsGranted cur)).

Definition expiryDepsChanged (prev cur : AppState) : bool :=
  negb (emergencyCountdown prev =? emergencyCountdown cur)%Z
  || negb (locationVersion prev =? locationVersion cur)%nat.

(** The effects of one render, in the order they are declared; an effect
    runs when one of its dependencies differs from the previous render. *)
Definition runEffects (prev cur : AppState) : AppState :=
  let acc := if escalationDepsChanged prev cur then escalationEffect cur cur else cur in
  if expiryDepsChanged prev cur then expiryEffect cur acc else acc.

(** Render, run the effects, render again with what they queued. *)
Fixpoint commit (rounds : nat) (prev cur : AppState) : AppState :=
  match rounds with
  | O => cur
  | S n => commit n cur (runEffects prev cur)
  end.

Definition render (prev cur : AppState) : AppState := commit 3 prev cur.

(** *** Messages of the live session *)

Record FunctionCall : Type := mkCall {
  fcId : string;
  fcName : string;
  fcArgs : list (string * string)
}.

Record LiveServerMessage : Type := mkMessage {
  inputTranscription : option string;   (* serverContent?.inputTranscription, its text *)
  outputTranscription : option string;  (* serverContent?.outputTranscription, its text *)
  turnComplete : bool;                  (* serverContent?.turnComplete *)
  functionCalls : option (list FunctionCall);  (* toolCall?.functionCalls *)
  inlineAudio : option JsString         (* serverContent?.modelTurn?.parts[0]?.inlineData?.data *)
}.

Record AudioBuffer : Type := mkBuffer {
  numberOfChannels : nat;
  frameCount : nat;
  sampleRate : positive
}.

(** A length or a sample rate as a [number]. *)
Definition numberOfNat (n : nat) : float :=
  PrimFloat.of_uint63 (Uint63.of_Z (Z.of_nat n)).

Definition numberOfPos (p : positive) : float :=
  PrimFloat.of_uint63 (Uint63.of_pos p).

(** [audioBuffer.duration], in seconds: the length divided by the sample
    rate, in binary64. *)
Definition duration (b : AudioBuffer) : float :=
  (numberOfNat (frameCount b) / numberOfPos (sampleRate b))%float.

(** [Math.max(a, b)] on two numbers: NaN when one of them is NaN, and +0
    rather than -0. *)
Definition Math_max (a b : float) : float :=
  if (PrimFloat.is_nan a || PrimFloat.is_nan b)%bool then PrimFloat.nan
  else if (a <? b)%float then b
  else if (b <? a)%float then a
  else match PrimFloat.classify a with FloatClass.NZero => b | _ => a end.

(** [decodeAudioData]: a 16-bit view of the bytes ([RangeError] when their
    number is odd) and a buffer of [length / numChannels] frames
    ([NotSupportedError] when that is zero).  The sample values are not
    represented. *)
Definition decodeAudioData (data : list Byte.byte) (rate : positive)
    (numChannels : nat) : result AudioBuffer :=
  if Nat.odd (List.length data) then Throw RangeError
  else
    let frames := Nat.div (Nat.div (List.length data) 2) numChannels in
    if (frames =? 0)%nat then Throw NotSupportedError
    else Ok (mkBuffer numChannels frames rate).

(** The scheduling of one inline audio payload; [now] is
    [outputAudioContextRef.current.currentTime]. *)
Definition scheduleAudio (audioData : JsString) (now : float) : Js unit :=
  (modify (fun s => set_nextAudioStartTimeRef (Math_max (nextAudioStartTimeRef s) now) s) ;;
   bytes <- liftResult (decode audioData) ;;
   audioBuffer <- liftResult (decodeAudioData bytes 24000 1) ;;
   s <- get ;;
   modify (push (StartSource (nextAudioStartTimeRef s) (duration audioBuffer))) ;;
   modify (fun s => set_nextAudioStartTimeRef
                      (nextAudioStartTimeRef s + duration audioBuffer)%float s))%js.

(** [String.prototype.trim].  It removes the code points of WhiteSpace and
    LineTerminator of ECMAScript from both ends: U+0009 to U+000D, U+0020,
    U+00A0, U+1680, U+2000 to U+200A, U+2028, U+2029, U+202F, U+205F,
    U+3000 and U+FEFF.  A text is held as its UTF-8 bytes, so a white-space
    code point is one, two or three bytes. *)
Definition isSpace (c : ascii) : bool :=
  let n := nat_of_ascii c in
  ((9 <=? n) && (n <=? 13) || (n =? 32))%nat.

Definition isSpace2 (c1 c2 : ascii) : bool :=
  ((nat_of_ascii c1 =? 194) && (nat_of_ascii c2 =? 160))%nat.

Definition isSpace3 (c1 c2 c3 : ascii) : bool :=
  let n1 := nat_of_ascii c1 in
  let n2 := nat_of_ascii c2 in
  let n3 := nat_of_ascii c3 in
  ((n1 =? 225) && (n2 =? 154) && (n3 =? 128)
   || (n1 =? 226) && (n2 =? 128)
      && ((128 <=? n3) && (n3 <=? 138) || (n3 =? 168) || (n3 =? 169) || (n3 =? 175))
   || (n1 =? 226) && (n2 =? 129) && (n3 =? 159)
   || (n1 =? 227) && (n2 =? 128) && (n3 =? 128)
   || (n1 =? 239) && (n2 =? 187) && (n3 =? 191))%nat.

(** Removal of the white space at the head of a list of bytes; [sp2] and [sp3]
    recognise the code points of two and of three bytes. *)
Fixpoint strip (sp2 : ascii -> ascii -> bool) (sp3 : ascii -> ascii -> ascii -> bool)
    (l : list ascii) : list ascii :=
  match l with
  | c1 :: r1 =>
      if isSpace c1 then strip sp2 sp3 r1
      else match r1 with
           | c2 :: r2 =>
               if sp2 c1 c2 then strip sp2 sp3 r2
               else match r2 with
                    | c3 :: r3 => if sp3 c1 c2 c3 then strip sp2 sp3 r3 else l
                    | [] => l
                    end
           | [] => l
           end
  | [] => []
  end.

Definition trimStart (l : list ascii) : list ascii := strip isSpace2 isSpace3 l.

(** The same from the end: on the reversed list the bytes of a code point
    come last byte first. *)
Definition trimEnd (l : list ascii) : list ascii :=
  rev (strip (fun c2 c1 => isSpace2 c1 c2) (fun c3 c2 c1 => isSpace3 c1 c2 c3) (rev l)).

Definition trim (t : string) : string :=
  string_of_list_ascii (trimEnd (trimStart (list_ascii_of_string t))).

Definition nonEmpty (t : string) : bool :=
  match t with EmptyString => false | _ => true end.

(** A tool handler: from the arguments of the call to the text of the
    result; it may change the state and it may throw. *)
Definition Handler : Type := list (string * string) -> Js string.

Section Session.

(** [mockFunctions[name]], when it is truthy. *)
Variable registry : string -> option Handler.

(** The loop over [message.toolCall.functionCalls]. *)
Fixpoint dispatchToolCalls (calls : list FunctionCall) : Js unit :=
  match calls with
  | [] => ret tt
  | fc :: rest =>
      (match registry (fcName fc) with
       | Some func =>
           result <- func (fcArgs fc) ;;
           s <- get ;;
           when (sessionPromiseRef s)
             (modify (push (SendToolResponse (fcId fc) (fcName fc) result)))
       | None => ret tt
       end ;;
       dispatchToolCalls rest)%js
  end.

(** The text that the updater [prev => [...prev, {speaker, text: acc.trim()}]]
    stores.  The updater reads the accumulator when React runs it: at the
    call of the setter when the update queue of the component is clean
    then, and otherwise at the next render, which comes after the callback
    has set the accumulator to the empty string. *)
Definition updaterText (atCall : bool) (accumulator : string) : string :=
  if atCall then trim accumulator else trim EmptyString.

(** [setTranscriptions(prev => [...prev, {speaker, text: acc.trim()}])],
    [accumulator] being the value of [acc] at the call; the update leaves
    work on the queue. *)
Definition logTurn (speaker : Speaker) (accumulator : string) : Js unit :=
  modify (fun s =>
    set_updaterAtCall false
      (set_transcriptions
         (transcriptions s ++ [mkEntry speaker (updaterText (updaterAtCall s) accumulator)])
         s)).

Definition flushTurn : Js unit :=
  (s <- get ;;
   when (nonEmpty (trim (currentInputTranscription s)))
     (logTurn USER (currentInputTranscription s)) ;;
   when (nonEmpty (trim (currentOutputTranscription s)))
     (logTurn MIRA (currentOutputTranscription s)) ;;
   modify (set_currentInputTranscription EmptyString) ;;
   modify (set_currentOutputTranscription EmptyString) ;;
   modify (set_miraState LISTENING))%js.

(** [onmessage], run to its end without interleaving other callbacks. *)
Definition onmessage (message : LiveServerMessage) (now : float) : Js unit :=
  (match inputTranscription message with
   | Some t => modify (fun s => set_currentInputTranscription
                                  (currentInputTranscription s ++ t) s)
   | None => ret tt
   end ;;
   match outputTranscription message with
   | Some t => modify (fun s => set_currentOutputTranscription
                                  (currentOutputTranscription s ++ t) s) ;;
               modify (set_miraState SPEAKING)
   | None => ret tt
   end ;;
   when (turnComplete message) flushTurn ;;
   match functionCalls message with
   | Some calls => modify (set_miraState THINKING) ;; dispatchToolCalls calls
   | None => ret tt
   end ;;
   match inlineAudio message with
   | Some audioData =>
       s <- get ;;
       when (negb (Nat.eqb (List.length audioData) 0) && outputAudioContextRef s)
         (scheduleAudio audioData now)
   | None => ret tt
   end)%js.

(** [onerror: (e) => console.error('Live session error:', e)] *)
Definition onerror (s : AppState) : AppState :=
  push (ConsoleLog "Live session error:") s.

(** [onclose] *)
Definition onclose (s : AppState) : AppState :=
  let s := set_miraState IDLE s in
  let s := set_analyserNode false s in
  push (ConsoleLog "Live session closed.") s.

(** *** Events *)

Inductive Event : Type :=
| ModelsLoaded                        (* setup: the face-api models arrived *)
| MediaGranted                        (* setup: getUserMedia resolved *)
| LocationUpdate (loc : Location)     (* watchPosition callback *)
| DetectionTick (inp : DetectionInput)
| TimerFire (t : positive)            (* one firing of interval [t] *)
| ClickImOkay                         (* the button of the emergency overlay *)
| SessionMessage (message : LiveServerMessage) (now : float)
| SessionError
| SessionClose
| UpdateQueue (clean : bool).         (* React settles its update queue, or not *)

(** Whether the event can occur in a state: the callback is installed,
    the button is on the page. *)
Definition enabled (ev : Event) (s : AppState) : bool :=
  match ev with
  | ModelsLoaded => true
  | MediaGranted => modelsLoaded s
  | LocationUpdate _ => permissionsGranted s
  | DetectionTick _ => detectionActive s
  | TimerFire t => existsb (Pos.eqb t) (intervals s)
  | ClickImOkay => isEmergency s
  | SessionMessage _ _ | SessionError | SessionClose => sessionPromiseRef s
  | UpdateQueue _ => true
  end.

(** The callback of the event. *)
Definition handle (ev : Event) (s : AppState) : AppState :=
  match ev with
  | ModelsLoaded => set_modelsLoaded true s
  | MediaGranted => set_permissionsGranted true s
  | LocationUpdate loc =>
      set_locationVersion (S (locationVersion s)) (set_location (Some loc) s)
  | DetectionTick inp => exec (detectionCallback inp) s
  | TimerFire _ => emergencyTick s
  | ClickImOkay => cancelEmergency s
  | SessionMessage message now => exec (onmessage message now) s
  | SessionError => onerror s
  | SessionClose => onclose s
  | UpdateQueue clean => set_updaterAtCall clean s
  end.

(** One event: its callback, then the renders and effects it causes. *)
Definition step (ev : Event) (s : AppState) : AppState :=
  if enabled ev s then render s (handle ev s) else s.

Definition run (evs : list Event) (s : AppState) : AppState :=
  fold_left (fun st ev => step ev st) evs s.

End Session.

(** *** The tool handlers of the component *)

Section MockFunctions.

(** The grounded Maps query of [find_nearby_places] (a remote call) and
    [encodeURIComponent]. *)
Variable generateContent : string -> Location -> result string.
Variable encodeURIComponent : string -> result string.

(** [location] as the closure of the session sees it. *)
Variable closureLocation : option Location.

(** [args.key] interpolated into a template string. *)
Definition argText (key : string) (args : list (string * string)) : string :=
  match find (fun kv => String.eqb (fst kv) key) args with
  | Some kv => snd kv
  | None => "undefined"
  end.

Definition find_nearby_places : Handler := fun args =>
  (modify (push (ConsoleLog ("Searching for nearby places: " ++ argText "query" args))) ;;
   match closureLocation with
   | None => ret "I can't find nearby places because I don't have your current location."%string
   | Some loc =>
       s <- get ;;
       if negb (aiRef s) then ret "AI service is not initialized."%string
       else
         match generateContent (argText "query" args) loc with
         | Ok response => ret response
         | Throw _ =>
             modify (push (ConsoleLog "Error using Maps Grounding:")) ;;
             ret "I had trouble looking that up. Please try again."%string
         end
   end)%js.

Definition play_spotify_song : Handler := fun args =>
  (let songName := argText "songName" args in
   let artistName := argText "artist" args in
   modify (push (ConsoleLog ("Playing on Spotify: " ++ songName ++ " by " ++ artistName))) ;;
   seed <- liftResult (encodeURIComponent songName) ;;
   modify (set_currentSong
     (Some (mkSong songName artistName ("https://picsum.photos/seed/" ++ seed ++ "/200")))) ;;
   ret ("Now playing " ++ songName ++ " by " ++ artistName ++ ". Enjoy!")%string)%js.

(** The own properties of the [mockFunctions] object.  The names it
    inherits from [Object.prototype] ([toString], [constructor], ...),
    which the lookup [mockFunctions[fc.name]] finds too, are not
    represented: some of them return a value that is not a text. *)
Definition mockFunctions (name : string) : option Handler :=
  if String.eqb name "find_nearby_places" then Some find_nearby_places
  else if String.eqb name "play_spotify_song" then Some play_spotify_song
  else None.

End MockFunctions.

(** What [initializeAi] does when [process.env.API_KEY] is not set. *)
Definition initializeAi (apiKey : bool) : list Action :=
  if apiKey then []
  else [ConsoleLog "API_KEY environment variable not set.";
        Alert "API Key is not configured. Please set the API_KEY environment variable."].

(** The state after mounting; [apiKey] tells whether [process.env.API_KEY]
    is set, so that [initializeAi] stores a client. *)
Definition init (apiKey : bool) : AppState :=
  mkApp MONITORING IDLE false false [] None 0 false 15 None false
    apiKey false false 0%float None 0 0 EmptyString EmptyString [] 1%positive
    (initializeAi apiKey) true.

End App.

Unset Implicit Arguments.

(** ** The App component: the status line *)

Module AppView.

Import App.

(** A template literal with an integer in it. *)
Definition numberText (n : Z) : string := NilZero.string_of_int (Z.to_int n).

Definition getStatusText (s : AppState) : string :=
  if negb (permissionsGranted s) then "Waiting for permissions..."
  else if negb (modelsLoaded s) then "Loading AI Vision Models..."
  else if isEmergency s
  then "EMERGENCY COUNTDOWN: " ++ numberText (emergencyCountdown s)
  else match driverState s with
       | DROWSY => "Drowsiness Detected..."
       | UNRESPONSIVE => "Unresponsive Driver Detected!"
       | ENGAGED => "Talking with Mira..."
       | _ => "Monitoring..."
       end.

(** [driverState === DriverState.UNRESPONSIVE || isEmergency]: the red
    frame of the video and the red status line. *)
Definition isAlertState (s : AppState) : bool :=
  DriverState_beq (driverState s) UNRESPONSIVE || isEmergency s.

End AppView.

(** ** The samples of the audio (App: [onaudioprocess], [decodeAudioData])

    A sample of a Float32Array is taken as the rational number it holds
    (the samples are finite); its product with 32768 and the quotient of a
    16-bit integer by 32768 are exact in binary64.  Typed arrays over one
    buffer use the byte order of the platform, little-endian here. *)

Module Pcm.

Import Base64.

(** Storing a finite number into an Int16Array: the fraction is dropped
    (rounding toward zero) and the integer is kept modulo 2^16, in
    [-32768, 32767]. *)
Definition truncate (v : Q) : Z := Z.quot (Qnum v) (Zpos (Qden v)).

Definition toInt16 (v : Q) : Z := ((truncate v + 32768) mod 65536 - 32768)%Z.

(** The loop of [onaudioprocess]: [int16[i] = inputData[i] * 32768]. *)
Definition int16 (inputData : list Q) : list Z :=
  map (fun v => toInt16 (v * 32768)) inputData.

(** [new Uint8Array(int16.buffer)]: two bytes for each element, the low
    byte first. *)
Definition int16Bytes (n : Z) : list Byte.byte :=
  let u := Z.to_N (n mod 65536) in
  [toUint8 (u mod 256); toUint8 (u / 256)].

Definition bufferOfInt16 (l : list Z) : list Byte.byte := flat_map int16Bytes l.

(** [pcmBlob.data]: what [onaudioprocess] sends for a block of samples. *)
Definition pcmBlob (inputData : list Q) : result JsString :=
  encode (bufferOfInt16 (int16 inputData)).

(** [new Int16Array(data.buffer)], for a buffer of even length. *)
Fixpoint dataInt16 (data : list Byte.byte) : list Z :=
  match data with
  | lo :: hi :: rest =>
      let u := (Z.of_N (Byte.to_N lo) + 256 * Z.of_N (Byte.to_N hi))%Z in
      (if (u <? 32768)%Z then u else u - 65536)%Z :: dataInt16 rest
  | _ => []
  end.

(** The samples [decodeAudioData] writes to a channel of the buffer:
    [channelData[i] = dataInt16[i * numChannels + channel] / 32768.0]. *)
Definition getChannelData (data : list Byte.byte) (numChannels channel : nat) : list Q :=
  let samples := dataInt16 data in
  let frameCount := Nat.div (List.length samples) numChannels in
  map (fun i => inject_Z (nth (i * numChannels + channel) samples 0%Z) / 32768)
    (seq 0 frameCount).

End Pcm.

(** ** components/SpotifyPlayer.tsx *)

Module SpotifyPlayer.

(** The state of the component: the prop [song] as of the last render and
    the two [useState] values. *)
Record PlayerState : Type := mkPlayer {
  song : option Song;
  isPlaying : bool;
  progress : Z
}.

(** The first effect, with [song] as its dependency. *)
Definition songEffect (s : PlayerState) : PlayerState :=
  match song s with
  | Some _ => mkPlayer (song s) true 0
  | None => mkPlayer (song s) false 0
  end.

(** The second effect, with [isPlaying] and [song] as its dependencies,
    keeps a 1 s interval installed exactly in this case. *)
Definition ticking (s : PlayerState) : bool :=
  isPlaying s && match song s with Some _ => true | None => false end.

(** The callback of the interval:
    [setProgress(prev => (prev >= 100 ? 0 : prev + 1))]. *)
Definition tick (s : PlayerState) : PlayerState :=
  mkPlayer (song s) (isPlaying s)
    (if (progress s >=? 100)%Z then 0%Z else (progress s + 1)%Z).

Definition togglePlay (s : PlayerState) : PlayerState :=
  match song s with
  | Some _ => mkPlayer (song s) (negb (isPlaying s)) (progress s)
  | None => s
  end.

Inductive PlayerEvent : Type :=
| SongProp (sg : option Song)   (* the parent renders with another value of the prop *)
| Tick                          (* one firing of the interval *)
| ClickPlay.                    (* the play/pause button *)

(** Whether the event can occur: a prop that holds an object holds a new
    one ([setCurrentSong] is only called with a fresh object literal), so
    the dependency of the first effect changes unless [null] follows
    [null]; the button is on the page only with a song. *)
Definition enabled (ev : PlayerEvent) (s : PlayerState) : bool :=
  match ev with
  | SongProp sg =>
      match sg, song s with None, None => false | _, _ => true end
  | Tick => ticking s
  | ClickPlay => match song s with Some _ => true | None => false end
  end.

Definition handle (ev : PlayerEvent) (s : PlayerState) : PlayerState :=
  match ev with
  | SongProp sg => songEffect (mkPlayer sg (isPlaying s) (progress s))
  | Tick => tick s
  | ClickPlay => togglePlay s
  end.

Definition step (ev : PlayerEvent) (s : PlayerState) : PlayerState :=
  if enabled ev s then handle ev s else s.

Definition run (evs : list PlayerEvent) (s : PlayerState) : PlayerState :=
  fold_left (fun st ev => step ev st) evs s.

(** The state after mounting with a value of the prop: the initial
    [useState] values, then the first effect. *)
Definition mount (sg : option Song) : PlayerState :=
  songEffect (mkPlayer sg false 0).

(** The width of the progress bar, in percent. *)
Definition barWidth (s : PlayerState) : Z := progress s.

End SpotifyPlayer.

(** ** components/MiraCore.tsx

    The ring of the agent and the bars of the audio visualiser.  The
    coordinates are computed in exact arithmetic; the index of a frequency
    bin is an integer, computed exactly. *)

Module MiraCore.

Definition getPulseClass (state : MiraState) : string :=
  match state with
  | LISTENING => "animate-pulse border-blue-400"
  | SPEAKING => "animate-pulse border-green-400"
  | THINKING => "animate-pulse border-purple-400"
  | _ => "border-slate-600"
  end.

Definition barCount : nat := 60.

(** [Math.floor(i * bufferLength / barCount)] *)
Definition binIndex (bufferLength i : nat) : nat := Nat.div (i * bufferLength) barCount.

(** [Math.min(WIDTH, HEIGHT) / 3] *)
Definition radius (WIDTH HEIGHT : R) : R := (Rmin WIDTH HEIGHT / 3)%R.

(** [(dataArray[...] / 255) * radius * 0.5]; [dataArray] is the Uint8Array
    of [bufferLength] bins, and reading outside of it gives [undefined],
    which makes the height NaN ([None]). *)
Definition barHeight (dataArray : list Byte.byte) (WIDTH HEIGHT : R) (i : nat) : option R :=
  match nth_error dataArray (binIndex (List.length dataArray) i) with
  | Some v =>
      Some (IZR (Z.of_N (Byte.to_N v)) / 255 * radius WIDTH HEIGHT * (1 / 2))%R
  | None => None
  end.

(** [(i / barCount) * 2 * Math.PI] *)
Definition angle (i : nat) : R := (INR i / INR barCount * 2 * PI)%R.

Record Bar : Type := mkBar { startX : R; startY : R; endX : R; endY : R }.

(** The line the loop of [draw] strokes for bar [i]. *)
Definition bar (dataArray : list Byte.byte) (WIDTH HEIGHT : R) (i : nat) : option Bar :=
  match barHeight dataArray WIDTH HEIGHT i with
  | Some h =>
      let centerX := (WIDTH / 2)%R in
      let centerY := (HEIGHT / 2)%R in
      let r := radius WIDTH HEIGHT in
      Some (mkBar (centerX + (r - h) * cos (angle i))
                  (centerY + (r - h) * sin (angle i))
                  (centerX + (r + h) * cos (angle i))
                  (centerY + (r + h) * sin (angle i)))%R
  | None => None
  end.

End MiraCore.

(** ** Vocabulary of the properties

    Observations on a state or a trace, inputs of a given kind, and
    abbreviations for states the effects produce. *)

Unset Implicit Arguments.

Module Observe.

Import FatigueDetection Base64 App.

(** *** Geometry over the reals *)

(** Distance between two points. *)
Definition distR (p q : Point R) : R :=
  R_sqrt.sqrt ((x p - x q) * (x p - x q) + (y p - y q) * (y p - y q))%R.

(** *** Detection samples *)

(** The averaged eye aspect ratio of a detection. *)
Definition sampleEAR (d : Detections) : result float :=
  (leftEAR <- getEyeAspectRatio (leftEye d) ;;
   rightEAR <- getEyeAspectRatio (rightEye d) ;;
   Ok ((leftEAR + rightEAR) / 2)%float)%result.

(** A sample with a face whose averaged ratio is below the threshold. *)
Definition closedEyes (inp : DetectionInput) : bool :=
  videoPlaying inp &&
  match detections inp with
  | Some d =>
      match sampleEAR d with
      | Ok ear => (ear <? EAR_THRESHOLD)%float
      | Throw _ => false
      end
  | None => false
  end.

(** A sample without a face. *)
Definition noFace (inp : DetectionInput) : bool :=
  videoPlaying inp &&
  match detections inp with Some _ => false | None => true end.

(** A sample with a face. *)
Definition faceFound (inp : DetectionInput) : bool :=
  videoPlaying inp &&
  match detections inp with Some _ => true | None => false end.

Definition ticks (samples : list DetectionInput) : list Event :=
  map DetectionTick samples.

(** [s] with other values of the two frame counters. *)
Definition withCounters (closed missing : nat) (s : AppState) : AppState :=
  set_eyeClosedFramesRef closed (set_noFaceFramesRef missing s).

(** *** Requests of the debouncer

    A request is the call of [setDriverState] together with the line it
    logs; the requests made so far are counted by their lines. *)

Definition isLog (msg : string) (a : Action) : bool :=
  match a with ConsoleLog m => String.eqb m msg | _ => false end.

Definition drowsyRequests (s : AppState) : nat :=
  List.length (filter (isLog msgDrowsy) (actions s)).

Definition unresponsiveRequests (s : AppState) : nat :=
  List.length (filter (isLog msgUnresponsive) (actions s)).

(** *** Renders *)

(** The React state the two effects depend on is the same in both. *)
Definition sameDeps (prev cur : AppState) : Prop :=
  driverState prev = driverState cur
  /\ miraState prev = miraState cur
  /\ isEmergency prev = isEmergency cur
  /\ permissionsGranted prev = permissionsGranted cur
  /\ emergencyCountdown prev = emergencyCountdown cur
  /\ locationVersion prev = locationVersion cur.

(** The same, but for [driverState]. *)
Definition onlyDriverChanged (prev cur : AppState) : Prop :=
  miraState prev = miraState cur
  /\ isEmergency prev = isEmergency cur
  /\ permissionsGranted prev = permissionsGranted cur
  /\ emergencyCountdown prev = emergencyCountdown cur
  /\ locationVersion prev = locationVersion cur.

(** The conditions of the two branches of the escalation effect. *)
Definition drowsyIdle (s : AppState) : bool :=
  DriverState_beq (driverState s) DROWSY && MiraState_beq (miraState s) IDLE.

Definition unresponsiveNew (s : AppState) : bool :=
  DriverState_beq (driverState s) UNRESPONSIVE && negb (isEmergency s).

(** What a session start sends. *)
Definition sessionActions (snap acc : AppState) : list Action :=
  if negb (permissionsGranted snap) || negb (aiRef acc) then []
  else ConnectSession ::
       (if DriverState_beq (driverState snap) DROWSY
        then [SendText promptDrowsy] else []).

(** The start of the countdown, as the escalation effect performs it. *)
Definition beginEmergency (acc : AppState) : AppState :=
  let acc := set_isEmergency true acc in
  let acc := set_emergencyCountdown 15 acc in
  let acc := startEmergencyTimer acc in
  if sessionPromiseRef acc then push (SendText promptUnresponsive) acc else acc.

(** *** Emergency countdown *)

Definition isNotify (a : Action) : bool :=
  match a with NotifyEmergencyContact _ _ => true | _ => false end.

(** The notifications of the emergency contact made so far. *)
Definition notifications (s : AppState) : list Action :=
  filter isNotify (actions s).

(** The events of a countdown that nobody answers: firings of its interval
    and, in between, position updates. *)
Definition countdownEvent (t : positive) (ev : Event) : bool :=
  match ev with
  | TimerFire t' => Pos.eqb t' t
  | LocationUpdate _ => true
  | _ => false
  end.

Definition isFire (ev : Event) : bool :=
  match ev with TimerFire _ => true | _ => false end.

(** The number of firings in a trace. *)
Definition fires (evs : list Event) : nat := List.length (filter isFire evs).

(** The state of a running countdown: [t] is its interval, [c] the
    seconds that remain; [N] and [T] are the notifications and the
    transcript at its start. *)
Record Counting (t : positive) (c : Z) (N : list Action)
    (T : list TranscriptionEntry) (s : AppState) : Prop := {
  counting_emergency : isEmergency s = true;
  counting_driver : driverState s = UNRESPONSIVE;
  counting_seconds : emergencyCountdown s = c;
  counting_ref : emergencyTimerRef s = Some t;
  counting_live : intervals s = [t];
  counting_notified : notifications s = N;
  counting_transcript : transcriptions s = T
}.

(** The emergency of a state and its interval timer agree: during an
    emergency the driver state is UNRESPONSIVE and exactly the interval of
    the reference is live; otherwise no interval is live and the driver
    state is not UNRESPONSIVE. *)
Definition TimerInvariant (s : AppState) : Prop :=
  if isEmergency s
  then driverState s = UNRESPONSIVE
       /\ exists t, emergencyTimerRef s = Some t /\ intervals s = [t]
  else driverState s <> UNRESPONSIVE /\ intervals s = [].

(** What a callback of the session leaves alone: the driver state, the
    emergency and its timer, the dependencies of the expiry effect; the
    conversational state is unchanged or not IDLE. *)
Definition sameControl (s s' : AppState) : Prop :=
  driverState s' = driverState s
  /\ isEmergency s' = isEmergency s
  /\ emergencyCountdown s' = emergencyCountdown s
  /\ emergencyTimerRef s' = emergencyTimerRef s
  /\ intervals s' = intervals s
  /\ locationVersion s' = locationVersion s
  /\ permissionsGranted s' = permissionsGranted s
  /\ (miraState s' = miraState s \/ miraState s' <> IDLE).

(** A computation that leaves these alone, however it ends. *)
Definition keeps {A} (c : Js A) : Prop := forall s, sameControl s (snd (c s)).

(** A registry whose handlers leave them alone. *)
Definition benign (registry : string -> option Handler) : Prop :=
  forall name h args, registry name = Some h -> keeps (h args).

(** *** Sessions *)

Definition isConnect (a : Action) : bool :=
  match a with ConnectSession => true | _ => false end.

(** How many live sessions were started so far. *)
Definition sessionStarts (s : AppState) : nat :=
  List.length (filter isConnect (actions s)).

(** *** Audio chunks *)

(** The buffer an inline audio payload decodes to. *)
Definition chunk (audioData : JsString) : result AudioBuffer :=
  (bytes <- decode audioData ;; decodeAudioData bytes 24000 1)%result.

(** A message that carries inline audio only. *)
Definition audioMessage (audioData : JsString) : LiveServerMessage :=
  mkMessage None None false None (Some audioData).

(** The arrival of an audio chunk while the output clock reads [now]. *)
Definition receive (registry : string -> option Handler)
    (now : float) (audioData : JsString) (s : AppState) : AppState :=
  step registry (SessionMessage (audioMessage audioData) now) s.

(** The playback cursor. *)
Definition cursor (s : AppState) : float := nextAudioStartTimeRef s.

Definition isEmpty (audioData : JsString) : bool :=
  match audioData with [] => true | _ => false end.

(** *** Tool calls *)

Definition isResponse (a : Action) : bool :=
  match a with SendToolResponse _ _ _ => true | _ => false end.

(** The tool results sent to the agent so far. *)
Definition responses (s : AppState) : list Action :=
  filter isResponse (actions s).

(** The id and name a tool result carries. *)
Definition responseKey (a : Action) : string * string :=
  match a with
  | SendToolResponse id name _ => (id, name)
  | _ => (EmptyString, EmptyString)
  end.

Definition callKey (fc : FunctionCall) : string * string := (fcId fc, fcName fc).

(** The call names a handler of the registry. *)
Definition registered (registry : string -> option Handler) (fc : FunctionCall) : bool :=
  match registry (fcName fc) with Some _ => true | None => false end.

(** A message that carries a batch of tool calls only. *)
Definition toolMessage (calls : list FunctionCall) : LiveServerMessage :=
  mkMessage None None false (Some calls) None.

(** A handler that leaves the session reference alone and sends no tool
    result of its own. *)
Definition quietHandler (h : Handler) : Prop :=
  forall args s,
    sessionPromiseRef (snd (h args s)) = sessionPromiseRef s
    /\ responses (snd (h args s)) = responses s.

Definition quiet (registry : string -> option Handler) : Prop :=
  forall name h, registry name = Some h -> quietHandler h.

(** *** Base64 *)

Local Open Scope N_scope.

(** The 6-bit positions [base64Encode] writes, without the padding. *)
Fixpoint sextets (s : list N) : list N :=
  match s with
  | [] => []
  | [a] =>
      let n := a * 65536 in
      [n / 262144; (n / 4096) mod 64]
  | [a; b] =>
      let n := a * 65536 + b * 256 in
      [n / 262144; (n / 4096) mod 64; (n / 64) mod 64]
  | a :: b :: c :: rest =>
      let n := a * 65536 + b * 256 + c in
      n / 262144 :: (n / 4096) mod 64 :: (n / 64) mod 64 :: n mod 64
        :: sextets rest
  end.

(** The padding [base64Encode] appends. *)
Definition padding (s : list N) : list N :=
  match Nat.modulo (List.length s) 3 with
  | 1%nat => [padChar; padChar]
  | 2%nat => [padChar]
  | _ => []
  end.

End Observe.

(** ** Vocabulary of binary64 numbers *)

Module Binary64.

Import SpecFloat.

(** Zeros, positive numbers and plus infinity. *)
Definition nonnegSF (x : spec_float) : bool :=
  match x with
  | S754_zero _ | S754_finite false _ _ | S754_infinity false => true
  | _ => false
  end.

Definition positiveSF (x : spec_float) : bool :=
  match x with
  | S754_finite false _ _ | S754_infinity false => true
  | _ => false
  end.

Definition notNaN (x : spec_float) : bool :=
  match x with S754_nan => false | _ => true end.

End Binary64.

(** ** Vocabulary of the further properties *)

Module Invariants.

Import FatigueDetection Base64 App Observe.

(** The part of the state that no callback of the session writes. *)
Definition control (s : AppState) :=
  ((driverState s, permissionsGranted s, modelsLoaded s, location s, locationVersion s),
   (isEmergency s, emergencyCountdown s, emergencyTimerRef s, intervals s, nextTimerId s),
   (analyserNode s, aiRef s, sessionPromiseRef s, outputAudioContextRef s),
   (eyeClosedFramesRef s, noFaceFramesRef s)).

(** Whether a list of bytes starts with a white-space code point. *)
Definition leading (sp2 : ascii -> ascii -> bool) (sp3 : ascii -> ascii -> ascii -> bool)
    (l : list ascii) : bool :=
  match l with
  | c1 :: r1 =>
      isSpace c1
      || match r1 with
         | c2 :: r2 =>
             sp2 c1 c2 || match r2 with c3 :: _ => sp3 c1 c2 c3 | [] => false end
         | [] => false
         end
  | [] => false
  end.

(** An entry of the transcript whose text has no white space at its ends. *)
Definition tidy (e : TranscriptionEntry) : Prop := trim (text e) = text e.

(** Console lines and tool results. *)
Definition isChatter (a : Action) : bool :=
  match a with ConsoleLog _ | SendToolResponse _ _ _ => true | _ => false end.

(** What the part of [onmessage] before the audio does to the state, and
    what a tool handler of the component does. *)
Record sessionFrame (s s' : AppState) : Prop := {
  frame_control : control s' = control s;
  frame_mira : miraState s' = miraState s \/ miraState s' <> IDLE;
  frame_cursor : nextAudioStartTimeRef s' = nextAudioStartTimeRef s;
  frame_transcript :
    exists added, transcriptions s' = transcriptions s ++ added /\ Forall tidy added;
  frame_actions :
    exists added, actions s' = actions s ++ added
                  /\ Forall (fun a => isChatter a = true) added
}.

(** A computation whose final state is related to its initial state,
    however it ends. *)
Definition preserves {A} (R : AppState -> AppState -> Prop) (c : Js A) : Prop :=
  forall s, R s (snd (c s)).

(** A computation that is related by [R] up to some state and then either
    stops or makes one step of [T]. *)
Definition endsWith {A} (R T : AppState -> AppState -> Prop) (c : Js A) : Prop :=
  forall s, exists s1, R s s1 /\ (snd (c s) = s1 \/ T s1 (snd (c s))).

(** The last part of [onmessage]: nothing, or the scheduling of the inline
    audio of the message. *)
Definition audioStep (message : LiveServerMessage) (now : float) (s s' : AppState) : Prop :=
  s' = s \/ exists audioData,
             inlineAudio message = Some audioData
             /\ outputAudioContextRef s = true
             /\ s' = exec (scheduleAudio audioData now) s.

(** The audio sources started so far follow each other, in the numbers of
    the program: each has a duration that is not negative, starts no
    earlier than [t], the cursor the one before it left (its start plus
    its duration, rounded), and leaves a cursor that is not below its
    start; the last cursor is not above [cur]. *)
Fixpoint sequential (t : float) (l : list Action) (cur : float) : Prop :=
  match l with
  | [] => (t <=? cur)%float = true
  | StartSource w d :: r =>
      (t <=? w)%float = true /\ (0 <=? d)%float = true
      /\ (w <=? w + d)%float = true /\ sequential (w + d)%float r cur
  | _ :: r => sequential t r cur
  end.

(** The same unless the cursor is NaN, which it becomes, and stays, once a
    clock reading is NaN. *)
Definition Scheduled (l : list Action) (cur : float) : Prop :=
  PrimFloat.is_nan cur = false ->
  (0 <=? cur)%float = true /\ sequential 0%float l cur.

Record Coherent (s : AppState) : Prop := {
  coh_timer : TimerInvariant s;
  coh_range : (0 <= emergencyCountdown s <= 15)%Z;
  coh_missing : isEmergency s = true ->
                (CONSECUTIVE_FRAMES_UNRESPONSIVE < noFaceFramesRef s)%nat;
  coh_models : permissionsGranted s = true -> modelsLoaded s = true;
  coh_setup : driverState s <> MONITORING -> permissionsGranted s = true;
  coh_session : miraState s <> IDLE -> sessionPromiseRef s = true;
  coh_client : sessionPromiseRef s = true ->
               aiRef s = true /\ permissionsGranted s = true
               /\ outputAudioContextRef s = true;
  coh_analyser : analyserNode s = true -> miraState s <> IDLE;
  coh_escalated : driverState s = DROWSY -> miraState s <> IDLE;
  coh_transcript : Forall tidy (transcriptions s);
  coh_audio : Scheduled (actions s) (nextAudioStartTimeRef s)
}.

(** The countdown of a running emergency has not reached zero. *)
Definition Running (s : AppState) : Prop :=
  isEmergency s = true -> (1 <= emergencyCountdown s)%Z.

(** Console lines, tool results and audio sources: what a callback of the
    session adds to the trace. *)
Definition isSessionOutput (a : Action) : bool :=
  match a with
  | ConsoleLog _ | SendToolResponse _ _ _ | StartSource _ _ => true
  | _ => false
  end.

(** What a whole [onmessage] does to the state. *)
Record messageFrame (s s' : AppState) : Prop := {
  message_control : control s' = control s;
  message_mira : miraState s' = miraState s \/ miraState s' <> IDLE;
  message_transcript :
    exists added, transcriptions s' = transcriptions s ++ added /\ Forall tidy added;
  message_actions :
    exists added, actions s' = actions s ++ added
                  /\ Forall (fun a => isSessionOutput a = true) added
}.

(** A message that carries pieces of the two transcriptions only, and the
    message that completes a turn. *)
Definition transcriptMessage (heard spoken : option string) : LiveServerMessage :=
  mkMessage heard spoken false None None.

Definition turnCompleteMessage : LiveServerMessage :=
  mkMessage None None true None None.

(** The pieces of a transcription, joined in the order of their arrival. *)
Fixpoint joined (pieces : list (option string)) : string :=
  match pieces with
  | [] => EmptyString
  | Some t :: rest => t ++ joined rest
  | None :: rest => joined rest
  end.

(** The entry a turn contributes for one speaker: none when the trimmed
    accumulator is empty, and otherwise one whose text is the trimmed
    accumulator when the updater runs at the call, and is empty when it
    runs at the next render. *)
Definition turnEntry (sp : Speaker) (atCall : bool) (said : string)
    : list TranscriptionEntry :=
  if nonEmpty (trim said) then [mkEntry sp (updaterText atCall said)] else [].

(** Console lines, alerts and reports to the emergency contact: what the
    component does without a session. *)
Definition isReport (a : Action) : bool :=
  match a with
  | ConsoleLog _ | Alert _ | NotifyEmergencyContact _ _ => true
  | _ => false
  end.

(** 1 while no conversation is going on. *)
Definition idle (s : AppState) : nat :=
  if MiraState_beq (miraState s) IDLE then 1 else 0.

(** The end of a detection. *)
Definition isDetection (ev : Event) : bool :=
  match ev with DetectionTick _ => true | _ => false end.

Definition isClose (ev : Event) : bool :=
  match ev with SessionClose => true | _ => false end.

Definition closes (evs : list Event) : nat := List.length (filter isClose evs).

End Invariants.

Module Geometry.

Import FatigueDetection.

(** The linear map with matrix [[a, -b], [b, a]]: for [a * a + b * b = 1]
    the rotation by the angle with cosine [a] and sine [b]. *)
Definition rotate (a b : R) (p : Point R) : Point R :=
  mkPoint (a * x p - b * y p)%R (b * x p + a * y p)%R.

(** The mirror image in the vertical axis (the picture of a front camera). *)
Definition mirror (p : Point R) : Point R := mkPoint (- x p)%R (y p).

End Geometry.

(** ** Sample data *)

Module Samples.

Import FatigueDetection Base64 App Observe.

(** A registry without tools, and the one of the component with a Maps
    query that always fails and an identity URI encoding. *)
Definition noTools : string -> option Handler := fun _ => None.

Definition offlineTools (loc : option Location) : string -> option Handler :=
  mockFunctions (fun _ _ => Throw (HandlerError "offline")) (fun t => Ok t) loc.

(** The component after setup, watching the driver. *)
Definition monitoring (apiKey : bool) : AppState :=
  run noTools [ModelsLoaded; MediaGranted] (init apiKey).

(** An almost closed eye (ratio 1/6) and an open one (ratio 2/3). *)
Definition narrowEye : list (Point float) :=
  [mkPoint 0 0; mkPoint 1 0.25; mkPoint 2 0.25;
   mkPoint 3 0; mkPoint 2 (-0.25); mkPoint 1 (-0.25)]%float.

Definition openEye : list (Point float) :=
  [mkPoint 0 0; mkPoint 1 1; mkPoint 2 1;
   mkPoint 3 0; mkPoint 2 (-1); mkPoint 1 (-1)]%float.

Definition closedSample : DetectionInput :=
  mkInput true (Some (mkDetections narrowEye narrowEye)).

Definition openSample : DetectionInput :=
  mkInput true (Some (mkDetections openEye openEye)).

Definition noFaceSample : DetectionInput := mkInput true None.

(** Six zero bytes in base64 ("AAAAAAAA"): three frames of silence. *)
Definition silence : JsString := repeat 65%N 8.

(** The tools of the component when [encodeURIComponent] throws. *)
Definition brokenTools : string -> option Handler :=
  mockFunctions (fun _ _ => Throw (HandlerError "offline"))
    (fun _ => Throw (HandlerError "URIError: URI malformed")) None.

(** A message with a piece of the reply and some audio. *)
Definition spokenMessage : LiveServerMessage :=
  mkMessage None (Some "Hello"%string) false None (Some silence).

(** Landmark sets: a small symmetric eye over the reals, and one in pixel
    coordinates. *)
Definition unitEyeR : list (Point R) :=
  [mkPoint 0 0; mkPoint 1 1; mkPoint 2 1;
   mkPoint 3 0; mkPoint 2 (-1); mkPoint 1 (-1)]%R.

Definition pixelEye : list (Point float) :=
  [mkPoint 100 200; mkPoint 110 195; mkPoint 120 195;
   mkPoint 131 201; mkPoint 121 206; mkPoint 109 205]%float.

(** The component after twenty-five samples without a face. *)
Definition almostUnresponsive : AppState :=
  run noTools (ticks (repeat noFaceSample 25)) (monitoring true).

(** The component in a conversation. *)
Definition engaged : AppState :=
  run noTools (ticks (repeat closedSample 11)) (monitoring true).

(** The component in a conversation, Mira speaking, audio scheduled. *)
Definition speaking : AppState :=
  run noTools
    (ticks (repeat closedSample 11) ++ [SessionMessage spokenMessage 1])
    (monitoring true).

(** A run that ends in MONITORING while a session is open: a countdown
    expires, the driver is seen again, closes the eyes and is engaged in a
    conversation; the next position update re-runs the expiry effect (the
    countdown is still 0), which sets the driver state to MONITORING. *)
Definition monitoringWhileListening : AppState :=
  run noTools
    ([ModelsLoaded; MediaGranted]
     ++ ticks (repeat noFaceSample 26)
     ++ repeat (TimerFire 1) 15
     ++ ticks [openSample]
     ++ ticks (repeat closedSample 11)
     ++ [LocationUpdate (mkLocation 0 0)])
    (init true).

(** Payloads of silence: [n] frames are [2 n] zero bytes, which base64
    writes as [8 n / 3] letters A. *)
Definition silenceOf (frames : nat) : JsString := repeat 65%N (8 * frames / 3).

(** Tool calls. *)
Definition coffeeCall : FunctionCall :=
  mkCall "call-1" "find_nearby_places" [("query", "coffee shop")]%string.

Definition unknownCall : FunctionCall :=
  mkCall "call-2" "open_sunroof" [].

Definition songCall : FunctionCall :=
  mkCall "call-3" "play_spotify_song"
    [("songName", "Blue in Green"); ("artist", "Miles Davis")]%string.

End Samples.

(** ** Scenarios *)

Module Scenarios.

Import FatigueDetection Base64 App Observe Samples.

Definition setup : list Event := [ModelsLoaded; MediaGranted].

(** The driver leaves the picture: after 26 samples an emergency is on. *)
Definition unanswered : list Event := setup ++ ticks (repeat noFaceSample 26).

(** Nobody answers for fifteen seconds. *)
Definition expired : list Event := unanswered ++ repeat (TimerFire 1) 15.

(** The driver closes the eyes and is engaged in a conversation. *)
Definition conversation : list Event := setup ++ ticks (repeat closedSample 11).

(** The same after an emergency that expired. *)
Definition conversationAfterExpiry : list Event :=
  expired ++ ticks [openSample] ++ ticks (repeat closedSample 11).

Definition home : Location := mkLocation 12.5 77.5.

(** The tools of the component, with a Maps query that always fails and an
    identity URI encoding, and the position the handlers see. *)
Definition offline : string -> Location -> result string :=
  fun _ _ => Throw (HandlerError "offline").

Definition plain : string -> result string := fun t => Ok t.

(** Pieces of a turn, as they arrive. *)
Definition greeting : list (option string * option string) :=
  [(Some "Good ", None); (Some "morning ", Some "Hi"); (None, Some " there! ")]%string.

End Scenarios.

(** * Properties *)

(** ** The eye aspect ratio *)

Section EyeAspectRatio.

Import FatigueDetection Observe Samples.

(** On a list of at least six points the function is the formula on the
    first six; on a shorter one the first missing point is read as
    [undefined] and its coordinate access throws. *)
Lemma getEyeAspectRatio_six {A} `{Arith A} (p1 p2 p3 p4 p5 p6 : Point A) rest :
  getEyeAspectRatio (p1 :: p2 :: p3 :: p4 :: p5 :: p6 :: rest) =
  Ok (div (add (sqrt (add (square (sub (x p2) (x p6))) (square (sub (y p2) (y p6)))))
               (sqrt (add (square (sub (x p3) (x p5))) (square (sub (y p3) (y p5))))))
          (mul two (sqrt (add (square (sub (x p1) (x p4))) (square (sub (y p1) (y p4))))))).
Proof. reflexivity. Qed.

Lemma getEyeAspectRatio_short {A} `{Arith A} (l : list (Point A)) :
  (List.length l < 6)%nat -> getEyeAspectRatio l = Throw TypeError.
Proof.
  intros Hlen.
  do 6 (destruct l as [|? l]; [reflexivity|]).
  simpl in Hlen. lia.
Qed.

Lemma getEyeAspectRatio_firstn {A} `{Arith A} (l : list (Point A)) :
  (6 <= List.length l)%nat ->
  getEyeAspectRatio l = getEyeAspectRatio (firstn 6 l)
  /\ isOk (getEyeAspectRatio l) = true.
Proof.
  intros Hlen.
  do 6 (destruct l as [|? l]; [simpl in Hlen; lia|]).
  split; reflexivity.
Qed.

Lemma getEuclideanDistance_R (p q : Point R) :
  getEuclideanDistance (Some p) (Some q) = Ok (distR p q).
Proof. reflexivity. Qed.




Lemma EAR_as_distances (p1 p2 p3 p4 p5 p6 : Point R) rest :
  getEyeAspectRatio (p1 :: p2 :: p3 :: p4 :: p5 :: p6 :: rest) =
  Ok ((distR p2 p6 + distR p3 p5) / (2 * distR p1 p4))%R.
Proof. reflexivity. Qed.




(** The binary64 instance follows the exact one up to rounding: scaling a
    landmark set in pixel coordinates by 3 changes the last bit of the
    ratio. *)
Remark getEyeAspectRatio_rounding_binary64 :
  exists a b,
    getEyeAspectRatio pixelEye = Ok a
    /\ getEyeAspectRatio (map (scale 3%float) pixelEye) = Ok b
    /\ PrimFloat.eqb a b = false
    /\ PrimFloat.eqb b (PrimFloat.next_down a) = true.
Proof.
  eexists _, _. split; [reflexivity|split; [reflexivity|]].
  vm_compute. split; reflexivity.
Qed.

End EyeAspectRatio.

(** ** Renders and effects *)

Section Rendering.

Import App Observe.

Lemma DriverState_beq_refl d : DriverState_beq d d = true.
Proof. destruct d; reflexivity. Qed.

Lemma MiraState_beq_refl m : MiraState_beq m m = true.
Proof. destruct m; reflexivity. Qed.

Lemma sameDeps_refl s : sameDeps s s.
Proof. repeat split. Qed.

Lemma runEffects_sameDeps prev cur : sameDeps prev cur -> runEffects prev cur = cur.
Proof.
  intros (Hd & Hm & He & Hp & Hc & Hl).
  unfold runEffects, escalationDepsChanged, expiryDepsChanged.
  rewrite Hd, Hm, He, Hp, Hc, Hl.
  rewrite DriverState_beq_refl, MiraState_beq_refl, !Bool.eqb_reflx,
    Z.eqb_refl, Nat.eqb_refl.
  reflexivity.
Qed.

Lemma commit_settled n s : commit n s s = s.
Proof.
  induction n as [|n IH]; cbn [commit]; [reflexivity|].
  rewrite runEffects_sameDeps by apply sameDeps_refl. exact IH.
Qed.

(** A callback that leaves the dependencies of the effects alone causes no
    effect to run. *)
Lemma render_sameDeps prev cur : sameDeps prev cur -> render prev cur = cur.
Proof.
  intros H. unfold render.
  change (commit 3 prev cur) with (commit 2 cur (runEffects prev cur)).
  rewrite (runEffects_sameDeps _ _ H). apply commit_settled.
Qed.

Lemma startLiveSession_deps snap acc :
  driverState (startLiveSession snap acc) = driverState acc
  /\ isEmergency (startLiveSession snap acc) = isEmergency acc
  /\ permissionsGranted (startLiveSession snap acc) = permissionsGranted acc
  /\ emergencyCountdown (startLiveSession snap acc) = emergencyCountdown acc
  /\ locationVersion (startLiveSession snap acc) = locationVersion acc.
Proof.
  unfold startLiveSession.
  destruct (negb (permissionsGranted snap) || negb (aiRef acc));
    [repeat split|].
  destruct (DriverState_beq (driverState snap) DROWSY); repeat split.
Qed.

Lemma escalationEffect_deps snap acc :
  let r := escalationEffect snap acc in
  driverState r = (if drowsyIdle snap then ENGAGED else driverState acc)
  /\ isEmergency r = (if unresponsiveNew snap then true else isEmergency acc)
  /\ permissionsGranted r = permissionsGranted acc
  /\ emergencyCountdown r = (if unresponsiveNew snap then 15%Z else emergencyCountdown acc)
  /\ locationVersion r = locationVersion acc
  /\ (drowsyIdle snap = false -> miraState r = miraState acc).
Proof.
  unfold escalationEffect, drowsyIdle, unresponsiveNew.
  destruct (startLiveSession_deps snap acc) as (H1 & H2 & H3 & H4 & H5).
  destruct (DriverState_beq (driverState snap) DROWSY && MiraState_beq (miraState snap) IDLE) eqn:Ha;
  destruct (DriverState_beq (driverState snap) UNRESPONSIVE && negb (isEmergency snap)) eqn:Hb;
  cbv zeta; unfold startEmergencyTimer;
  repeat match goal with
  | |- context [if sessionPromiseRef ?t then _ else _] =>
      destruct (sessionPromiseRef t)
  end; simpl; rewrite ?H1, ?H2, ?H3, ?H4, ?H5; repeat split; try discriminate.
Qed.

Lemma clearEmergencyTimer_deps acc :
  driverState (clearEmergencyTimer acc) = driverState acc
  /\ miraState (clearEmergencyTimer acc) = miraState acc
  /\ isEmergency (clearEmergencyTimer acc) = isEmergency acc
  /\ permissionsGranted (clearEmergencyTimer acc) = permissionsGranted acc
  /\ emergencyCountdown (clearEmergencyTimer acc) = emergencyCountdown acc
  /\ locationVersion (clearEmergencyTimer acc) = locationVersion acc.
Proof.
  unfold clearEmergencyTimer. destruct (emergencyTimerRef acc); repeat split.
Qed.

Lemma expiryEffect_deps snap acc :
  let r := expiryEffect snap acc in
  let expired := (emergencyCountdown snap <=? 0)%Z in
  driverState r = (if expired then MONITORING else driverState acc)
  /\ miraState r = miraState acc
  /\ isEmergency r = (if expired then false else isEmergency acc)
  /\ permissionsGranted r = permissionsGranted acc
  /\ emergencyCountdown r = emergencyCountdown acc
  /\ locationVersion r = locationVersion acc.
Proof.
  unfold expiryEffect.
  destruct (clearEmergencyTimer_deps acc) as (H1 & H2 & H3 & H4 & H5 & H6).
  destruct (emergencyCountdown snap <=? 0)%Z; simpl;
    rewrite ?H1, ?H2, ?H3, ?H4, ?H5, ?H6; repeat split.
Qed.

Lemma escalationEffect_skip snap acc :
  drowsyIdle snap = false -> unresponsiveNew snap = false ->
  escalationEffect snap acc = acc.
Proof.
  unfold escalationEffect, drowsyIdle, unresponsiveNew.
  now intros -> ->.
Qed.

Lemma expiryEffect_skip snap acc :
  (emergencyCountdown snap <=? 0)%Z = false -> expiryEffect snap acc = acc.
Proof. unfold expiryEffect. now intros ->. Qed.

(** The dependencies after one round of effects. *)
Lemma runEffects_deps prev cur :
  let r := runEffects prev cur in
  let d1 := escalationDepsChanged prev cur in
  let d2 := expiryDepsChanged prev cur && (emergencyCountdown cur <=? 0)%Z in
  driverState r =
    (if d2 then MONITORING
     else if d1 && drowsyIdle cur then ENGAGED else driverState cur)
  /\ isEmergency r =
    (if d2 then false
     else if d1 && unresponsiveNew cur then true else isEmergency cur)
  /\ permissionsGranted r = permissionsGranted cur
  /\ emergencyCountdown r =
    (if d1 && unresponsiveNew cur then 15%Z else emergencyCountdown cur)
  /\ locationVersion r = locationVersion cur
  /\ (d1 && drowsyIdle cur = false -> miraState r = miraState cur).
Proof.
  unfold runEffects.
  destruct (escalationDepsChanged prev cur);
  destruct (expiryDepsChanged prev cur); cbn [andb].
  - destruct (expiryEffect_deps cur (escalationEffect cur cur))
      as (H1 & H2 & H3 & H4 & H5 & H6).
    destruct (escalationEffect_deps cur cur) as (G1 & G2 & G3 & G4 & G5 & G6).
    cbv zeta in *. rewrite H1, H2, H3, H4, H5, H6, G1, G2, G3, G4, G5.
    repeat split; auto.
  - destruct (escalationEffect_deps cur cur) as (G1 & G2 & G3 & G4 & G5 & G6).
    cbv zeta in *. rewrite G1, G2, G3, G4, G5. repeat split; auto.
  - destruct (expiryEffect_deps cur cur) as (H1 & H2 & H3 & H4 & H5 & H6).
    cbv zeta in *. rewrite H1, H2, H3, H4, H5, H6. repeat split; auto.
  - repeat split.
Qed.

(** After one round of effects nothing is left to run. *)
Lemma runEffects_idem prev cur :
  runEffects cur (runEffects prev cur) = runEffects prev cur.
Proof.
  destruct (runEffects_deps prev cur) as (Hd & He & Hp & Hc & Hl & Hm).
  cbv zeta in *.
  set (r := runEffects prev cur) in *.
  set (d1 := escalationDepsChanged prev cur) in *.
  set (d2 := expiryDepsChanged prev cur && (emergencyCountdown cur <=? 0)%Z) in *.
  assert (H1 : escalationDepsChanged cur r = true ->
               drowsyIdle r = false /\ unresponsiveNew r = false).
  { unfold escalationDepsChanged, drowsyIdle, unresponsiveNew.
    rewrite Hd, He, Hp.
    destruct d2.
    - intros _. split; reflexivity.
    - unfold drowsyIdle, unresponsiveNew in *.
      destruct d1; cbn [andb] in *.
      + destruct (driverState cur), (miraState cur), (isEmergency cur);
          cbn in *; try rewrite Hm by reflexivity; cbn; intros H;
          try discriminate H; split; reflexivity.
      + rewrite Hm by reflexivity.
        rewrite DriverState_beq_refl, MiraState_beq_refl, !Bool.eqb_reflx.
        discriminate. }
  assert (H2 : expiryDepsChanged cur r = true ->
               (emergencyCountdown r <=? 0)%Z = false).
  { unfold expiryDepsChanged. rewrite Hc, Hl, Nat.eqb_refl.
    destruct (d1 && unresponsiveNew cur).
    - reflexivity.
    - rewrite Z.eqb_refl. discriminate. }
  unfold runEffects at 1.
  destruct (escalationDepsChanged cur r).
  - destruct H1 as [Ha Hb]; [reflexivity|].
    rewrite (escalationEffect_skip _ _ Ha Hb).
    destruct (expiryDepsChanged cur r); [|reflexivity].
    now rewrite expiryEffect_skip by now apply H2.
  - destruct (expiryDepsChanged cur r); [|reflexivity].
    now rewrite expiryEffect_skip by now apply H2.
Qed.

(** Hence the renders an event causes amount to one round of effects. *)
Lemma render_runEffects prev cur : render prev cur = runEffects prev cur.
Proof.
  unfold render. cbn [commit]. now rewrite !runEffects_idem.
Qed.

Lemma startLiveSession_actions snap acc :
  actions (startLiveSession snap acc) = actions acc ++ sessionActions snap acc.
Proof.
  unfold startLiveSession, sessionActions.
  destruct (negb (permissionsGranted snap) || negb (aiRef acc)).
  - now rewrite app_nil_r.
  - destruct (DriverState_beq (driverState snap) DROWSY); simpl;
      now rewrite <- ?app_assoc.
Qed.

Lemma runEffects_driver prev cur :
  driverState prev <> driverState cur ->
  onlyDriverChanged prev cur ->
  runEffects prev cur = escalationEffect cur cur.
Proof.
  intros Hne (Hm & He & Hp & Hc & Hl).
  unfold runEffects, escalationDepsChanged, expiryDepsChanged.
  rewrite Hc, Hl, Z.eqb_refl, Nat.eqb_refl. cbn [negb orb].
  destruct (DriverState_beq (driverState prev) (driverState cur)) eqn:E;
    [|reflexivity].
  exfalso. apply Hne.
  destruct (driverState prev), (driverState cur); (reflexivity || discriminate E).
Qed.

Lemma escalationEffect_drowsy cur :
  driverState cur = DROWSY ->
  escalationEffect cur cur =
  if MiraState_beq (miraState cur) IDLE
  then set_driverState ENGAGED (startLiveSession cur cur)
  else cur.
Proof.
  intros Hd. unfold escalationEffect. rewrite Hd. cbn.
  destruct (MiraState_beq (miraState cur) IDLE); reflexivity.
Qed.

Lemma escalationEffect_unresponsive cur :
  driverState cur = UNRESPONSIVE ->
  escalationEffect cur cur = if isEmergency cur then cur else beginEmergency cur.
Proof.
  intros Hd. unfold escalationEffect, beginEmergency. rewrite Hd. cbn.
  destruct (isEmergency cur); reflexivity.
Qed.

Lemma beginEmergency_actions acc :
  actions (beginEmergency acc) =
  actions acc ++ (if sessionPromiseRef acc then [SendText promptUnresponsive] else []).
Proof.
  unfold beginEmergency, startEmergencyTimer. cbn.
  destruct (sessionPromiseRef acc); cbn; [reflexivity|now rewrite app_nil_r].
Qed.

(** The effects never touch the frame counters. *)
Lemma escalationEffect_counters snap acc :
  eyeClosedFramesRef (escalationEffect snap acc) = eyeClosedFramesRef acc
  /\ noFaceFramesRef (escalationEffect snap acc) = noFaceFramesRef acc.
Proof.
  unfold escalationEffect, startLiveSession, startEmergencyTimer.
  repeat match goal with
  | |- context [if ?b then _ else _] => destruct b
  end; split; reflexivity.
Qed.

Lemma expiryEffect_counters snap acc :
  eyeClosedFramesRef (expiryEffect snap acc) = eyeClosedFramesRef acc
  /\ noFaceFramesRef (expiryEffect snap acc) = noFaceFramesRef acc.
Proof.
  unfold expiryEffect, clearEmergencyTimer.
  destruct (emergencyCountdown snap <=? 0)%Z; [|split; reflexivity].
  destruct (emergencyTimerRef acc); split; reflexivity.
Qed.

Lemma runEffects_counters prev cur :
  eyeClosedFramesRef (runEffects prev cur) = eyeClosedFramesRef cur
  /\ noFaceFramesRef (runEffects prev cur) = noFaceFramesRef cur.
Proof.
  unfold runEffects.
  destruct (escalationDepsChanged prev cur), (expiryDepsChanged prev cur);
    rewrite ?(proj1 (expiryEffect_counters _ _)), ?(proj2 (expiryEffect_counters _ _)),
      ?(proj1 (escalationEffect_counters _ _)), ?(proj2 (escalationEffect_counters _ _));
    split; reflexivity.
Qed.

End Rendering.

(** ** The fatigue debouncer *)

Section Debouncer.

Import FatigueDetection App Observe.

Variable registry : string -> option Handler.

Ltac js_unfold :=
  unfold exec, detectionCallback, bind, modify, get, ret, when, liftResult.

(** The callback on a sample with a face whose ratios can be computed. *)
Lemma detectionCallback_ear s d ear :
  sampleEAR d = Ok ear ->
  exec (detectionCallback (mkInput true (Some d))) s =
  let closed :=
    if (ear <? EAR_THRESHOLD)%float then S (eyeClosedFramesRef s) else 0%nat in
  let s1 := withCounters closed 0 s in
  if (CONSECUTIVE_FRAMES_DROWSY <? closed)%nat
  then set_driverState DROWSY (push (ConsoleLog msgDrowsy) s1)
  else s1.
Proof.
  unfold sampleEAR. js_unfold. cbn [videoPlaying detections].
  destruct (getEyeAspectRatio (leftEye d)) as [l|]; cbn [rbind]; try discriminate.
  destruct (getEyeAspectRatio (rightEye d)) as [r|]; cbn [rbind]; try discriminate.
  intros [= <-]. cbv beta iota zeta.
  destruct ((l + r) / 2 <? EAR_THRESHOLD)%float; cbn [fst snd].
  - destruct (CONSECUTIVE_FRAMES_DROWSY <? S (eyeClosedFramesRef s))%nat eqn:E;
      cbn in E |- *; rewrite E; reflexivity.
  - reflexivity.
Qed.

Lemma closedEyes_ear inp :
  closedEyes inp = true ->
  exists d ear,
    inp = mkInput true (Some d) /\ sampleEAR d = Ok ear
    /\ (ear <? EAR_THRESHOLD)%float = true.
Proof.
  unfold closedEyes.
  destruct inp as [[|] [d|]]; cbn [videoPlaying detections andb]; try discriminate.
  destruct (sampleEAR d) as [ear|] eqn:E; [|discriminate].
  intros H. exists d, ear. repeat split; assumption.
Qed.

Lemma detectionCallback_closed s inp :
  closedEyes inp = true ->
  exec (detectionCallback inp) s =
  let s1 := set_eyeClosedFramesRef (S (eyeClosedFramesRef s)) (set_noFaceFramesRef 0 s) in
  if (CONSECUTIVE_FRAMES_DROWSY <? S (eyeClosedFramesRef s))%nat
  then set_driverState DROWSY (push (ConsoleLog msgDrowsy) s1)
  else s1.
Proof.
  intros H. destruct (closedEyes_ear inp H) as (d & ear & -> & Hear & Hlt).
  rewrite (detectionCallback_ear s d ear Hear). cbv zeta. now rewrite Hlt.
Qed.

Lemma detectionCallback_noFace s inp :
  noFace inp = true ->
  exec (detectionCallback inp) s =
  let s1 := set_noFaceFramesRef (S (noFaceFramesRef s)) s in
  if (CONSECUTIVE_FRAMES_UNRESPONSIVE <? S (noFaceFramesRef s))%nat
  then set_driverState UNRESPONSIVE (push (ConsoleLog msgUnresponsive) s1)
  else s1.
Proof.
  unfold noFace. js_unfold.
  destruct inp as [playing [d|]]; cbn [videoPlaying detections];
    destruct playing; cbn [andb]; try discriminate.
  intros _. cbn.
  destruct (CONSECUTIVE_FRAMES_UNRESPONSIVE <? S (noFaceFramesRef s))%nat eqn:E;
    cbn in E |- *; rewrite E; reflexivity.
Qed.

Lemma withCounters_same s :
  withCounters (eyeClosedFramesRef s) (noFaceFramesRef s) s = s.
Proof. destruct s; reflexivity. Qed.

Lemma withCounters_twice c m c' m' s :
  withCounters c' m' (withCounters c m s) = withCounters c' m' s.
Proof. destruct s; reflexivity. Qed.

Lemma step_closed_below s inp :
  detectionActive s = true -> closedEyes inp = true ->
  (eyeClosedFramesRef s < CONSECUTIVE_FRAMES_DROWSY)%nat ->
  step registry (DetectionTick inp) s = withCounters (S (eyeClosedFramesRef s)) 0 s.
Proof.
  intros Hact Hclosed Hlt.
  unfold step, enabled. rewrite Hact. unfold handle.
  rewrite (detectionCallback_closed s inp Hclosed). cbv zeta.
  replace (CONSECUTIVE_FRAMES_DROWSY <? S (eyeClosedFramesRef s))%nat with false
    by (symmetry; apply Nat.ltb_ge; lia).
  apply render_sameDeps. repeat split.
Qed.

Lemma step_noFace_below s inp :
  detectionActive s = true -> noFace inp = true ->
  (noFaceFramesRef s < CONSECUTIVE_FRAMES_UNRESPONSIVE)%nat ->
  step registry (DetectionTick inp) s =
  withCounters (eyeClosedFramesRef s) (S (noFaceFramesRef s)) s.
Proof.
  intros Hact Hno Hlt.
  unfold step, enabled. rewrite Hact. unfold handle.
  rewrite (detectionCallback_noFace s inp Hno). cbv zeta.
  replace (CONSECUTIVE_FRAMES_UNRESPONSIVE <? S (noFaceFramesRef s))%nat with false
    by (symmetry; apply Nat.ltb_ge; lia).
  rewrite render_sameDeps by (repeat split).
  destruct s; reflexivity.
Qed.

(** [n] closed-eye samples that keep the counter at or below the
    threshold only count. *)
Lemma run_closed samples : forall s,
  detectionActive s = true ->
  Forall (fun inp => closedEyes inp = true) samples ->
  (eyeClosedFramesRef s + List.length samples <= CONSECUTIVE_FRAMES_DROWSY)%nat ->
  run registry (ticks samples) s =
  withCounters (eyeClosedFramesRef s + List.length samples)
    (match samples with [] => noFaceFramesRef s | _ => 0 end) s.
Proof.
  induction samples as [|inp rest IH]; intros s Hact Hall Hlen.
  - simpl. now rewrite Nat.add_0_r, withCounters_same.
  - inversion Hall as [|? ? Hinp Hrest]; subst.
    simpl in Hlen. cbn [ticks map run fold_left].
    rewrite step_closed_below by (assumption || lia).
    change (fold_left _ (map DetectionTick rest) ?x) with (run registry (ticks rest) x).
    rewrite IH; [|exact Hact|exact Hrest|simpl; lia].
    rewrite withCounters_twice. cbn [List.length].
    replace (eyeClosedFramesRef (withCounters (S (eyeClosedFramesRef s)) 0 s)
             + List.length rest)%nat
      with (eyeClosedFramesRef s + S (List.length rest))%nat
      by (simpl; lia).
    destruct rest; reflexivity.
Qed.

Lemma run_noFace samples : forall s,
  detectionActive s = true ->
  Forall (fun inp => noFace inp = true) samples ->
  (noFaceFramesRef s + List.length samples <= CONSECUTIVE_FRAMES_UNRESPONSIVE)%nat ->
  run registry (ticks samples) s =
  withCounters (eyeClosedFramesRef s) (noFaceFramesRef s + List.length samples) s.
Proof.
  induction samples as [|inp rest IH]; intros s Hact Hall Hlen.
  - simpl. now rewrite Nat.add_0_r, withCounters_same.
  - inversion Hall as [|? ? Hinp Hrest]; subst.
    simpl in Hlen. cbn [ticks map run fold_left].
    rewrite step_noFace_below by (assumption || lia).
    change (fold_left _ (map DetectionTick rest) ?x) with (run registry (ticks rest) x).
    rewrite IH; [|exact Hact|exact Hrest|simpl; lia].
    rewrite withCounters_twice. cbn [List.length].
    f_equal. simpl. lia.
Qed.

(** The sample that takes a counter over its threshold. *)
Lemma step_closed_fire s inp :
  detectionActive s = true -> closedEyes inp = true ->
  (CONSECUTIVE_FRAMES_DROWSY <= eyeClosedFramesRef s)%nat ->
  let requested :=
    set_driverState DROWSY
      (push (ConsoleLog msgDrowsy) (withCounters (S (eyeClosedFramesRef s)) 0 s)) in
  handle registry (DetectionTick inp) s = requested
  /\ step registry (DetectionTick inp) s =
     if MiraState_beq (miraState s) IDLE
     then set_driverState ENGAGED (startLiveSession requested requested)
     else requested.
Proof.
  intros Hact Hclosed Hge requested.
  assert (Hh : handle registry (DetectionTick inp) s = requested).
  { unfold handle. rewrite (detectionCallback_closed s inp Hclosed). cbv zeta.
    replace (CONSECUTIVE_FRAMES_DROWSY <? S (eyeClosedFramesRef s))%nat with true
      by (symmetry; apply Nat.ltb_lt; lia).
    reflexivity. }
  split; [exact Hh|].
  unfold step, enabled. rewrite Hact, Hh, render_runEffects.
  unfold detectionActive in Hact.
  apply andb_prop in Hact. destruct Hact as [_ Hmon].
  assert (Hd : driverState s = MONITORING)
    by (destruct (driverState s); (reflexivity || discriminate Hmon)).
  rewrite runEffects_driver.
  - now rewrite escalationEffect_drowsy.
  - rewrite Hd. discriminate.
  - repeat split.
Qed.

Lemma step_noFace_fire s inp :
  detectionActive s = true -> noFace inp = true ->
  (CONSECUTIVE_FRAMES_UNRESPONSIVE <= noFaceFramesRef s)%nat ->
  let requested :=
    set_driverState UNRESPONSIVE
      (push (ConsoleLog msgUnresponsive)
         (withCounters (eyeClosedFramesRef s) (S (noFaceFramesRef s)) s)) in
  handle registry (DetectionTick inp) s = requested
  /\ step registry (DetectionTick inp) s =
     if isEmergency s then requested else beginEmergency requested.
Proof.
  intros Hact Hno Hge requested.
  assert (Hh : handle registry (DetectionTick inp) s = requested).
  { unfold handle. rewrite (detectionCallback_noFace s inp Hno). cbv zeta.
    replace (CONSECUTIVE_FRAMES_UNRESPONSIVE <? S (noFaceFramesRef s))%nat with true
      by (symmetry; apply Nat.ltb_lt; lia).
    destruct s; reflexivity. }
  split; [exact Hh|].
  unfold step, enabled. rewrite Hact, Hh, render_runEffects.
  unfold detectionActive in Hact.
  apply andb_prop in Hact. destruct Hact as [_ Hmon].
  assert (Hd : driverState s = MONITORING)
    by (destruct (driverState s); (reflexivity || discriminate Hmon)).
  rewrite runEffects_driver.
  - now rewrite escalationEffect_unresponsive.
  - rewrite Hd. discriminate.
  - repeat split.
Qed.

Lemma run_app evs1 evs2 s :
  run registry (evs1 ++ evs2) s = run registry evs2 (run registry evs1 s).
Proof. unfold run. apply fold_left_app. Qed.

Lemma Forall_firstn_true {A} (P : A -> bool) k l :
  Forall (fun a => P a = true) l -> Forall (fun a => P a = true) (firstn k l).
Proof.
  intros H. revert k. induction H as [|a l Ha Hl IH]; intros [|k]; simpl;
    constructor; auto.
Qed.

Lemma split_last_sample (samples : list DetectionInput) n d :
  List.length samples = S n ->
  samples = firstn n samples ++ [nth n samples d].
Proof.
  revert samples. induction n as [|n IH]; intros [|a [|b l]] H;
    try discriminate H; try reflexivity.
  cbn [firstn nth app]. f_equal. apply IH. simpl in *. lia.
Qed.

Lemma detectionActive_driver s : detectionActive s = true -> driverState s = MONITORING.
Proof.
  unfold detectionActive. intros H.
  apply andb_prop in H. destruct H as [_ H].
  destruct (driverState s); (reflexivity || discriminate H).
Qed.

Lemma drowsyRequests_session req :
  drowsyRequests (set_driverState ENGAGED (startLiveSession req req))
  = drowsyRequests req.
Proof.
  unfold drowsyRequests. cbn [actions set_driverState].
  rewrite startLiveSession_actions, filter_app, length_app.
  unfold sessionActions.
  destruct (negb (permissionsGranted req) || negb (aiRef req)); simpl.
  - lia.
  - destruct (DriverState_beq (driverState req) DROWSY); simpl; lia.
Qed.

(** C3. Eleven consecutive samples with a face and an averaged eye aspect
    ratio below 0.25, taken while monitoring with the closed-eye counter at
    zero: after each of the first ten no drowsiness request has been made
    (the counter equals the number of samples and the driver state is still
    MONITORING); the eleventh makes the request, once: its callback sets
    the driver state to DROWSY, the counter having reached 11 > 10. *)
Theorem drowsy_request_at_eleventh_sample
    (s : AppState) (samples : list DetectionInput) (d : DetectionInput) :
  detectionActive s = true ->
  eyeClosedFramesRef s = 0%nat ->
  List.length samples = 11%nat ->
  Forall (fun inp => closedEyes inp = true) samples ->
  (forall k, (k <= 10)%nat ->
     let sk := run registry (ticks (firstn k samples)) s in
     drowsyRequests sk = drowsyRequests s
     /\ driverState sk = MONITORING
     /\ eyeClosedFramesRef sk = k)
  /\ (let s10 := run registry (ticks (firstn 10 samples)) s in
      driverState (handle registry (DetectionTick (nth 10 samples d)) s10) = DROWSY)
  /\ drowsyRequests (run registry (ticks samples) s) = S (drowsyRequests s).
Proof.
  intros Hact Hzero Hlen Hall.
  assert (Hrun : forall k, (k <= 10)%nat ->
            run registry (ticks (firstn k samples)) s =
            withCounters k (match firstn k samples with
                            | [] => noFaceFramesRef s | _ => 0%nat end) s).
  { intros k Hk.
    rewrite run_closed; try assumption.
    - rewrite Hzero, length_firstn, Hlen. f_equal. lia.
    - now apply Forall_firstn_true.
    - rewrite Hzero, length_firstn, Hlen.
      unfold CONSECUTIVE_FRAMES_DROWSY. lia. }
  split; [|split].
  - intros k Hk sk. subst sk. rewrite (Hrun k Hk).
    repeat split. cbn. now apply detectionActive_driver.
  - intros s10. subst s10. rewrite (Hrun 10%nat) by lia.
    set (s10 := withCounters 10 _ s).
    destruct (step_closed_fire s10 (nth 10 samples d)) as [Hh _].
    + exact Hact.
    + pose proof (proj1 (Forall_forall _ _) Hall) as Hin.
      apply Hin, nth_In. lia.
    + cbn. unfold CONSECUTIVE_FRAMES_DROWSY. lia.
    + rewrite Hh. reflexivity.
  - rewrite (split_last_sample samples 10 d Hlen).
    unfold ticks. rewrite map_app, run_app.
    change (map DetectionTick (firstn 10 samples)) with (ticks (firstn 10 samples)).
    rewrite (Hrun 10%nat) by lia.
    set (s10 := withCounters 10 _ s).
    destruct (step_closed_fire s10 (nth 10 samples d)) as [_ Hstep].
    + exact Hact.
    + pose proof (proj1 (Forall_forall _ _) Hall) as Hin.
      apply Hin, nth_In. lia.
    + cbn. unfold CONSECUTIVE_FRAMES_DROWSY. lia.
    + cbn [map run fold_left]. rewrite Hstep.
      destruct (MiraState_beq (miraState s10) IDLE).
      * rewrite drowsyRequests_session.
        unfold drowsyRequests. cbn. rewrite filter_app, length_app. simpl. lia.
      * unfold drowsyRequests. cbn. rewrite filter_app, length_app. simpl. lia.
Qed.

(** A sample with a face resets the no-face counter before anything
    else, so also when an eye aspect ratio cannot be computed. *)
Lemma detectionCallback_faceFound s inp :
  faceFound inp = true ->
  noFaceFramesRef (exec (detectionCallback inp) s) = 0%nat.
Proof.
  unfold faceFound. js_unfold.
  destruct inp as [playing [d|]]; cbn [videoPlaying detections];
    destruct playing; cbn [andb]; try discriminate.
  intros _.
  destruct (getEyeAspectRatio (leftEye d)) as [l|]; [|reflexivity].
  destruct (getEyeAspectRatio (rightEye d)) as [r|]; [|reflexivity].
  cbn.
  repeat match goal with
  | |- context [if ?b then _ else _] => destruct b; cbn
  end; reflexivity.
Qed.

Lemma unresponsiveRequests_begin req :
  unresponsiveRequests (beginEmergency req) = unresponsiveRequests req.
Proof.
  unfold unresponsiveRequests.
  rewrite beginEmergency_actions, filter_app, length_app.
  destruct (sessionPromiseRef req); simpl; lia.
Qed.

(** C4. Twenty-six consecutive samples without a face, taken while
    monitoring with the no-face counter at zero: after each of the first
    twenty-five no unresponsiveness request has been made and the counter
    equals the number of samples; the twenty-sixth makes the request
    (26 > 25).  None of these samples changes the closed-eye counter, and
    so for every sample without a face; every sample with a face sets the
    no-face counter to 0. *)
Theorem unresponsive_request_at_26th_sample
    (s : AppState) (samples : list DetectionInput) (d : DetectionInput) :
  detectionActive s = true ->
  noFaceFramesRef s = 0%nat ->
  List.length samples = 26%nat ->
  Forall (fun inp => noFace inp = true) samples ->
  (forall k, (k <= 25)%nat ->
     let sk := run registry (ticks (firstn k samples)) s in
     unresponsiveRequests sk = unresponsiveRequests s
     /\ driverState sk = MONITORING
     /\ noFaceFramesRef sk = k
     /\ eyeClosedFramesRef sk = eyeClosedFramesRef s)
  /\ (let s25 := run registry (ticks (firstn 25 samples)) s in
      driverState (handle registry (DetectionTick (nth 25 samples d)) s25) = UNRESPONSIVE)
  /\ unresponsiveRequests (run registry (ticks samples) s) = S (unresponsiveRequests s)
  /\ eyeClosedFramesRef (run registry (ticks samples) s) = eyeClosedFramesRef s
  /\ (forall s' inp, detectionActive s' = true -> faceFound inp = true ->
        noFaceFramesRef (step registry (DetectionTick inp) s') = 0%nat)
  /\ (forall s' inp, detectionActive s' = true -> noFace inp = true ->
        eyeClosedFramesRef (step registry (DetectionTick inp) s') = eyeClosedFramesRef s').
Proof.
  intros Hact Hzero Hlen Hall.
  assert (Hrun : forall k, (k <= 25)%nat ->
            run registry (ticks (firstn k samples)) s =
            withCounters (eyeClosedFramesRef s) k s).
  { intros k Hk.
    rewrite run_noFace; try assumption.
    - rewrite Hzero, length_firstn, Hlen. f_equal. lia.
    - now apply Forall_firstn_true.
    - rewrite Hzero, length_firstn, Hlen.
      unfold CONSECUTIVE_FRAMES_UNRESPONSIVE. lia. }
  assert (Hlast : noFace (nth 25 samples d) = true).
  { pose proof (proj1 (Forall_forall _ _) Hall) as Hin.
    apply Hin, nth_In. lia. }
  assert (Hstep : step registry (DetectionTick (nth 25 samples d))
                    (withCounters (eyeClosedFramesRef s) 25 s) =
                  if isEmergency s
                  then set_driverState UNRESPONSIVE
                         (push (ConsoleLog msgUnresponsive)
                            (withCounters (eyeClosedFramesRef s) 26 s))
                  else beginEmergency
                         (set_driverState UNRESPONSIVE
                            (push (ConsoleLog msgUnresponsive)
                               (withCounters (eyeClosedFramesRef s) 26 s)))).
  { destruct (step_noFace_fire (withCounters (eyeClosedFramesRef s) 25 s)
                (nth 25 samples d)) as [_ Hs].
    - exact Hact.
    - exact Hlast.
    - cbn. unfold CONSECUTIVE_FRAMES_UNRESPONSIVE. lia.
    - rewrite Hs. cbn [isEmergency withCounters set_eyeClosedFramesRef
                       set_noFaceFramesRef eyeClosedFramesRef noFaceFramesRef].
      rewrite !withCounters_twice. reflexivity. }
  assert (Hfull : run registry (ticks samples) s =
                  step registry (DetectionTick (nth 25 samples d))
                    (withCounters (eyeClosedFramesRef s) 25 s)).
  { rewrite (split_last_sample samples 25 d Hlen) at 1.
    unfold ticks. rewrite map_app, run_app.
    change (map DetectionTick (firstn 25 samples)) with (ticks (firstn 25 samples)).
    rewrite (Hrun 25%nat) by lia. reflexivity. }
  repeat apply conj.
  - intros k Hk sk. subst sk. rewrite (Hrun k Hk).
    repeat split. cbn. now apply detectionActive_driver.
  - intros s25. subst s25. rewrite (Hrun 25%nat) by lia.
    destruct (step_noFace_fire (withCounters (eyeClosedFramesRef s) 25 s)
                (nth 25 samples d)) as [Hh _].
    + exact Hact.
    + exact Hlast.
    + cbn. unfold CONSECUTIVE_FRAMES_UNRESPONSIVE. lia.
    + rewrite Hh. reflexivity.
  - rewrite Hfull, Hstep.
    destruct (isEmergency s).
    + unfold unresponsiveRequests. cbn. rewrite filter_app, length_app. simpl. lia.
    + rewrite unresponsiveRequests_begin.
      unfold unresponsiveRequests. cbn. rewrite filter_app, length_app. simpl. lia.
  - rewrite Hfull, Hstep.
    destruct (isEmergency s); [reflexivity|].
    unfold beginEmergency, startEmergencyTimer. cbn.
    destruct (sessionPromiseRef s); reflexivity.
  - intros s' inp Hact' Hface.
    unfold step, enabled. rewrite Hact', render_runEffects.
    rewrite (proj2 (runEffects_counters _ _)).
    unfold handle. now apply detectionCallback_faceFound.
  - intros s' inp Hact' Hno.
    unfold step, enabled. rewrite Hact', render_runEffects.
    rewrite (proj1 (runEffects_counters _ _)).
    unfold handle. rewrite (detectionCallback_noFace s' inp Hno). cbv zeta.
    destruct (CONSECUTIVE_FRAMES_UNRESPONSIVE <? S (noFaceFramesRef s'))%nat;
      reflexivity.
Qed.

End Debouncer.

Section DebouncerWitnesses.

Import App Observe Samples.

Example closedSample_is_closed : sampleEAR (mkDetections narrowEye narrowEye)
  = Ok (PrimFloat.div 1 6) /\ closedEyes closedSample = true.
Proof. split; reflexivity. Qed.

Example openSample_is_open : closedEyes openSample = false /\ faceFound openSample = true.
Proof. split; reflexivity. Qed.

Lemma drowsy_request_at_eleventh_sample_witness :
  detectionActive (monitoring true) = true
  /\ drowsyRequests (run noTools (ticks (repeat closedSample 10)) (monitoring true)) = 0%nat
  /\ drowsyRequests (run noTools (ticks (repeat closedSample 11)) (monitoring true)) = 1%nat.
Proof.
  split; [reflexivity|].
  destruct (drowsy_request_at_eleventh_sample noTools (monitoring true)
              (repeat closedSample 11) closedSample)
    as (Hfirst & _ & Hlast).
  - reflexivity.
  - reflexivity.
  - reflexivity.
  - repeat constructor.
  - split; [exact (proj1 (Hfirst 10%nat (le_n 10)))|exact Hlast].
Defined.

Lemma unresponsive_request_at_26th_sample_witness :
  detectionActive (monitoring true) = true
  /\ unresponsiveRequests (run noTools (ticks (repeat noFaceSample 25)) (monitoring true)) = 0%nat
  /\ unresponsiveRequests (run noTools (ticks (repeat noFaceSample 26)) (monitoring true)) = 1%nat.
Proof.
  split; [reflexivity|].
  destruct (unresponsive_request_at_26th_sample noTools (monitoring true)
              (repeat noFaceSample 26) noFaceSample)
    as (Hfirst & _ & Hlast & _).
  - reflexivity.
  - reflexivity.
  - reflexivity.
  - repeat constructor.
  - split; [exact (proj1 (Hfirst 25%nat (le_n 25)))|exact Hlast].
Defined.

End DebouncerWitnesses.

(** ** Landmark sets of the wrong length *)

Section WrongLength.

Import FatigueDetection App Observe Samples.

(** A tick whose left or right eye has fewer than six points: the
    callback throws after the no-face counter was reset. *)
Lemma detectionCallback_short s d :
  (List.length (leftEye d) < 6 \/ List.length (rightEye d) < 6)%nat ->
  exec (detectionCallback (mkInput true (Some d))) s = set_noFaceFramesRef 0 s.
Proof.
  intros H.
  unfold exec, detectionCallback, bind, modify, liftResult.
  cbn [videoPlaying detections].
  destruct (Nat.lt_ge_cases (List.length (leftEye d)) 6) as [Hl|Hl].
  - now rewrite (getEyeAspectRatio_short _ Hl).
  - destruct H as [H|H]; [lia|].
    destruct (getEyeAspectRatio (leftEye d)); [|reflexivity].
    now rewrite (getEyeAspectRatio_short _ H).
Qed.

(** C7 (as amended). There is no check of the length.  On fewer than six
    points [getEyeAspectRatio] throws a TypeError (a coordinate of
    [undefined] is read); on more than six it returns the ratio of the
    first six.  A detection tick in which it throws leaves the detection
    loop running: only the no-face counter has been reset. *)
Theorem getEyeAspectRatio_wrong_length (l : list (Point float)) :
  List.length l <> 6%nat ->
  (if (List.length l <? 6)%nat
   then getEyeAspectRatio l = Throw TypeError
   else getEyeAspectRatio l = getEyeAspectRatio (firstn 6 l)
        /\ isOk (getEyeAspectRatio l) = true)
  /\ ((List.length l < 6)%nat ->
      forall registry s d,
        detectionActive s = true ->
        leftEye d = l \/ rightEye d = l ->
        let s' := step registry (DetectionTick (mkInput true (Some d))) s in
        s' = set_noFaceFramesRef 0 s /\ detectionActive s' = true).
Proof.
  intros Hlen. split.
  - destruct (Nat.ltb_spec (List.length l) 6) as [H|H].
    + now apply getEyeAspectRatio_short.
    + apply getEyeAspectRatio_firstn. lia.
  - intros Hshort registry s d Hact Heye s'. subst s'.
    unfold step, enabled. rewrite Hact. unfold handle.
    rewrite detectionCallback_short
      by (destruct Heye as [-> | ->]; [left|right]; exact Hshort).
    rewrite render_sameDeps by (repeat split).
    split; [reflexivity|exact Hact].
Qed.

Lemma getEyeAspectRatio_wrong_length_witness :
  getEyeAspectRatio (firstn 5 pixelEye) = Throw TypeError
  /\ step Samples.noTools
       (DetectionTick (mkInput true (Some (mkDetections (firstn 5 pixelEye) pixelEye))))
       (Samples.monitoring true)
     = set_noFaceFramesRef 0 (Samples.monitoring true).
Proof.
  destruct (getEyeAspectRatio_wrong_length (firstn 5 pixelEye)) as [H1 H2].
  - discriminate.
  - split; [exact H1|].
    apply (H2 (le_n 6) Samples.noTools (Samples.monitoring true)
             (mkDetections (firstn 5 pixelEye) pixelEye) eq_refl (or_introl eq_refl)).
Defined.

(** Seven points are accepted: the result is the ratio of the first six. *)
Lemma getEyeAspectRatio_accepts_seven_points :
  let l := pixelEye ++ [mkPoint 0 0]%float in
  List.length l = 7%nat
  /\ getEyeAspectRatio l = getEyeAspectRatio pixelEye
  /\ isOk (getEyeAspectRatio l) = true.
Proof. repeat split. Qed.

End WrongLength.

(** ** The emergency countdown *)

Section Emergency.

Import App Observe.

Variable registry : string -> option Handler.

Lemma escalationDepsChanged_same prev cur :
  driverState prev = driverState cur -> miraState prev = miraState cur ->
  isEmergency prev = isEmergency cur ->
  permissionsGranted prev = permissionsGranted cur ->
  escalationDepsChanged prev cur = false.
Proof.
  intros Hd Hm He Hp. unfold escalationDepsChanged.
  rewrite Hd, Hm, He, Hp.
  now rewrite DriverState_beq_refl, MiraState_beq_refl, !Bool.eqb_reflx.
Qed.

(** A firing that leaves the countdown above zero only decrements it. *)
Lemma step_fire_running s t :
  existsb (Pos.eqb t) (intervals s) = true ->
  (1 < emergencyCountdown s)%Z ->
  step registry (TimerFire t) s = set_emergencyCountdown (emergencyCountdown s - 1) s.
Proof.
  intros Hlive Hc.
  unfold step, enabled. rewrite Hlive, render_runEffects.
  unfold handle, emergencyTick, runEffects.
  rewrite escalationDepsChanged_same by reflexivity.
  rewrite expiryEffect_skip by (cbn; apply Z.leb_gt; lia).
  now destruct (expiryDepsChanged _ _).
Qed.

(** The firing that takes the countdown to zero. *)
Lemma step_fire_expire s t :
  existsb (Pos.eqb t) (intervals s) = true ->
  emergencyCountdown s = 1%Z ->
  step registry (TimerFire t) s =
  set_driverState MONITORING
    (set_isEmergency false
       (push (NotifyEmergencyContact emergencyContact (location s))
          (clearEmergencyTimer (set_emergencyCountdown 0 s)))).
Proof.
  intros Hlive Hc.
  unfold step, enabled. rewrite Hlive, render_runEffects.
  unfold handle, emergencyTick, runEffects.
  rewrite escalationDepsChanged_same by reflexivity.
  unfold expiryDepsChanged. cbn [emergencyCountdown set_emergencyCountdown].
  rewrite Hc. cbn [Z.sub Z.add Z.opp Z.pos_sub Z.eqb negb orb].
  unfold expiryEffect. reflexivity.
Qed.

(** A position update during the countdown only stores the position. *)
Lemma step_location_running s loc :
  (0 < emergencyCountdown s)%Z ->
  step registry (LocationUpdate loc) s =
  if permissionsGranted s
  then set_locationVersion (S (locationVersion s)) (set_location (Some loc) s)
  else s.
Proof.
  intros Hc.
  unfold step, enabled. destruct (permissionsGranted s) eqn:Hp; [|reflexivity].
  rewrite render_runEffects.
  unfold handle, runEffects.
  rewrite escalationDepsChanged_same by reflexivity.
  rewrite expiryEffect_skip by (cbn; apply Z.leb_gt; lia).
  now destruct (expiryDepsChanged _ _).
Qed.

(** The acknowledgment. *)
Lemma step_cancel s :
  isEmergency s = true -> step registry ClickImOkay s = cancelEmergency s.
Proof.
  intros He.
  unfold step, enabled. rewrite He, render_runEffects.
  unfold handle, runEffects.
  assert (Hq : expiryDepsChanged s (cancelEmergency s) = false).
  { unfold expiryDepsChanged, cancelEmergency. cbn.
    destruct (clearEmergencyTimer_deps s) as (_ & _ & _ & _ & Hc & Hl).
    now rewrite Hc, Hl, Z.eqb_refl, Nat.eqb_refl. }
  rewrite Hq, escalationEffect_skip by reflexivity.
  now destruct (escalationDepsChanged _ _).
Qed.

Lemma counting_live_t t c N T s :
  Counting t c N T s -> existsb (Pos.eqb t) (intervals s) = true.
Proof.
  intros H. rewrite (counting_live _ _ _ _ _ H). cbn.
  now rewrite Pos.eqb_refl.
Qed.

Lemma counting_run t N T evs : forall s c,
  Counting t c N T s ->
  Forall (fun ev => countdownEvent t ev = true) evs ->
  (Z.of_nat (fires evs) < c)%Z ->
  Counting t (c - Z.of_nat (fires evs)) N T (run registry evs s).
Proof.
  induction evs as [|ev evs IH]; intros s c Hs Hall Hc.
  - cbn. now rewrite Z.sub_0_r.
  - inversion Hall as [|? ? Hev Hrest]; subst.
    cbn [run fold_left].
    change (fold_left _ evs ?x) with (run registry evs x).
    destruct ev; try discriminate Hev.
    + (* a position update *)
      unfold fires in *. cbn [filter isFire] in *.
      apply IH; [|exact Hrest|exact Hc].
      rewrite step_location_running
        by (rewrite (counting_seconds _ _ _ _ _ Hs); lia).
      destruct Hs. destruct (permissionsGranted s); constructor; assumption.
    + (* a firing: the countdown stays above zero *)
      cbn [countdownEvent] in Hev. apply Pos.eqb_eq in Hev. subst t0.
      unfold fires in *. cbn [filter isFire List.length] in *.
      rewrite step_fire_running;
        [|now apply (counting_live_t t c N T)
         |rewrite (counting_seconds _ _ _ _ _ Hs); lia].
      replace (c - Z.of_nat (S (List.length (filter isFire evs))))%Z
        with ((c - 1) - Z.of_nat (List.length (filter isFire evs)))%Z by lia.
      apply IH; [|exact Hrest|lia].
      destruct Hs. constructor; cbn; try assumption. lia.
Qed.

Lemma counting_begins s inp :
  detectionActive s = true -> noFace inp = true ->
  (CONSECUTIVE_FRAMES_UNRESPONSIVE <= noFaceFramesRef s)%nat ->
  isEmergency s = false -> intervals s = [] ->
  Counting (nextTimerId s) 15 (notifications s) (transcriptions s)
    (step registry (DetectionTick inp) s).
Proof.
  intros Hact Hno Hge He Hlive.
  destruct (step_noFace_fire registry s inp Hact Hno Hge) as [_ Hstep].
  rewrite Hstep, He.
  unfold beginEmergency, startEmergencyTimer. cbn.
  destruct (sessionPromiseRef s); constructor; cbn; try reflexivity;
    try (now rewrite Hlive);
    unfold notifications; cbn; rewrite ?filter_app; cbn;
    now rewrite ?app_nil_r.
Qed.

(** The countdown up to its expiry.  When a sample without a face takes
    the no-face counter over its threshold (the driver state becomes
    UNRESPONSIVE) and no countdown is
    active, a countdown starts at 15 on a new interval.  While it is not
    answered, each firing of the interval decrements it by one, and before
    the fifteenth firing no notification is made.  The fifteenth firing
    makes exactly one notification of the emergency contact, ends the
    emergency, clears the interval and sets the driver state to
    MONITORING.  An acknowledgment before that (the "I'm Okay" button)
    makes no notification, clears the interval, sets the driver state to
    MONITORING at once and appends the entry "I'm okay." of the user to the
    transcript.  Position updates during the countdown change none of
    this. *)
Theorem emergency_countdown (s : AppState) (inp : DetectionInput) :
  detectionActive s = true ->
  noFace inp = true ->
  (CONSECUTIVE_FRAMES_UNRESPONSIVE <= noFaceFramesRef s)%nat ->
  isEmergency s = false ->
  intervals s = [] ->
  let t := nextTimerId s in
  let s0 := step registry (DetectionTick inp) s in
  (driverState s0 = UNRESPONSIVE /\ isEmergency s0 = true
   /\ emergencyCountdown s0 = 15%Z /\ intervals s0 = [t])
  /\ (forall evs,
        Forall (fun ev => countdownEvent t ev = true) evs ->
        (fires evs < 15)%nat ->
        let sk := run registry evs s0 in
        (emergencyCountdown sk = 15 - Z.of_nat (fires evs))%Z
        /\ isEmergency sk = true
        /\ driverState sk = UNRESPONSIVE
        /\ notifications sk = notifications s
        /\ (let sc := step registry ClickImOkay sk in
            notifications sc = notifications s
            /\ driverState sc = MONITORING
            /\ isEmergency sc = false
            /\ intervals sc = []
            /\ transcriptions sc = transcriptions s ++ [mkEntry USER "I'm okay."]))
  /\ (forall evs,
        Forall (fun ev => countdownEvent t ev = true) evs ->
        fires evs = 14%nat ->
        let s14 := run registry evs s0 in
        let s15 := step registry (TimerFire t) s14 in
        notifications s15 =
          notifications s ++ [NotifyEmergencyContact emergencyContact (location s14)]
        /\ isEmergency s15 = false
        /\ driverState s15 = MONITORING
        /\ intervals s15 = []).
Proof.
  intros Hact Hno Hge He Hlive t s0.
  pose proof (counting_begins s inp Hact Hno Hge He Hlive) as H0.
  fold t in H0. fold s0 in H0.
  split; [|split].
  - destruct H0. repeat split; assumption.
  - intros evs Hall Hlt sk.
    assert (Hk : Counting t (15 - Z.of_nat (fires evs)) (notifications s)
                   (transcriptions s) sk)
      by (apply counting_run; [exact H0|exact Hall|lia]).
    destruct Hk as [Hke Hkd Hkc Hkr Hkl Hkn Hkt].
    repeat split; try assumption.
    all: rewrite (step_cancel sk Hke); unfold cancelEmergency, clearEmergencyTimer.
    all: rewrite Hkr; cbn; rewrite ?Hkl; cbn; try reflexivity.
    + exact Hkn.
    + destruct (Pos.eq_dec t t) as [_|Hne]; [reflexivity|now elim Hne].
    + now rewrite Hkt.
  - intros evs Hall H14 s14 s15.
    assert (Hk : Counting t (15 - Z.of_nat (fires evs)) (notifications s)
                   (transcriptions s) s14)
      by (apply counting_run; [exact H0|exact Hall|lia]).
    rewrite H14 in Hk. cbn in Hk.
    destruct Hk as [Hke Hkd Hkc Hkr Hkl Hkn Hkt].
    subst s15. rewrite (step_fire_expire s14 t);
      [|rewrite Hkl; cbn; now rewrite Pos.eqb_refl|exact Hkc].
    unfold clearEmergencyTimer. cbn. rewrite Hkr. cbn. rewrite Hkl. cbn.
    repeat split.
    + unfold notifications in *. cbn. rewrite filter_app, Hkn. reflexivity.
    + destruct (Pos.eq_dec t t) as [_|Hne]; [reflexivity|now elim Hne].
Qed.

End Emergency.

Section EmergencyWitness.

Import App Observe Samples Scenarios.

Lemma emergency_countdown_witness :
  let t := nextTimerId almostUnresponsive in
  let s0 := step noTools (DetectionTick noFaceSample) almostUnresponsive in
  let s7 := run noTools (repeat (TimerFire t) 7) s0 in
  let s14 := run noTools (repeat (TimerFire t) 14) s0 in
  (detectionActive almostUnresponsive = true
   /\ noFaceFramesRef almostUnresponsive = 25%nat
   /\ isEmergency almostUnresponsive = false
   /\ intervals almostUnresponsive = [])
  /\ emergencyCountdown s0 = 15%Z
  /\ emergencyCountdown s7 = (15 - Z.of_nat (fires (repeat (TimerFire t) 7)))%Z
  /\ notifications (step noTools ClickImOkay s7) = notifications almostUnresponsive
  /\ notifications (step noTools (TimerFire t) s14) =
     notifications almostUnresponsive
       ++ [NotifyEmergencyContact emergencyContact (location s14)].
Proof.
  intros t s0 s7 s14.
  assert (Hev : forall n, Forall (fun ev => countdownEvent t ev = true)
                            (repeat (TimerFire t) n)).
  { intros n. apply Forall_forall. intros ev Hin.
    apply repeat_spec in Hin. subst ev. apply Pos.eqb_refl. }
  split; [repeat split; vm_compute; reflexivity|].
  destruct (emergency_countdown noTools almostUnresponsive noFaceSample)
    as ((_ & _ & Hstart & _) & Hrun & Hexpire);
    try (vm_compute; reflexivity).
  destruct (Hrun (repeat (TimerFire t) 7) (Hev 7%nat)) as (H7 & _ & _ & _ & Hc & _).
  - vm_compute. repeat constructor.
  - destruct (Hexpire (repeat (TimerFire t) 14) (Hev 14%nat)) as (Hn & _).
    + vm_compute. reflexivity.
    + exact (conj Hstart (conj H7 (conj Hc Hn))).
Defined.

(** After an expiry the countdown stays at 0, and the expiry effect also
    depends on [location]: the next position update runs it again. *)
Remark expiry_effect_runs_again_on_position_update :
  let t := nextTimerId almostUnresponsive in
  let s0 := step noTools (DetectionTick noFaceSample) almostUnresponsive in
  let s15 := run noTools (repeat (TimerFire t) 15) s0 in
  let here := mkLocation 0 0 in
  emergencyCountdown s15 = 0%Z
  /\ isEmergency s15 = false
  /\ notifications (step noTools (LocationUpdate here) s15) =
     notifications s15 ++ [NotifyEmergencyContact emergencyContact (Some here)].
Proof. vm_compute. repeat split. Qed.

(** C1 (a defect of the code). The contact is not notified exactly once.
    After setup, 26 samples without a face and 15 firings of the interval
    with no acknowledgment, the contact has been notified once, the
    emergency is over, the interval is cleared and the driver state is
    MONITORING; but the countdown stays at 0, and the expiry effect has
    [location] among its dependencies, so the next position update
    notifies the contact again, and so does every later one: after three
    position updates there are four notifications. *)
Theorem emergency_contact_notified_again :
  let s15 := run noTools expired (init true) in
  let s16 := step noTools (LocationUpdate home) s15 in
  let s18 := run noTools (repeat (LocationUpdate home) 3) s15 in
  (notifications s15 = [NotifyEmergencyContact emergencyContact None]
   /\ isEmergency s15 = false /\ intervals s15 = []
   /\ driverState s15 = MONITORING /\ emergencyCountdown s15 = 0%Z)
  /\ notifications s16
     = notifications s15 ++ [NotifyEmergencyContact emergencyContact (Some home)]
  /\ List.length (notifications s18) = 4%nat.
Proof. vm_compute. repeat split. Qed.

End EmergencyWitness.

(** ** Escalation on drowsiness *)

Section Escalation.

Import App Observe.

Variable registry : string -> option Handler.

(** C6 (as amended). The sample that takes the closed-eye counter over its
    threshold sets the driver state to DROWSY.  If the conversational
    state is IDLE at that moment, the escalation effect calls
    [startLiveSession] and sets the driver state to ENGAGED in the same
    event; a session is started (and the conversational state becomes
    LISTENING) only if a client of the AI service exists.  If the
    conversational state is not IDLE, the effect does nothing: the driver
    state stays DROWSY and no session is started. *)
Theorem drowsy_escalation (s : AppState) (inp : DetectionInput) :
  detectionActive s = true ->
  closedEyes inp = true ->
  (CONSECUTIVE_FRAMES_DROWSY <= eyeClosedFramesRef s)%nat ->
  let s' := step registry (DetectionTick inp) s in
  driverState (handle registry (DetectionTick inp) s) = DROWSY
  /\ (miraState s = IDLE ->
      driverState s' = ENGAGED
      /\ sessionStarts s' = (sessionStarts s + (if aiRef s then 1 else 0))%nat
      /\ miraState s' = (if aiRef s then LISTENING else IDLE))
  /\ (miraState s <> IDLE ->
      driverState s' = DROWSY
      /\ sessionStarts s' = sessionStarts s
      /\ miraState s' = miraState s).
Proof.
  intros Hact Hclosed Hge s'.
  destruct (step_closed_fire registry s inp Hact Hclosed Hge) as [Hh Hstep].
  cbv zeta in Hh, Hstep. subst s'. rewrite Hh, Hstep.
  assert (Hp : permissionsGranted s = true).
  { unfold detectionActive in Hact.
    now destruct (permissionsGranted s). }
  split; [reflexivity|split].
  - intros Hidle. cbn [miraState set_driverState push set_actions withCounters
                       set_eyeClosedFramesRef set_noFaceFramesRef].
    rewrite Hidle. cbn [MiraState_beq].
    unfold sessionStarts. cbn [driverState actions set_driverState miraState].
    rewrite startLiveSession_actions.
    unfold startLiveSession, sessionActions. cbn. rewrite Hp. cbn.
    destruct (aiRef s); cbn.
    + rewrite !filter_app, !length_app. cbn. repeat split; lia.
    + rewrite !filter_app, !length_app. cbn. repeat split; try lia. exact Hidle.
  - intros Hbusy. cbn [miraState set_driverState push set_actions withCounters
                       set_eyeClosedFramesRef set_noFaceFramesRef].
    destruct (miraState s) eqn:Hm; [now elim Hbusy| | |]; cbn [MiraState_beq];
      unfold sessionStarts; cbn; rewrite filter_app, length_app; cbn;
      repeat split; try lia; exact Hm.
Qed.

End Escalation.

Section EscalationCounterexample.

Import App Observe Samples.

Lemma drowsy_escalation_witness :
  let s := run noTools (ticks (repeat closedSample 10)) (monitoring true) in
  let s' := step noTools (DetectionTick closedSample) s in
  (detectionActive s = true /\ closedEyes closedSample = true
   /\ eyeClosedFramesRef s = 10%nat /\ miraState s = IDLE)
  /\ driverState (handle noTools (DetectionTick closedSample) s) = DROWSY
  /\ driverState s' = ENGAGED
  /\ sessionStarts s' = (sessionStarts s + (if aiRef s then 1 else 0))%nat.
Proof.
  intros s s'.
  assert (Hact : detectionActive s = true) by (vm_compute; reflexivity).
  assert (Hclosed : closedEyes closedSample = true) by (vm_compute; reflexivity).
  assert (Hten : eyeClosedFramesRef s = 10%nat) by (vm_compute; reflexivity).
  assert (Hidle : miraState s = IDLE) by (vm_compute; reflexivity).
  split; [exact (conj Hact (conj Hclosed (conj Hten Hidle)))|].
  destruct (drowsy_escalation noTools s closedSample Hact Hclosed) as (H1 & H2 & _).
  - rewrite Hten. apply le_n.
  - destruct (H2 Hidle) as (Hd & Hn & _).
    exact (conj H1 (conj Hd Hn)).
Defined.

(** Entering DROWSY without a session start.  Without an API key the
    driver state becomes ENGAGED and no session is started.  With a
    session already open (conversational state LISTENING) the driver state
    stays DROWSY, no session is started, and the detection loop is
    suspended. *)
Lemma drowsy_without_session_start :
  (let s := run noTools (ticks (repeat closedSample 10)) (monitoring false) in
   let s' := step noTools (DetectionTick closedSample) s in
   driverState (handle noTools (DetectionTick closedSample) s) = DROWSY
   /\ driverState s' = ENGAGED
   /\ miraState s' = IDLE
   /\ sessionStarts s' = 0%nat)
  /\ (let s := monitoringWhileListening in
      let s' := step noTools (DetectionTick closedSample) s in
      driverState s = MONITORING
      /\ miraState s = LISTENING
      /\ driverState (handle noTools (DetectionTick closedSample) s) = DROWSY
      /\ driverState s' = DROWSY
      /\ sessionStarts s' = sessionStarts s
      /\ detectionActive s' = false).
Proof. vm_compute. repeat split. Qed.

End EscalationCounterexample.

(** ** Close and error of the session *)

Section SessionEnd.

Import App Observe Samples.

(** C8 (as amended). The close callback sets the conversational state to
    IDLE and drops the analyser node; it leaves the playback cursor and
    the output audio context as they are.  The error callback only logs:
    the conversational state, the analyser node and the playback cursor
    are unchanged.  When the driver is engaged or monitored, no effect
    runs after either callback. *)
Theorem session_close_and_error (registry : string -> option Handler) (s : AppState) :
  let c := handle registry SessionClose s in
  let e := handle registry SessionError s in
  (miraState c = IDLE
   /\ analyserNode c = false
   /\ nextAudioStartTimeRef c = nextAudioStartTimeRef s
   /\ outputAudioContextRef c = outputAudioContextRef s)
  /\ (miraState e = miraState s
      /\ analyserNode e = analyserNode s
      /\ nextAudioStartTimeRef e = nextAudioStartTimeRef s
      /\ outputAudioContextRef e = outputAudioContextRef s)
  /\ step registry SessionError s = (if sessionPromiseRef s then e else s)
  /\ (driverState s = ENGAGED \/ driverState s = MONITORING ->
      step registry SessionClose s = (if sessionPromiseRef s then c else s)).
Proof.
  cbv zeta. split; [repeat split|split; [repeat split|split]].
  - unfold step, enabled. destruct (sessionPromiseRef s); [|reflexivity].
    apply render_sameDeps. repeat split.
  - intros Hd. unfold step, enabled. destruct (sessionPromiseRef s); [|reflexivity].
    rewrite render_runEffects. unfold runEffects.
    assert (Hq : expiryDepsChanged s (handle registry SessionClose s) = false).
    { unfold expiryDepsChanged. cbn. now rewrite Z.eqb_refl, Nat.eqb_refl. }
    rewrite Hq, escalationEffect_skip.
    + now destruct (escalationDepsChanged _ _).
    + unfold drowsyIdle. cbn. destruct Hd as [-> | ->]; reflexivity.
    + unfold unresponsiveNew. cbn. destruct Hd as [-> | ->]; reflexivity.
Qed.

(** After an error event the conversational state is still SPEAKING; after
    a close event the playback cursor is where it was (1 s + 3 frames). *)
Lemma session_end_keeps_cursor :
  miraState speaking = SPEAKING
  /\ nextAudioStartTimeRef speaking = (1 + 3 / 24000)%float
  /\ miraState (step noTools SessionError speaking) = SPEAKING
  /\ nextAudioStartTimeRef (step noTools SessionClose speaking)
     = (1 + 3 / 24000)%float
  /\ nextAudioStartTimeRef (step noTools SessionError speaking)
     = (1 + 3 / 24000)%float.
Proof. vm_compute. repeat split. Qed.

End SessionEnd.

(** ** Binary64 arithmetic

    What the scheduling of audio needs of the numbers of JavaScript, from
    the specification of the operations of [float] in the library: the
    comparison is a total order on the numbers that are not NaN, the
    rounded sum of a number that is not negative and another one is not
    below the first, and the quotient of two lengths is not negative. *)

Section Binary64.

Import App Binary64.
Import SpecFloat FloatOps FloatAxioms.

Local Open Scope Z_scope.


Lemma digits2_size m : digits2_pos m = Pos.size m.
Proof. induction m; simpl; congruence. Qed.

Lemma digits2_upper m : Zpos m < 2 ^ Zpos (digits2_pos m).
Proof.
  rewrite digits2_size.
  pose proof (Pos.size_gt m) as H.
  apply Pos2Z.pos_lt_pos in H. now rewrite Pos2Z.inj_pow in H.
Qed.

Lemma digits2_lower m : 2 ^ (Zpos (digits2_pos m) - 1) <= Zpos m.
Proof.
  rewrite digits2_size.
  pose proof (Pos.size_le m) as H.
  apply Pos2Z.pos_le_pos in H. rewrite Pos2Z.inj_pow in H.
  replace (Zpos (Pos.size m)) with (Z.succ (Zpos (Pos.size m) - 1)) in H by lia.
  rewrite Z.pow_succ_r in H by lia.
  change (Zpos m~0) with (2 * Zpos m) in H. lia.
Qed.

(** If [m] is at least [2 ^ k], it has more than [k] digits. *)
Lemma digits2_ge m k : 0 <= k -> 2 ^ k <= Zpos m -> k < Zpos (digits2_pos m).
Proof.
  intros Hk H. pose proof (digits2_upper m) as Hu.
  apply (Z.pow_lt_mono_r_iff 2); lia.
Qed.

Lemma fexp_mono a b : a <= b -> fexp prec emax a <= fexp prec emax b.
Proof. unfold fexp. lia. Qed.

Lemma fexp_emin a : SpecFloat.emin prec emax <= fexp prec emax a.
Proof. unfold fexp. lia. Qed.

Lemma fexp_above a e :
  SpecFloat.emin prec emax <= e -> e < fexp prec emax a -> fexp prec emax a = a - prec.
Proof. unfold fexp. lia. Qed.

(** Shifting a non-negative mantissa to the right divides it. *)
Lemma shr_1_m mrs : 0 <= shr_m mrs -> shr_m (shr_1 mrs) = shr_m mrs / 2.
Proof.
  destruct mrs as [m r s]. simpl. intros Hm.
  destruct m as [|[p|p|]|p]; simpl; try lia.
  - reflexivity.
  - apply Z.div_unique with 1; lia.
  - apply Z.div_unique with 0; lia.
  - reflexivity.
Qed.

Lemma iter_pos_nat {A} (f : A -> A) p x :
  iter_pos f p x = Nat.iter (Pos.to_nat p) f x.
Proof.
  revert x. induction p as [p IH|p IH|]; intros x; cbn [iter_pos].
  - rewrite !IH, <- Nat.iter_succ_r, <- Nat.iter_add. f_equal. lia.
  - rewrite !IH, <- Nat.iter_add. f_equal. lia.
  - reflexivity.
Qed.

Lemma iter_shr_1 n mrs :
  0 <= shr_m mrs ->
  shr_m (Nat.iter n shr_1 mrs) = shr_m mrs / 2 ^ Z.of_nat n.
Proof.
  intros Hm. induction n as [|n IH].
  - simpl. now rewrite Z.div_1_r.
  - rewrite Nat.iter_succ, shr_1_m.
    + rewrite IH, Nat2Z.inj_succ, Z.pow_succ_r by lia.
      rewrite Z.div_div by lia. f_equal. lia.
    + rewrite IH. apply Z.div_pos; lia.
Qed.

Lemma shr_record_m m l : shr_m (shr_record_of_loc m l) = m.
Proof. destruct l as [|[]]; reflexivity. Qed.

(** [shr_fexp] on a non-negative mantissa: the exponent becomes the
    larger of [e] and the canonical one, the mantissa is divided. *)
Lemma shr_fexp_spec m e l :
  0 <= m ->
  let e' := Z.max e (fexp prec emax (Zdigits2 m + e)) in
  shr_m (fst (shr_fexp prec emax m e l)) = m / 2 ^ (e' - e)
  /\ snd (shr_fexp prec emax m e l) = e'.
Proof.
  intros Hm e'. unfold shr_fexp, shr.
  destruct (fexp prec emax (Zdigits2 m + e) - e) as [|p|p] eqn:Hn; simpl.
  - replace (e' - e) with 0 by lia. rewrite Z.div_1_r, shr_record_m. split; [reflexivity|lia].
  - rewrite iter_pos_nat, iter_shr_1 by (now rewrite shr_record_m).
    rewrite shr_record_m, positive_nat_Z.
    replace (e' - e) with (Zpos p) by lia. split; [reflexivity|lia].
  - replace (e' - e) with 0 by lia. rewrite Z.div_1_r, shr_record_m. split; [reflexivity|lia].
Qed.

Lemma round_nearest_even_ge m l : m <= round_nearest_even m l.
Proof. destruct l as [|[]]; simpl; try lia. destruct (Z.even m); lia. Qed.


Lemma SFleb_finite mx ex m e :
  ex < e \/ (ex = e /\ Zpos mx <= Zpos m) ->
  SFleb (S754_finite false mx ex) (S754_finite false m e) = true.
Proof.
  unfold SFleb, SFcompare. intros [H|[-> H]].
  - now rewrite (proj2 (Z.compare_lt_iff _ _) H).
  - rewrite Z.compare_refl.
    change (Pos.compare_cont Eq mx m) with (Pos.compare mx m).
    destruct (Pos.compare_spec mx m); try reflexivity. lia.
Qed.

(** A quotient by a power of two that is at most the number of digits
    minus the precision keeps 53 digits. *)
Lemma div_pow2_lower m n :
  0 <= n -> n = Zpos (digits2_pos m) - prec ->
  2 ^ (prec - 1) <= Zpos m / 2 ^ n.
Proof.
  intros Hn Hd.
  apply Z.div_le_lower_bound; [lia|].
  rewrite <- Z.pow_add_r by (unfold prec; lia).
  replace (n + (prec - 1)) with (Zpos (digits2_pos m) - 1) by lia.
  apply digits2_lower.
Qed.

(** Rounding a positive number that is at least a representable number
    does not go below that number. *)
Lemma binary_round_aux_ge mx ex m e :
  canonical_mantissa prec emax mx ex = true ->
  e <= ex -> Zpos mx * 2 ^ (ex - e) <= Zpos m ->
  SFleb (S754_finite false mx ex)
        (binary_round_aux prec emax false (Zpos m) e loc_Exact) = true.
Proof.
  intros Hc He Hm.
  unfold canonical_mantissa in Hc. apply Z.eqb_eq in Hc.
  assert (Hmin : SpecFloat.emin prec emax <= ex) by (rewrite <- Hc; apply fexp_emin).
  assert (Hd : Zpos (digits2_pos mx) + (ex - e) <= Zpos (digits2_pos m)).
  { enough (Zpos (digits2_pos mx) - 1 + (ex - e) < Zpos (digits2_pos m)) by lia.
    apply digits2_ge; [lia|].
    rewrite Z.pow_add_r by lia.
    pose proof (digits2_lower mx).
    assert (0 < 2 ^ (ex - e)) by (apply Z.pow_pos_nonneg; lia).
    nia. }
  set (fe := fexp prec emax (Zpos (digits2_pos m) + e)).
  assert (Hfe : ex <= fe).
  { rewrite <- Hc. apply fexp_mono. lia. }
  unfold binary_round_aux.
  destruct (shr_fexp_spec (Zpos m) e loc_Exact ltac:(lia)) as [H1 H2].
  destruct (shr_fexp prec emax (Zpos m) e loc_Exact) as [mrs1 e1].
  cbn [fst snd Zdigits2] in H1, H2. fold fe in H1, H2.
  rewrite Z.max_r in H1, H2 by lia. subst e1.
  set (m2 := round_nearest_even (shr_m mrs1) (loc_of_shr_record mrs1)).
  assert (H12 : shr_m mrs1 <= m2) by apply round_nearest_even_ge.
  (* the first shift *)
  assert (Hm1 : (fe = ex /\ Zpos mx <= shr_m mrs1)
                \/ (ex < fe /\ 2 ^ (prec - 1) <= shr_m mrs1)).
  { destruct (Z.eq_dec fe ex) as [E|E].
    - left. split; [exact E|]. rewrite H1, E.
      apply Z.div_le_lower_bound; [apply Z.pow_pos_nonneg; lia|lia].
    - right. split; [lia|]. rewrite H1.
      apply div_pow2_lower; [lia|].
      unfold fe. rewrite (fexp_above _ ex) by (fold fe; lia). lia. }
  assert (Hpos : 0 < m2).
  { destruct Hm1 as [[_ H]|[_ H]]; [lia|].
    assert (0 < 2 ^ (prec - 1)) by reflexivity. lia. }
  destruct m2 as [|p2|p2] eqn:Ep2; try lia.
  destruct (shr_fexp_spec (Zpos p2) fe loc_Exact ltac:(lia)) as [H3 H4].
  destruct (shr_fexp prec emax (Zpos p2) fe loc_Exact) as [mrs2 e2].
  cbn [fst snd Zdigits2] in H3, H4.
  set (fe2 := fexp prec emax (Zpos (digits2_pos p2) + fe)) in *.
  (* the second shift *)
  assert (Hm3 : (e2 = fe /\ shr_m mrs2 = Zpos p2)
                \/ (fe < e2 /\ 0 < shr_m mrs2)).
  { destruct (Z.le_gt_cases fe2 fe) as [L|G].
    - left. rewrite Z.max_l in H3, H4 by lia. split; [now symmetry|].
      rewrite H3, Z.sub_diag. apply Z.div_1_r.
    - right. rewrite Z.max_r in H3, H4 by lia. split; [lia|].
      rewrite H3.
      assert (2 ^ (prec - 1) <= Zpos p2 / 2 ^ (fe2 - fe)).
      { apply div_pow2_lower; [lia|].
        unfold fe2. rewrite (fexp_above _ fe) by (fold fe2; lia). lia. }
      assert (0 < 2 ^ (prec - 1)) by reflexivity. lia. }
  destruct (shr_m mrs2) as [|p3|p3] eqn:Ep3.
  - destruct Hm3 as [[_ H]|[_ H]]; [discriminate H|lia].
  - destruct (Z.leb e2 (emax - prec)); [|reflexivity].
    apply SFleb_finite.
    clear H3 H4. lia.
  - destruct Hm3 as [[_ H]|[_ H]]; [discriminate H|lia].
Qed.


Lemma nonnegSF_leb x : SFleb (S754_zero false) x = nonnegSF x.
Proof. destruct x as [s|s| |s m e]; try destruct s; reflexivity. Qed.

Lemma binary_round_aux_nonneg m e l :
  0 <= m -> nonnegSF (binary_round_aux prec emax false m e l) = true.
Proof.
  intros Hm. unfold binary_round_aux.
  destruct (shr_fexp_spec m e l Hm) as [H1 _].
  destruct (shr_fexp prec emax m e l) as [mrs1 e1]. cbn [fst] in H1.
  set (m2 := round_nearest_even (shr_m mrs1) (loc_of_shr_record mrs1)).
  assert (H2 : 0 <= m2).
  { pose proof (round_nearest_even_ge (shr_m mrs1) (loc_of_shr_record mrs1)).
    fold m2 in H. rewrite H1 in H.
    assert (0 <= m / 2 ^ (Z.max e (fexp prec emax (Zdigits2 m + e)) - e))
      by (apply Z.div_pos; [lia|apply Z.pow_pos_nonneg; lia]).
    lia. }
  destruct (shr_fexp_spec m2 e1 loc_Exact H2) as [H3 _].
  destruct (shr_fexp prec emax m2 e1 loc_Exact) as [mrs2 e2]. cbn [fst] in H3.
  assert (H4 : 0 <= shr_m mrs2).
  { rewrite H3. apply Z.div_pos; [lia|apply Z.pow_pos_nonneg; lia]. }
  destruct (shr_m mrs2); [reflexivity| |lia].
  now destruct (Z.leb e2 (emax - prec)).
Qed.

Lemma iter_xO m d : Zpos (Pos.iter xO m d) = Zpos m * 2 ^ Zpos d.
Proof.
  induction d as [|d IH] using Pos.peano_ind.
  - cbn [Pos.iter]. rewrite Pos2Z.inj_xO. change (2 ^ 1) with 2. lia.
  - rewrite Pos.iter_succ, Pos2Z.inj_xO, IH, Pos2Z.inj_succ, Z.pow_succ_r by lia. lia.
Qed.

Lemma shl_align_spec m e e' :
  snd (shl_align m e e') <= e
  /\ snd (shl_align m e e') = Z.min e e'
  /\ Zpos (fst (shl_align m e e')) = Zpos m * 2 ^ (e - snd (shl_align m e e')).
Proof.
  unfold shl_align. destruct (e' - e) as [|d|d] eqn:Hd; cbn [fst snd].
  - rewrite Z.sub_diag. change (2 ^ 0) with 1. lia.
  - rewrite Z.sub_diag. change (2 ^ 0) with 1. lia.
  - rewrite iter_xO. replace (e - e') with (Zpos d) by lia. lia.
Qed.

Lemma binary_round_ge mx ex m e :
  canonical_mantissa prec emax mx ex = true ->
  e <= ex -> Zpos mx * 2 ^ (ex - e) <= Zpos m ->
  SFleb (S754_finite false mx ex) (binary_round prec emax false m e) = true.
Proof.
  intros Hc He Hm. unfold binary_round.
  destruct (shl_align_spec m e (fexp prec emax (Zpos (digits2_pos m) + e)))
    as (H1 & _ & H2).
  destruct (shl_align m e _) as [mz ez]. cbn [fst snd] in H1, H2.
  apply binary_round_aux_ge; [assumption|lia|].
  rewrite H2. replace (ex - ez) with ((ex - e) + (e - ez)) by lia.
  rewrite Z.pow_add_r by lia.
  assert (0 < 2 ^ (e - ez)) by (apply Z.pow_pos_nonneg; lia).
  nia.
Qed.

Lemma binary_round_nonneg m e : nonnegSF (binary_round prec emax false m e) = true.
Proof.
  unfold binary_round. destruct (shl_align m e _) as [mz ez].
  now apply binary_round_aux_nonneg.
Qed.

Lemma SFleb_refl x : nonnegSF x = true -> SFleb x x = true.
Proof.
  destruct x as [s|s| |s m e]; try destruct s; try discriminate; try reflexivity.
  intros _. apply SFleb_finite. right. split; [reflexivity|lia].
Qed.

(** Adding a number that is not negative to one that is not negative does
    not go below the latter. *)
Lemma SFadd_ge x d :
  valid_binary x = true -> nonnegSF x = true -> nonnegSF d = true ->
  SFleb x (SFadd prec emax x d) = true
  /\ nonnegSF (SFadd prec emax x d) = true.
Proof.
  intros Hv Hx Hd.
  destruct x as [sx|sx| |sx mx ex]; try destruct sx; try discriminate;
    destruct d as [sd|sd| |sd md ed]; try destruct sd; try discriminate;
    try (split; reflexivity).
  - (* finite + zero *)
    split; [now apply SFleb_refl|reflexivity].
  - split; [now apply SFleb_refl|reflexivity].
  - (* finite + finite *)
    cbn [valid_binary] in Hv. unfold bounded in Hv.
    apply andb_true_iff in Hv. destruct Hv as [Hc _].
    cbn [SFadd cond_Zopp].
    destruct (shl_align_spec mx ex (Z.min ex ed)) as (_ & E1 & F1).
    destruct (shl_align_spec md ed (Z.min ex ed)) as (_ & E2 & F2).
    rewrite E1 in F1. rewrite E2 in F2.
    replace (Z.min ex (Z.min ex ed)) with (Z.min ex ed) in F1 by lia.
    set (a := fst (shl_align mx ex (Z.min ex ed))) in *.
    set (b := fst (shl_align md ed (Z.min ex ed))) in *.
    change (Zpos a + Zpos b) with (Zpos (a + b)).
    cbn [binary_normalize].
    split; [|apply binary_round_nonneg].
    apply binary_round_ge; [assumption|lia|].
    rewrite Pos2Z.inj_add, <- F1. lia.
Qed.


Lemma SFleb_finite_inv m1 e1 m2 e2 :
  SFleb (S754_finite false m1 e1) (S754_finite false m2 e2) = true ->
  e1 < e2 \/ (e1 = e2 /\ Zpos m1 <= Zpos m2).
Proof.
  unfold SFleb, SFcompare.
  destruct (Z.compare_spec e1 e2) as [E|L|G]; [|now left|discriminate].
  change (Pos.compare_cont Eq m1 m2) with (Pos.compare m1 m2).
  destruct (Pos.compare_spec m1 m2); try discriminate; intros _; right; lia.
Qed.

Lemma SFleb_trans x y z :
  nonnegSF x = true -> nonnegSF y = true -> nonnegSF z = true ->
  SFleb x y = true -> SFleb y z = true -> SFleb x z = true.
Proof.
  destruct x as [sx|sx| |sx mx ex]; try destruct sx; try discriminate;
    destruct y as [sy|sy| |sy my ey]; try destruct sy; try discriminate;
    destruct z as [sz|sz| |sz mz ez]; try destruct sz; try discriminate;
    try reflexivity; try (intros _ _ _; discriminate);
    try (intros _ _ _ _; discriminate).
  intros _ _ _ H1 H2.
  apply SFleb_finite_inv in H1. apply SFleb_finite_inv in H2.
  apply SFleb_finite. lia.
Qed.

Lemma SFcompare_antisym x y :
  SFcompare y x = option_map CompOpp (SFcompare x y).
Proof.
  destruct x as [sx|sx| |sx mx ex], y as [sy|sy| |sy my ey];
    try destruct sx; try destruct sy; try reflexivity;
    cbn [SFcompare option_map]; f_equal;
    rewrite (Z.compare_antisym ey ex);
    destruct (ey ?= ex); cbn [CompOpp]; try reflexivity.
  - f_equal. change (Pos.compare my mx = CompOpp (Pos.compare mx my)).
    apply Pos.compare_antisym.
  - change (Pos.compare my mx = CompOpp (Pos.compare mx my)).
    apply Pos.compare_antisym.
Qed.

Lemma SFcompare_refl x : notNaN x = true -> SFcompare x x = Some Eq.
Proof.
  destruct x as [s|s| |s m e]; try destruct s; try discriminate; try reflexivity;
    intros _; cbn [SFcompare]; rewrite Z.compare_refl;
    change (Pos.compare_cont Eq m m) with (Pos.compare m m);
    now rewrite Pos.compare_refl.
Qed.

Lemma SFcompare_total x y :
  notNaN x = true -> notNaN y = true -> exists c, SFcompare x y = Some c.
Proof.
  destruct x as [sx|sx| |sx mx ex], y as [sy|sy| |sy my ey]; try discriminate;
    intros _ _; eexists; reflexivity.
Qed.

Lemma nonneg_notNaN x : nonnegSF x = true -> notNaN x = true.
Proof. now destruct x as [s|s| |s m e]. Qed.

(** Two numbers that are not negative and compare equal are the same
    number, or both are a zero. *)
Lemma SFcompare_eq x y :
  nonnegSF x = true -> nonnegSF y = true ->
  SFcompare x y = Some Eq ->
  x = y \/ (exists s t, x = S754_zero s /\ y = S754_zero t).
Proof.
  destruct x as [sx|sx| |sx mx ex]; try destruct sx; try discriminate;
    destruct y as [sy|sy| |sy my ey]; try destruct sy; try discriminate;
    intros _ _ H; try discriminate H;
    try (right; eexists _, _; split; reflexivity);
    try (left; reflexivity).
  cbn [SFcompare] in H. injection H as H.
  destruct (Z.compare_spec ex ey) as [E|L|G]; try discriminate.
  change (Pos.compare_cont Eq mx my) with (Pos.compare mx my) in H.
  apply Pos.compare_eq in H. left. congruence.
Qed.

(** *** The same on primitive floats *)

Local Open Scope float_scope.

Lemma leb0_nonneg x : (0 <=? x) = nonnegSF (Prim2SF x).
Proof. rewrite leb_spec. apply nonnegSF_leb. Qed.

Lemma float_add_ge x d :
  (0 <=? x) = true -> (0 <=? d) = true ->
  (x <=? x + d) = true /\ (0 <=? x + d) = true.
Proof.
  rewrite !leb0_nonneg, leb_spec, add_spec. intros Hx Hd.
  apply SFadd_ge; [apply Prim2SF_valid|assumption|assumption].
Qed.

Lemma float_leb_trans x y z :
  (0 <=? x) = true -> (x <=? y) = true -> (y <=? z) = true -> (x <=? z) = true.
Proof.
  rewrite leb0_nonneg, !leb_spec. intros Hx Hxy Hyz.
  assert (Hy : nonnegSF (Prim2SF y) = true).
  { rewrite <- nonnegSF_leb.
    destruct (Prim2SF x) as [sx|sx| |sx mx ex]; try destruct sx; try discriminate;
      destruct (Prim2SF y) as [sy|sy| |sy my ey]; try destruct sy; try discriminate;
      reflexivity. }
  assert (Hz : nonnegSF (Prim2SF z) = true).
  { rewrite <- nonnegSF_leb.
    destruct (Prim2SF y) as [sy|sy| |sy my ey]; try destruct sy; try discriminate;
      destruct (Prim2SF z) as [sz|sz| |sz mz ez]; try destruct sz; try discriminate;
      reflexivity. }
  now apply (SFleb_trans _ (Prim2SF y)).
Qed.


Lemma ltb0_positive x : (0 <? x) = positiveSF (Prim2SF x).
Proof.
  rewrite ltb_spec. change (Prim2SF 0) with (S754_zero false).
  destruct (Prim2SF x) as [s|s| |s m e]; try destruct s; reflexivity.
Qed.

Lemma positive_nonneg x : (0 <? x) = true -> (0 <=? x) = true.
Proof.
  rewrite ltb0_positive, leb0_nonneg.
  destruct (Prim2SF x) as [s|s| |s m e]; try destruct s; easy.
Qed.

Lemma float_add_pos x d :
  (0 <=? x) = true -> (0 <? d) = true -> (0 <? x + d) = true.
Proof.
  rewrite leb0_nonneg, !ltb0_positive, add_spec. unfold SF64add. intros Hx Hd.
  assert (Hd' : nonnegSF (Prim2SF d) = true).
  { destruct (Prim2SF d) as [s|s| |s m e]; try destruct s; easy. }
  destruct (SFadd_ge _ _ (Prim2SF_valid x) Hx Hd') as [H1 H2].
  destruct (Prim2SF x) as [sx|sx| |sx mx ex]; try destruct sx; try discriminate;
    destruct (Prim2SF d) as [sd|sd| |sd md ed]; try destruct sd; try discriminate;
    try reflexivity.
  destruct (SFadd prec emax _ _) as [s|s| |s m e]; try destruct s; easy.
Qed.

Lemma nonneg_not_nan x : (0 <=? x) = true -> is_nan x = false.
Proof.
  rewrite leb0_nonneg. unfold is_nan. rewrite eqb_spec. intros H.
  unfold SFeqb. now rewrite SFcompare_refl by now apply nonneg_notNaN.
Qed.

Lemma is_nan_spec x : is_nan x = negb (notNaN (Prim2SF x)).
Proof.
  unfold is_nan. rewrite eqb_spec. unfold SFeqb.
  destruct (Prim2SF x) as [s|s| |s m e] eqn:E; [| |reflexivity|];
    now rewrite SFcompare_refl.
Qed.

Lemma is_nan_add x d : is_nan (x + d) = false -> is_nan x = false.
Proof.
  rewrite !is_nan_spec, add_spec. now destruct (Prim2SF x).
Qed.

Lemma float_leb_refl x : is_nan x = false -> (x <=? x) = true.
Proof.
  rewrite is_nan_spec, leb_spec. intros H. apply negb_false_iff in H.
  unfold SFleb. now rewrite SFcompare_refl.
Qed.

Lemma Math_max_nan a b :
  is_nan (Math_max a b) = false -> is_nan a = false /\ is_nan b = false.
Proof.
  unfold Math_max. destruct (is_nan a), (is_nan b); cbn [orb]; try discriminate.
  now split.
Qed.

Lemma leb_nonneg_r x y :
  nonnegSF x = true -> SFleb x y = true -> nonnegSF y = true.
Proof.
  destruct x as [sx|sx| |sx mx ex]; try destruct sx; try discriminate;
    destruct y as [sy|sy| |sy my ey]; try destruct sy; try discriminate;
    reflexivity.
Qed.

(** The maximum of a time and a clock reading is not below the time. *)
Lemma Math_max_ge a b :
  (0 <=? a) = true -> is_nan b = false ->
  (a <=? Math_max a b) = true /\ (0 <=? Math_max a b) = true.
Proof.
  intros Ha Hb. unfold Math_max.
  rewrite (nonneg_not_nan a Ha), Hb. cbn [orb].
  assert (Ra : (a <=? a) = true) by (apply float_leb_refl; now apply nonneg_not_nan).
  pose proof Ha as Ha'. rewrite leb0_nonneg in Ha'.
  rewrite is_nan_spec in Hb. apply negb_false_iff in Hb.
  pose proof (SFcompare_antisym (Prim2SF a) (Prim2SF b)) as A.
  destruct (SFcompare_total _ _ (nonneg_notNaN _ Ha') Hb) as [c Hc].
  rewrite Hc in A. cbn [option_map] in A.
  assert (Hle : c <> Gt -> (a <=? b) = true /\ (0 <=? b) = true).
  { intros Hg.
    assert (L : SFleb (Prim2SF a) (Prim2SF b) = true)
      by (unfold SFleb; rewrite Hc; now destruct c).
    split; [now rewrite leb_spec|].
    rewrite leb0_nonneg. now apply (leb_nonneg_r (Prim2SF a)). }
  rewrite !ltb_spec. unfold SFltb. rewrite Hc, A.
  destruct c; cbn [CompOpp].
  - destruct (Hle ltac:(discriminate)). now destruct (classify a).
  - now apply Hle.
  - now split.
Qed.

(** When the clock is not ahead of a positive cursor, the maximum is the
    cursor. *)
Lemma Math_max_l a b :
  (0 <? a) = true -> (0 <=? b) = true -> (b <=? a) = true -> Math_max a b = a.
Proof.
  intros Pa Hb Hba. pose proof (positive_nonneg a Pa) as Ha. unfold Math_max.
  rewrite (nonneg_not_nan a Ha), (nonneg_not_nan b Hb). cbn [orb].
  pose proof Ha as Ha'. pose proof Hb as Hb'.
  rewrite leb0_nonneg in Ha', Hb'.
  pose proof (SFcompare_antisym (Prim2SF b) (Prim2SF a)) as A.
  rewrite leb_spec in Hba. unfold SFleb in Hba.
  rewrite !ltb_spec. unfold SFltb. rewrite A.
  destruct (SFcompare (Prim2SF b) (Prim2SF a)) as [[]|] eqn:E; try discriminate;
    cbn [option_map CompOpp]; [|reflexivity].
  destruct (SFcompare_eq _ _ Hb' Ha' E) as [H|(s & t & _ & H)].
  - apply Prim2SF_inj in H. subst b. now destruct (classify a).
  - rewrite ltb0_positive, H in Pa. discriminate.
Qed.

Lemma to_Z_nonneg n : (0 <= Uint63.to_Z n)%Z.
Proof. apply Uint63.to_Z_bounded. Qed.

Lemma of_uint63_nonneg n : nonnegSF (Prim2SF (of_uint63 n)) = true.
Proof.
  rewrite of_uint63_spec. pose proof (to_Z_nonneg n) as H.
  change Uint63Axioms.to_Z with Uint63.to_Z.
  destruct (Uint63.to_Z n); [reflexivity|apply binary_round_nonneg|lia].
Qed.

Lemma SFdiv_nonneg x m e :
  nonnegSF x = true ->
  nonnegSF (SFdiv prec emax x (S754_finite false m e)) = true.
Proof.
  destruct x as [sx|sx| |sx mx ex]; try destruct sx; try discriminate;
    try reflexivity.
  intros _. cbn [SFdiv xorb].
  unfold SFdiv_core_binary.
  set (m' := match _ with Zpos _ => Z.shiftl (Zpos mx) _ | Z0 => Zpos mx | Zneg _ => 0%Z end).
  assert (Hm' : (0 <= m')%Z).
  { unfold m'. destruct (_ - _ - _)%Z; try lia. now apply Z.shiftl_nonneg. }
  pose proof (Z.div_pos m' (Zpos m) Hm' ltac:(lia)) as Hq.
  unfold Z.div in Hq. destruct (Z.div_eucl m' (Zpos m)) as [q r].
  now apply binary_round_aux_nonneg.
Qed.


Lemma duration_nonneg b :
  sampleRate b = 24000%positive -> (0 <=? duration b) = true.
Proof.
  intros Hr. unfold duration, numberOfNat, numberOfPos. rewrite Hr.
  rewrite leb0_nonneg, div_spec.
  assert (E : Prim2SF (of_uint63 (Uint63.of_pos 24000))
              = S754_finite false 6597069766656000 (-38)) by reflexivity.
  rewrite E. apply SFdiv_nonneg, of_uint63_nonneg.
Qed.

End Binary64.

(** ** The playback cursor *)

Section Playback.

Import Base64 App Observe.

Variable registry : string -> option Handler.

Local Open Scope float_scope.

Lemma scheduleAudio_exec audioData now s :
  exec (scheduleAudio audioData now) s =
  let start := Math_max (cursor s) now in
  match chunk audioData with
  | Ok b =>
      set_nextAudioStartTimeRef (start + duration b)
        (push (StartSource start (duration b))
           (set_nextAudioStartTimeRef start s))
  | Throw _ => set_nextAudioStartTimeRef start s
  end.
Proof.
  unfold exec, scheduleAudio, chunk, bind, modify, get, liftResult, cursor.
  destruct (decode audioData) as [bytes|e]; cbn [rbind snd]; [|reflexivity].
  destruct (decodeAudioData bytes 24000 1) as [b|e]; reflexivity.
Qed.

(** An audio message is scheduled when a session and an output context
    exist and the payload is not the empty string; otherwise nothing
    happens.  No effect runs afterwards. *)
Lemma receive_exec now audioData s :
  receive registry now audioData s =
  if sessionPromiseRef s && outputAudioContextRef s && negb (isEmpty audioData)
  then exec (scheduleAudio audioData now) s
  else s.
Proof.
  unfold receive, step, enabled.
  destruct (sessionPromiseRef s); [|reflexivity].
  assert (Hh : handle registry (SessionMessage (audioMessage audioData) now) s
               = if outputAudioContextRef s && negb (isEmpty audioData)
                 then exec (scheduleAudio audioData now) s else s).
  { cbv [handle onmessage audioMessage exec bind ret get when
         inputTranscription outputTranscription turnComplete functionCalls
         inlineAudio].
    destruct audioData as [|c rest];
      cbn [List.length Nat.eqb negb andb isEmpty];
      destruct (outputAudioContextRef s); cbn [andb]; try reflexivity.
    all: now destruct (scheduleAudio (c :: rest) now s) as [[[]|] ?]. }
  rewrite Hh. cbn [andb]. apply render_sameDeps.
  destruct (outputAudioContextRef s && negb (isEmpty audioData));
    [|apply sameDeps_refl].
  rewrite scheduleAudio_exec. cbv zeta.
  destruct (chunk audioData); repeat split.
Qed.

Lemma chunk_nonempty audioData b : chunk audioData = Ok b -> isEmpty audioData = false.
Proof. destruct audioData; [discriminate|reflexivity]. Qed.

(** A chunk is a buffer of one channel at 24 kHz, with as many frames as
    the payload has pairs of bytes. *)
Lemma chunk_buffer audioData b :
  chunk audioData = Ok b ->
  numberOfChannels b = 1%nat /\ sampleRate b = 24000%positive
  /\ exists bytes, decode audioData = Ok bytes
                   /\ frameCount b = Nat.div (List.length bytes) 2.
Proof.
  unfold chunk. destruct (decode audioData) as [bytes|e]; [|discriminate].
  cbn [rbind]. unfold decodeAudioData.
  destruct (Nat.odd (List.length bytes)); [discriminate|].
  rewrite Nat.div_1_r.
  destruct (_ =? 0)%nat; [discriminate|].
  intros [= <-]. cbn [numberOfChannels sampleRate frameCount].
  repeat split. now exists bytes.
Qed.

Lemma chunk_duration audioData b : chunk audioData = Ok b -> (0 <=? duration b) = true.
Proof. intros H. apply duration_nonneg. now apply (chunk_buffer audioData). Qed.

Lemma receive_chunk now audioData b s :
  sessionPromiseRef s = true -> outputAudioContextRef s = true ->
  chunk audioData = Ok b ->
  receive registry now audioData s =
  set_nextAudioStartTimeRef (Math_max (cursor s) now + duration b)
    (push (StartSource (Math_max (cursor s) now) (duration b))
       (set_nextAudioStartTimeRef (Math_max (cursor s) now) s)).
Proof.
  intros Hs Ho Hb.
  rewrite receive_exec, Hs, Ho, (chunk_nonempty _ _ Hb). cbn [andb negb].
  rewrite scheduleAudio_exec. cbv zeta. now rewrite Hb.
Qed.

(** The cursor after an audio message, whether its payload decodes or
    not. *)
Lemma receive_cursor now audioData s :
  (0 <=? cursor s) = true -> PrimFloat.is_nan now = false ->
  (cursor s <=? cursor (receive registry now audioData s)) = true
  /\ (0 <=? cursor (receive registry now audioData s)) = true.
Proof.
  intros Hc Hn. rewrite receive_exec.
  destruct (sessionPromiseRef s && outputAudioContextRef s && negb (isEmpty audioData)).
  - rewrite scheduleAudio_exec. cbv zeta.
    destruct (Math_max_ge (cursor s) now Hc Hn) as [H1 H2].
    destruct (chunk audioData) as [b|e] eqn:Hb; unfold cursor in *;
      cbn [nextAudioStartTimeRef set_nextAudioStartTimeRef push set_actions].
    + destruct (float_add_ge _ (duration b) H2 (chunk_duration _ _ Hb)) as [H3 H4].
      split; [|exact H4].
      now apply (float_leb_trans _ (Math_max (nextAudioStartTimeRef s) now)).
    + now split.
  - split; [|exact Hc]. apply float_leb_refl. now apply nonneg_not_nan.
Qed.

(** C5 (as amended). In the binary64 numbers of the program: when the
    cursor and the output clock are times (not negative), an audio message
    never makes the cursor decrease.  A chunk that decodes is started at
    the maximum of the cursor and the clock, and the cursor becomes the
    rounded sum of that start and the duration of the chunk.  Hence three
    chunks of 12000, 7200 and 9600 frames (0.5 s, 0.3 s, 0.4 s) that all
    arrive no later than the start t0 of the first are started at t0, at
    the rounded sum of t0 and 0.5, and at the rounded sum of that and
    0.3: each starts where the cursor was left. *)
Theorem playback_cursor :
  (forall s audioData now,
     (0 <=? cursor s) = true -> (0 <=? now) = true ->
     (cursor s <=? cursor (receive registry now audioData s)) = true)
  /\ (forall s audioData now b,
        sessionPromiseRef s = true -> outputAudioContextRef s = true ->
        chunk audioData = Ok b ->
        let start := Math_max (cursor s) now in
        let s' := receive registry now audioData s in
        actions s' = actions s ++ [StartSource start (duration b)]
        /\ cursor s' = start + duration b)
  /\ (forall s d1 d2 d3 b1 b2 b3 now1 now2 now3,
        sessionPromiseRef s = true -> outputAudioContextRef s = true ->
        chunk d1 = Ok b1 -> chunk d2 = Ok b2 -> chunk d3 = Ok b3 ->
        frameCount b1 = (12 * 1000)%nat -> frameCount b2 = (72 * 100)%nat ->
        frameCount b3 = (96 * 100)%nat ->
        (0 <=? cursor s) = true ->
        (0 <=? now1) = true -> (0 <=? now2) = true -> (0 <=? now3) = true ->
        let t0 := Math_max (cursor s) now1 in
        (now2 <=? t0) = true -> (now3 <=? t0) = true ->
        (duration b1 = 0.5 /\ duration b2 = 3 / 10 /\ duration b3 = 4 / 10)
        /\ actions (receive registry now3 d3
                      (receive registry now2 d2 (receive registry now1 d1 s))) =
           actions s ++ [StartSource t0 (duration b1);
                         StartSource (t0 + 0.5) (duration b2);
                         StartSource (t0 + 0.5 + 3 / 10) (duration b3)]).
Proof.
  split; [|split].
  - intros s audioData now Hc Hn.
    apply receive_cursor; [exact Hc|now apply nonneg_not_nan].
  - intros s audioData now b Hs Ho Hb start s'. subst s' start.
    rewrite (receive_chunk now audioData b s Hs Ho Hb).
    split; reflexivity.
  - intros s d1 d2 d3 b1 b2 b3 now1 now2 now3 Hs Ho H1 H2 H3 F1 F2 F3
           Hc Hn1 Hn2 Hn3 t0 Hl2 Hl3.
    assert (D : forall d b n, chunk d = Ok b -> frameCount b = n ->
                duration b = (numberOfNat n / 24000)).
    { intros d b n Hb Hf. destruct (chunk_buffer d b Hb) as (_ & Hr & _).
      unfold duration. now rewrite Hr, Hf. }
    assert (D1 : duration b1 = 0.5) by (rewrite (D d1 b1 _ H1 F1); reflexivity).
    assert (D2 : duration b2 = 3 / 10) by (rewrite (D d2 b2 _ H2 F2); reflexivity).
    assert (D3 : duration b3 = 4 / 10) by (rewrite (D d3 b3 _ H3 F3); reflexivity).
    split; [exact (conj D1 (conj D2 D3))|].
    destruct (Math_max_ge (cursor s) now1 Hc (nonneg_not_nan _ Hn1)) as [_ H0].
    fold t0 in H0.
    (* the cursor after the first and after the second chunk *)
    assert (P1 : (0 <? t0 + 0.5) = true) by (now apply float_add_pos).
    destruct (float_add_ge t0 0.5 H0 eq_refl) as [G1 _].
    assert (P2 : (0 <? t0 + 0.5 + 3 / 10) = true)
      by (apply float_add_pos; [now apply positive_nonneg|reflexivity]).
    destruct (float_add_ge (t0 + 0.5) (3 / 10) (positive_nonneg _ P1) eq_refl)
      as [G2 _].
    assert (L2 : (now2 <=? t0 + 0.5) = true)
      by (now apply (float_leb_trans _ t0)).
    assert (L3 : (now3 <=? t0 + 0.5 + 3 / 10) = true).
    { apply (float_leb_trans _ (t0 + 0.5)); [exact Hn3| |exact G2].
      now apply (float_leb_trans _ t0). }
    rewrite (receive_chunk now1 d1 b1 s Hs Ho H1).
    rewrite (receive_chunk now2 d2 b2) by (assumption || reflexivity).
    rewrite (receive_chunk now3 d3 b3) by (assumption || reflexivity).
    unfold cursor.
    cbn [actions nextAudioStartTimeRef set_nextAudioStartTimeRef push set_actions].
    fold (cursor s). fold t0. rewrite D1, D2, D3.
    rewrite (Math_max_l _ now2 P1 Hn2 L2), (Math_max_l _ now3 P2 Hn3 L3).
    rewrite <- !app_assoc. reflexivity.
Qed.

End Playback.

Section PlaybackWitness.

Import Base64 App Observe Samples.

Local Open Scope float_scope.

Lemma playback_cursor_witness :
  let d1 := silenceOf (12 * 1000) in
  let d2 := silenceOf (72 * 100) in
  let d3 := silenceOf (96 * 100) in
  let b1 := mkBuffer 1 (12 * 1000) 24000 in
  let b2 := mkBuffer 1 (72 * 100) 24000 in
  let b3 := mkBuffer 1 (96 * 100) 24000 in
  let t0 := Math_max (cursor engaged) 3 in
  (chunk d1 = Ok b1 /\ chunk d2 = Ok b2 /\ chunk d3 = Ok b3)
  /\ (duration b1 = 0.5 /\ duration b2 = 3 / 10 /\ duration b3 = 4 / 10)
  /\ actions (receive noTools 3 d3
                (receive noTools 2 d2 (receive noTools 3 d1 engaged))) =
     actions engaged ++ [StartSource t0 (duration b1);
                         StartSource (t0 + 0.5) (duration b2);
                         StartSource (t0 + 0.5 + 3 / 10) (duration b3)].
Proof.
  intros d1 d2 d3 b1 b2 b3 t0.
  assert (H1 : chunk d1 = Ok b1) by (vm_compute; reflexivity).
  assert (H2 : chunk d2 = Ok b2) by (vm_compute; reflexivity).
  assert (H3 : chunk d3 = Ok b3) by (vm_compute; reflexivity).
  split; [exact (conj H1 (conj H2 H3))|].
  refine (proj2 (proj2 (playback_cursor noTools))
            engaged d1 d2 d3 b1 b2 b3 3 2 3
            _ _ H1 H2 H3 _ _ _ _ _ _ _ _ _).
  all: vm_compute; reflexivity.
Defined.

(** The starts of the chunks are rounded sums: with the cursor at 0 and
    a first chunk that arrives when the clock reads 0.1, the three chunks
    start at 0.1, 0.6 and 0.8999999999999999, which is not the number
    0.1 + 0.8 = 0.9; and after the second chunk the cursor is ahead of its
    start by less than the duration of the chunk. *)
Lemma playback_starts_are_rounded :
  let d1 := silenceOf (12 * 1000) in
  let d2 := silenceOf (72 * 100) in
  let d3 := silenceOf (96 * 100) in
  let t0 := 0x1.999999999999ap-4 in
  exists b2 a2 a3,
    cursor engaged = 0 /\ chunk d2 = Ok b2
    /\ actions (receive noTools t0 d3
                  (receive noTools t0 d2 (receive noTools t0 d1 engaged))) =
       actions engaged ++ [StartSource t0 0.5; StartSource a2 (duration b2);
                           StartSource a3 (4 / 10)]
    /\ a2 = t0 + 0.5
    /\ a3 = 0x1.cccccccccccccp-1
    /\ (a3 =? t0 + 8 / 10) = false
    /\ (a3 <? t0 + 8 / 10) = true
    /\ (a3 - a2 <? duration b2) = true.
Proof.
  vm_compute. eexists _, _, _. repeat split.
Qed.

End PlaybackWitness.

(** ** Tool calls *)

Section ToolCalls.

Import App Observe.

Variable registry : string -> option Handler.

Lemma dispatch_responses calls : forall s,
  quiet registry -> sessionPromiseRef s = true ->
  fst (dispatchToolCalls registry calls s) = Ok tt ->
  let s' := snd (dispatchToolCalls registry calls s) in
  exists sent,
    responses s' = responses s ++ sent
    /\ map responseKey sent = map callKey (filter (registered registry) calls).
Proof.
  intros s Hq. revert s.
  induction calls as [|fc rest IH]; intros s Hs Hok.
  - exists []. cbn. now rewrite app_nil_r.
  - cbn [dispatchToolCalls filter] in *. unfold registered at 1.
    unfold bind in *.
    destruct (registry (fcName fc)) as [h|] eqn:Hreg.
    + destruct (Hq _ _ Hreg (fcArgs fc) s) as [Hqs Hqr].
      destruct (h (fcArgs fc) s) as [[text|e] s1]; cbn [fst snd] in *;
        [|discriminate Hok].
      unfold get, when in *. rewrite Hqs, Hs in *.
      unfold modify in *.
      destruct (IH (push (SendToolResponse (fcId fc) (fcName fc) text) s1))
        as (sent & Hsent & Hkeys); [exact Hqs|exact Hok|].
      exists (SendToolResponse (fcId fc) (fcName fc) text :: sent). split.
      * rewrite Hsent. unfold responses at 1. cbn [actions push set_actions].
        rewrite filter_app. cbn [filter isResponse].
        fold (responses s1). rewrite Hqr. now rewrite <- app_assoc.
      * cbn [map responseKey]. now rewrite Hkeys.
    + unfold ret in *. now apply IH.
Qed.

(** C2 (as amended). For a batch of tool calls received while the session
    exists, with handlers that send no result themselves, if the message
    callback returns (no handler throws): the tool results sent are, in
    the order of the calls, one for each call whose name has a handler in
    the registry, carrying the id and the name of that call; a call whose
    name has no handler gets no result. *)
Theorem tool_results_correlated
    (calls : list FunctionCall) (now : float) (s : AppState) :
  quiet registry ->
  sessionPromiseRef s = true ->
  fst (onmessage registry (toolMessage calls) now s) = Ok tt ->
  let s' := handle registry (SessionMessage (toolMessage calls) now) s in
  exists sent,
    responses s' = responses s ++ sent
    /\ map responseKey sent = map callKey (filter (registered registry) calls).
Proof.
  intros Hq Hs Hok s'. subst s'.
  unfold handle, exec.
  assert (Hm : onmessage registry (toolMessage calls) now s =
               dispatchToolCalls registry calls (set_miraState THINKING s)).
  { cbv [onmessage toolMessage bind ret modify when
         inputTranscription outputTranscription turnComplete functionCalls
         inlineAudio].
    destruct (dispatchToolCalls registry calls (set_miraState THINKING s))
      as [[[]|e] s1]; reflexivity. }
  rewrite Hm in *.
  apply (dispatch_responses calls (set_miraState THINKING s) Hq Hs Hok).
Qed.

End ToolCalls.

Section ToolCallExamples.

Import App Observe Samples.

Lemma responses_push_log msg s :
  responses (push (ConsoleLog msg) s) = responses s.
Proof.
  unfold responses. cbn. rewrite filter_app. cbn. apply app_nil_r.
Qed.

(** The handlers of the component are quiet. *)
Lemma mockFunctions_quiet generateContent encodeURIComponent loc :
  quiet (mockFunctions generateContent encodeURIComponent loc).
Proof.
  intros name h Hreg args s. unfold mockFunctions in Hreg.
  destruct (String.eqb name "find_nearby_places").
  - injection Hreg as <-.
    cbv [find_nearby_places bind modify ret get].
    destruct loc as [l|]; cbn [fst snd].
    + destruct (negb (aiRef (push _ s))); cbn [fst snd].
      * split; [reflexivity|apply responses_push_log].
      * destruct (generateContent _ l); cbn [fst snd].
        -- split; [reflexivity|apply responses_push_log].
        -- split; [reflexivity|].
           now rewrite !responses_push_log.
    + split; [reflexivity|apply responses_push_log].
  - destruct (String.eqb name "play_spotify_song"); [|discriminate Hreg].
    injection Hreg as <-.
    cbv [play_spotify_song bind modify ret liftResult].
    destruct (encodeURIComponent _); cbn [fst snd].
    + split; [reflexivity|]. apply (responses_push_log _ s).
    + split; [reflexivity|apply responses_push_log].
Qed.

(** A failed Maps query comes back as text: the handler catches it. *)
Example find_nearby_places_failure_is_text :
  fst (find_nearby_places (fun _ _ => Throw (HandlerError "offline"))
         (Some (mkLocation 0 0)) [("query", "coffee shop")]%string engaged)
  = Ok "I had trouble looking that up. Please try again."%string.
Proof. reflexivity. Qed.

Example play_spotify_song_result :
  fst (play_spotify_song (fun t => Ok t)
         [("songName", "Blue in Green"); ("artist", "Miles Davis")]%string engaged)
  = Ok "Now playing Blue in Green by Miles Davis. Enjoy!"%string.
Proof. reflexivity. Qed.

Lemma tool_results_correlated_witness :
  let calls := [coffeeCall; unknownCall; songCall] in
  let registry := offlineTools None in
  let s' := handle registry (SessionMessage (toolMessage calls) 0) engaged in
  sessionPromiseRef engaged = true
  /\ exists sent,
       responses s' = responses engaged ++ sent
       /\ map responseKey sent = map callKey (filter (registered registry) calls).
Proof.
  intros calls registry s'.
  split; [vm_compute; reflexivity|].
  apply (tool_results_correlated registry calls 0 engaged).
  - apply mockFunctions_quiet.
  - vm_compute. reflexivity.
  - vm_compute. reflexivity.
Defined.

(** A call that names no handler gets no result; a handler that throws
    ends the callback, so that neither its call nor the next one gets a
    result. *)
Lemma tool_call_without_result :
  (let s' := handle (offlineTools None)
               (SessionMessage (toolMessage [unknownCall; songCall]) 0) engaged in
   map responseKey (responses s') = [callKey songCall])
  /\ (let s' := handle brokenTools
                  (SessionMessage (toolMessage [songCall; coffeeCall]) 0) engaged in
      responses s' = []
      /\ isOk (fst (onmessage brokenTools (toolMessage [songCall; coffeeCall]) 0 engaged))
         = false).
Proof. vm_compute. repeat split. Qed.

End ToolCallExamples.

(** ** Reachable states *)

Section Reachable.

Import FatigueDetection App Observe.

Variable registry : string -> option Handler.

Hypothesis registry_benign : benign registry.

Lemma sameControl_refl s : sameControl s s.
Proof. repeat split; now left. Qed.

Lemma sameControl_trans s1 s2 s3 :
  sameControl s1 s2 -> sameControl s2 s3 -> sameControl s1 s3.
Proof.
  intros (A1 & A2 & A3 & A4 & A5 & A6 & A7 & A8)
         (B1 & B2 & B3 & B4 & B5 & B6 & B7 & B8).
  repeat split; try congruence.
  destruct B8 as [B8|B8]; [|now right].
  destruct A8 as [A8|A8]; [left|right]; congruence.
Qed.

Lemma keeps_ret {A} (a : A) : keeps (ret a).
Proof. intros s. apply sameControl_refl. Qed.

Lemma keeps_get : keeps get.
Proof. intros s. apply sameControl_refl. Qed.

Lemma keeps_liftResult {A} (r : result A) : keeps (liftResult r).
Proof. intros s. apply sameControl_refl. Qed.

Lemma keeps_modify f : (forall s, sameControl s (f s)) -> keeps (modify f).
Proof. intros H s. apply H. Qed.

Lemma keeps_bind {A B} (c : Js A) (k : A -> Js B) :
  keeps c -> (forall a, keeps (k a)) -> keeps (bind c k).
Proof.
  intros Hc Hk s. unfold bind.
  specialize (Hc s). destruct (c s) as [[a|e] s1]; cbn [snd] in *.
  - eapply sameControl_trans; [exact Hc|apply Hk].
  - exact Hc.
Qed.

Lemma keeps_when b c : keeps c -> keeps (when b c).
Proof. intros H. destruct b; [exact H|apply keeps_ret]. Qed.

Ltac keeps_step :=
  first
    [ apply keeps_bind; [|intros ?]
    | apply keeps_when
    | apply keeps_ret
    | apply keeps_get
    | apply keeps_liftResult
    | apply keeps_modify; intros ?; repeat split;
      first [now left | right; discriminate] ].

Lemma keeps_scheduleAudio audioData now : keeps (scheduleAudio audioData now).
Proof. unfold scheduleAudio. repeat keeps_step. Qed.

Lemma keeps_flushTurn : keeps flushTurn.
Proof. unfold flushTurn. repeat keeps_step. Qed.

Lemma keeps_dispatch calls : keeps (dispatchToolCalls registry calls).
Proof.
  induction calls as [|fc rest IH]; cbn [dispatchToolCalls].
  - apply keeps_ret.
  - apply keeps_bind; [|intros _; exact IH].
    destruct (registry (fcName fc)) as [h|] eqn:Hreg; [|apply keeps_ret].
    apply keeps_bind; [now apply (registry_benign (fcName fc))|intros text].
    repeat keeps_step.
Qed.

Lemma keeps_onmessage message now : keeps (onmessage registry message now).
Proof.
  unfold onmessage.
  apply keeps_bind; [destruct (inputTranscription message); repeat keeps_step|intros _].
  apply keeps_bind; [destruct (outputTranscription message); repeat keeps_step|intros _].
  apply keeps_bind; [apply keeps_when, keeps_flushTurn|intros _].
  apply keeps_bind; [|intros _].
  - destruct (functionCalls message); [|apply keeps_ret].
    apply keeps_bind; [repeat keeps_step|intros _; apply keeps_dispatch].
  - destruct (inlineAudio message); [|apply keeps_ret].
    apply keeps_bind; [apply keeps_get|intros s'].
    apply keeps_when, keeps_scheduleAudio.
Qed.

Lemma TimerInvariant_fields s s' :
  isEmergency s' = isEmergency s -> driverState s' = driverState s ->
  emergencyTimerRef s' = emergencyTimerRef s -> intervals s' = intervals s ->
  TimerInvariant s -> TimerInvariant s'.
Proof.
  unfold TimerInvariant. now intros -> -> -> ->.
Qed.

Lemma TimerInvariant_calm s :
  TimerInvariant s -> driverState s <> UNRESPONSIVE ->
  isEmergency s = false /\ intervals s = [].
Proof.
  unfold TimerInvariant. intros H Hd.
  destruct (isEmergency s); [now destruct H|now destruct H].
Qed.

Lemma startLiveSession_timer snap acc :
  emergencyTimerRef (startLiveSession snap acc) = emergencyTimerRef acc
  /\ intervals (startLiveSession snap acc) = intervals acc.
Proof.
  unfold startLiveSession.
  destruct (negb (permissionsGranted snap) || negb (aiRef acc)); [now split|].
  destruct (DriverState_beq (driverState snap) DROWSY); now split.
Qed.

Lemma DriverState_beq_eq a b : DriverState_beq a b = true -> a = b.
Proof. destruct a, b; (reflexivity || discriminate). Qed.

Lemma escalationEffect_inv cur :
  TimerInvariant cur -> TimerInvariant (escalationEffect cur cur).
Proof.
  intros Hinv.
  assert (Hu : unresponsiveNew cur = false).
  { unfold unresponsiveNew, TimerInvariant in *.
    destruct (isEmergency cur); [apply andb_false_r|].
    destruct Hinv as [Hd _].
    destruct (driverState cur); try reflexivity. now elim Hd. }
  destruct (drowsyIdle cur) eqn:Ha.
  - unfold escalationEffect. fold (drowsyIdle cur). fold (unresponsiveNew cur).
    rewrite Ha, Hu.
    apply andb_prop in Ha. destruct Ha as [Ha _].
    apply DriverState_beq_eq in Ha.
    destruct (TimerInvariant_calm cur Hinv) as [He Hi]; [now rewrite Ha|].
    destruct (startLiveSession_deps cur cur) as (_ & He' & _).
    destruct (startLiveSession_timer cur cur) as (_ & Hi').
    unfold TimerInvariant. cbn. rewrite He', He, Hi', Hi.
    split; [discriminate|reflexivity].
  - now rewrite escalationEffect_skip.
Qed.

Lemma expiryEffect_inv snap acc :
  TimerInvariant acc -> TimerInvariant (expiryEffect snap acc).
Proof.
  intros Hinv. unfold expiryEffect.
  destruct (emergencyCountdown snap <=? 0)%Z; [|exact Hinv].
  unfold TimerInvariant in *. cbn. split; [discriminate|].
  unfold clearEmergencyTimer.
  destruct (isEmergency acc).
  - destruct Hinv as (_ & t & Hr & Hi). rewrite Hr. cbn. rewrite Hi. cbn.
    destruct (Pos.eq_dec t t) as [_|Hne]; [reflexivity|now elim Hne].
  - destruct Hinv as [_ Hi].
    destruct (emergencyTimerRef acc); cbn; now rewrite Hi.
Qed.

Lemma runEffects_inv prev cur :
  TimerInvariant cur -> TimerInvariant (runEffects prev cur).
Proof.
  intros Hinv. unfold runEffects.
  destruct (escalationDepsChanged prev cur), (expiryDepsChanged prev cur);
    auto using escalationEffect_inv, expiryEffect_inv.
Qed.

(** The three outcomes of a detection callback. *)
Lemma detectionCallback_cases s inp :
  exists c m,
    let base := withCounters c m s in
    exec (detectionCallback inp) s = base
    \/ exec (detectionCallback inp) s
       = set_driverState DROWSY (push (ConsoleLog msgDrowsy) base)
    \/ exec (detectionCallback inp) s
       = set_driverState UNRESPONSIVE (push (ConsoleLog msgUnresponsive) base).
Proof.
  destruct inp as [[|] [d|]].
  - destruct (sampleEAR d) as [ear|e] eqn:Hear.
    + rewrite (detectionCallback_ear s d ear Hear). cbv zeta.
      exists (if (ear <? EAR_THRESHOLD)%float
              then S (eyeClosedFramesRef s) else 0%nat), 0%nat.
      destruct (CONSECUTIVE_FRAMES_DROWSY <? _)%nat; [right|]; now left.
    + exists (eyeClosedFramesRef s), 0%nat. left.
      unfold sampleEAR in Hear.
      unfold exec, detectionCallback, bind, modify, liftResult.
      cbn [videoPlaying detections].
      destruct (getEyeAspectRatio (leftEye d)) as [l|]; [|reflexivity].
      destruct (getEyeAspectRatio (rightEye d)) as [r|]; [discriminate Hear|reflexivity].
  - exists (eyeClosedFramesRef s), (S (noFaceFramesRef s)).
    assert (Hno : noFace (mkInput true None) = true) by reflexivity.
    rewrite (detectionCallback_noFace s _ Hno). cbv zeta.
    destruct (CONSECUTIVE_FRAMES_UNRESPONSIVE <? S (noFaceFramesRef s))%nat.
    + right. right. destruct s; reflexivity.
    + left. destruct s; reflexivity.
  - exists (eyeClosedFramesRef s), (noFaceFramesRef s). left.
    now rewrite withCounters_same.
  - exists (eyeClosedFramesRef s), (noFaceFramesRef s). left.
    now rewrite withCounters_same.
Qed.

Lemma beginEmergency_inv cur :
  driverState cur = UNRESPONSIVE -> intervals cur = [] ->
  TimerInvariant (beginEmergency cur).
Proof.
  intros Hd Hi. unfold beginEmergency, startEmergencyTimer, TimerInvariant. cbn.
  destruct (sessionPromiseRef cur); cbn; rewrite Hi;
    (split; [exact Hd|now exists (nextTimerId cur)]).
Qed.

Lemma step_detection_inv s inp :
  TimerInvariant s -> TimerInvariant (step registry (DetectionTick inp) s).
Proof.
  intros Hinv. unfold step, enabled.
  destruct (detectionActive s) eqn:Hact; [|exact Hinv].
  pose proof (detectionActive_driver s Hact) as Hmon.
  destruct (TimerInvariant_calm s Hinv) as [He Hi]; [now rewrite Hmon|].
  rewrite render_runEffects. unfold handle.
  destruct (detectionCallback_cases s inp) as (c & m & [H|[H|H]]);
    cbv zeta in H; rewrite H.
  - apply runEffects_inv.
    now apply (TimerInvariant_fields s).
  - apply runEffects_inv.
    unfold TimerInvariant. cbn. rewrite He, Hi. now split.
  - rewrite runEffects_driver;
      [|cbn; rewrite Hmon; discriminate|repeat split].
    rewrite escalationEffect_unresponsive by reflexivity.
    cbn [isEmergency set_driverState push set_actions withCounters
         set_eyeClosedFramesRef set_noFaceFramesRef].
    rewrite He. apply beginEmergency_inv; [reflexivity|exact Hi].
Qed.

(** Every event preserves the invariant. *)
Lemma step_inv ev s :
  TimerInvariant s -> TimerInvariant (step registry ev s).
Proof.
  intros Hinv.
  destruct ev; try (now apply step_detection_inv);
    unfold step; destruct (enabled _ s) eqn:Hen; try exact Hinv;
    rewrite render_runEffects; apply runEffects_inv; unfold handle.
  - now apply (TimerInvariant_fields s).
  - now apply (TimerInvariant_fields s).
  - now apply (TimerInvariant_fields s).
  - now apply (TimerInvariant_fields s).
  - (* the acknowledgment *)
    cbn [enabled] in Hen. unfold TimerInvariant in *. rewrite Hen in Hinv.
    destruct Hinv as (_ & t & Hr & Hi).
    unfold cancelEmergency, clearEmergencyTimer. rewrite Hr. cbn. rewrite Hi. cbn.
    split; [discriminate|].
    destruct (Pos.eq_dec t t) as [_|Hne]; [reflexivity|now elim Hne].
  - (* a message of the session *)
    destruct (keeps_onmessage message now s)
      as (H1 & H2 & H3 & H4 & H5 & _).
    now apply (TimerInvariant_fields s).
  - now apply (TimerInvariant_fields s).
  - now apply (TimerInvariant_fields s).
  - now apply (TimerInvariant_fields s).
Qed.

(** In every state the component reaches, the emergency and its interval
    timer agree. *)
Lemma reachable_inv evs : forall s,
  TimerInvariant s -> TimerInvariant (run registry evs s).
Proof.
  induction evs as [|ev evs IH]; intros s Hinv; [exact Hinv|].
  cbn [run fold_left]. apply IH. now apply step_inv.
Qed.

Lemma init_inv apiKey : TimerInvariant (init apiKey).
Proof. unfold TimerInvariant. cbn. split; [discriminate|reflexivity]. Qed.

(** In particular, whenever the detection loop runs, no emergency is
    active and no interval is live. *)
Lemma reachable_monitoring evs apiKey :
  let s := run registry evs (init apiKey) in
  detectionActive s = true -> isEmergency s = false /\ intervals s = [].
Proof.
  intros s Hact.
  apply TimerInvariant_calm.
  - apply reachable_inv, init_inv.
  - rewrite (detectionActive_driver s Hact). discriminate.
Qed.

(** The handlers of the component are benign. *)
Lemma mockFunctions_benign generateContent encodeURIComponent loc :
  benign (mockFunctions generateContent encodeURIComponent loc).
Proof.
  intros name h args Hreg. unfold mockFunctions in Hreg.
  destruct (String.eqb name "find_nearby_places").
  - injection Hreg as <-. unfold find_nearby_places.
    apply keeps_bind; [repeat keeps_step|intros _].
    destruct loc as [l|]; [|apply keeps_ret].
    apply keeps_bind; [apply keeps_get|intros s'].
    destruct (negb (aiRef s')); [apply keeps_ret|].
    destruct (generateContent _ l); repeat keeps_step.
  - destruct (String.eqb name "play_spotify_song"); [|discriminate Hreg].
    injection Hreg as <-. unfold play_spotify_song. repeat keeps_step.
Qed.

End Reachable.

(** ** Base64 framing *)

Section Base64RoundTrip.

Import Base64 Observe.

Local Open Scope N_scope.

Ltac Zify.zify_post_hook ::= Z.to_euclidean_division_equations.

(** Induction over a list three elements at a time. *)
Lemma list_ind3 {A} (P : list A -> Prop) :
  P [] -> (forall a, P [a]) -> (forall a b, P [a; b]) ->
  (forall a b c l, P l -> P (a :: b :: c :: l)) ->
  forall l, P l.
Proof.
  intros H0 H1 H2 H3.
  fix IH 1. intros [|a [|b [|c l]]];
    [exact H0|apply H1|apply H2|apply H3, IH].
Qed.

Lemma padding_step (a b c : N) l : padding (a :: b :: c :: l) = padding l.
Proof.
  unfold padding. cbn [List.length].
  replace (S (S (S (List.length l)))) with (List.length l + 1 * 3)%nat by lia.
  now rewrite Nat.Div0.mod_add.
Qed.

Lemma base64Encode_split s :
  base64Encode s = map b64char (sextets s) ++ padding s.
Proof.
  induction s as [| a | a b | a b c l IH] using list_ind3; try reflexivity.
  rewrite padding_step.
  cbn [base64Encode sextets map app]. now rewrite IH.
Qed.

Lemma sextets_bounded s :
  Forall (fun c => c < 256) s -> Forall (fun i => i < 64) (sextets s).
Proof.
  induction s as [| a | a b | a b c l IH] using list_ind3; intros H; cbn [sextets].
  - constructor.
  - inversion H; subst. repeat constructor; lia.
  - inversion H as [|? ? Ha H']; subst. inversion H'; subst.
    repeat constructor; lia.
  - inversion H as [|? ? Ha H']; subst.
    inversion H' as [|? ? Hb H'']; subst.
    inversion H'' as [|? ? Hc H3]; subst.
    repeat (constructor; [lia|]). now apply IH.
Qed.

Lemma decodeGroups_sextets s :
  Forall (fun c => c < 256) s -> decodeGroups (sextets s) = s.
Proof.
  induction s as [| a | a b | a b c l IH] using list_ind3; intros H;
    cbn [sextets decodeGroups].
  - reflexivity.
  - inversion H; subst. f_equal. lia.
  - inversion H as [|? ? Ha H']; subst. inversion H'; subst.
    f_equal; [lia|f_equal; lia].
  - inversion H as [|? ? Ha H']; subst.
    inversion H' as [|? ? Hb H'']; subst.
    inversion H'' as [|? ? Hc H3]; subst.
    rewrite (IH H3).
    f_equal; [lia|f_equal; [lia|f_equal; lia]].
Qed.

Lemma b64index_b64char i : i < 64 -> b64index (b64char i) = Some i.
Proof.
  intros Hi. unfold b64char, b64index.
  repeat match goal with
  | |- context [?a <? ?b] => destruct (N.ltb_spec a b)
  | |- context [?a <=? ?b] => destruct (N.leb_spec a b)
  | |- context [?a =? ?b] => destruct (N.eqb_spec a b)
  end; cbn [andb]; try lia; f_equal; lia.
Qed.

Lemma b64char_range i : 43 <= b64char i /\ b64char i <> padChar.
Proof.
  unfold b64char, padChar.
  repeat match goal with
  | |- context [?a <? ?b] => destruct (N.ltb_spec a b)
  | |- context [?a =? ?b] => destruct (N.eqb_spec a b)
  end; lia.
Qed.

Lemma indices_b64char l :
  Forall (fun i => i < 64) l -> indices (map b64char l) = Some l.
Proof.
  induction 1 as [|i l Hi Hl IH]; [reflexivity|].
  cbn [map indices]. now rewrite b64index_b64char, IH.
Qed.

Lemma isAsciiWhitespace_b64char i : isAsciiWhitespace (b64char i) = false.
Proof.
  pose proof (b64char_range i) as [H _].
  unfold isAsciiWhitespace.
  repeat match goal with
  | |- context [?a =? ?b] => destruct (N.eqb_spec a b)
  end; cbn [orb]; (reflexivity || lia).
Qed.

Lemma filter_keeps_encoding l s :
  filter (fun c => negb (isAsciiWhitespace c)) (map b64char l ++ padding s)
  = map b64char l ++ padding s.
Proof.
  rewrite filter_app. f_equal.
  - induction l as [|i l IH]; [reflexivity|].
    cbn [map filter]. now rewrite isAsciiWhitespace_b64char, IH.
  - unfold padding. now destruct (Nat.modulo (List.length s) 3) as [|[|[|n]]].
Qed.

Lemma mod4_step n : Nat.modulo (4 + n) 4 = Nat.modulo n 4.
Proof.
  replace (4 + n)%nat with (n + 1 * 4)%nat by lia.
  apply Nat.Div0.mod_add.
Qed.

Lemma length_encoding_mod4 s :
  Nat.modulo (List.length (map b64char (sextets s) ++ padding s)) 4 = 0%nat.
Proof.
  induction s as [| a | a b | a b c l IH] using list_ind3; try reflexivity.
  rewrite padding_step. cbn [sextets map app List.length].
  change (S (S (S (S ?n)))) with (4 + n)%nat. now rewrite mod4_step.
Qed.

Lemma length_sextets_mod4 s :
  Nat.modulo (List.length (map b64char (sextets s))) 4 <> 1%nat.
Proof.
  induction s as [| a | a b | a b c l IH] using list_ind3;
    try (cbn; discriminate).
  cbn [sextets map List.length].
  change (S (S (S (S ?n)))) with (4 + n)%nat. now rewrite mod4_step.
Qed.

Lemma removeTrailingPad_cons c r :
  c <> padChar -> removeTrailingPad (c :: r) = c :: removeTrailingPad r.
Proof.
  intros Hc. apply N.eqb_neq in Hc.
  destruct r as [|c2 [|c3 r]]; cbn [removeTrailingPad]; now rewrite ?Hc.
Qed.

Lemma removeTrailingPad_encoding l s :
  removeTrailingPad (map b64char l ++ padding s) = map b64char l.
Proof.
  induction l as [|i l IH].
  - unfold padding. now destruct (Nat.modulo (List.length s) 3) as [|[|[|n]]].
  - cbn [map app]. rewrite removeTrailingPad_cons by apply b64char_range.
    now rewrite IH.
Qed.

(** [atob] undoes [btoa]. *)
Lemma atob_base64Encode s :
  Forall (fun c => c < 256) s -> atob (base64Encode s) = Ok s.
Proof.
  intros Hs. unfold atob.
  rewrite base64Encode_split, filter_keeps_encoding, length_encoding_mod4.
  cbn [Nat.eqb]. rewrite removeTrailingPad_encoding.
  destruct (Nat.eqb_spec (Nat.modulo (List.length (map b64char (sextets s))) 4) 1)
    as [E|_]; [now apply length_sextets_mod4 in E|].
  rewrite indices_b64char by now apply sextets_bounded.
  now rewrite decodeGroups_sextets.
Qed.

Lemma fromCharCode_bounded bytes :
  Forall (fun c => c < 256) (map fromCharCode bytes).
Proof.
  induction bytes as [|b l IH]; constructor; [|exact IH].
  unfold fromCharCode. pose proof (Byte.to_N_bounded b). lia.
Qed.

Lemma toUint8_fromCharCode b : toUint8 (fromCharCode b) = b.
Proof.
  unfold toUint8, fromCharCode.
  pose proof (Byte.to_N_bounded b).
  rewrite N.mod_small by lia. now rewrite Byte.of_to_N.
Qed.

(** "Man", "Ma" and "M" (RFC 4648), and what [atob] forgives. *)
Example encode_Man :
  encode [Byte.x4d; Byte.x61; Byte.x6e] = Ok [84; 87; 70; 117].
Proof. reflexivity. Qed.

Example encode_Ma : encode [Byte.x4d; Byte.x61] = Ok [84; 87; 69; 61].
Proof. reflexivity. Qed.

Example encode_M : encode [Byte.x4d] = Ok [84; 81; 61; 61].
Proof. reflexivity. Qed.

Example decode_without_padding : decode [84; 81] = Ok [Byte.x4d].
Proof. reflexivity. Qed.

Example decode_with_white_space :
  decode [84; 87; 32; 70; 117; 10] = Ok [Byte.x4d; Byte.x61; Byte.x6e].
Proof. reflexivity. Qed.

Example decode_three_pads : decode [84; 61; 61; 61] = Throw InvalidCharacterError.
Proof. reflexivity. Qed.

Example decode_outside_alphabet : decode [84; 87; 70; 42] = Throw InvalidCharacterError.
Proof. reflexivity. Qed.

(** C10. Decoding the encoding of a byte array gives the byte array back:
    [encode] returns a string, and [decode] of that string returns the
    same bytes. *)
Theorem decode_encode (bytes : list Byte.byte) :
  exists base64 : JsString,
    encode bytes = Ok base64 /\ decode base64 = Ok bytes.
Proof.
  pose proof (fromCharCode_bounded bytes) as Hb.
  exists (base64Encode (map fromCharCode bytes)). split.
  - unfold encode, btoa.
    replace (forallb (fun c => c <=? 255) (map fromCharCode bytes)) with true;
      [reflexivity|].
    symmetry. apply forallb_forall. intros c Hc.
    apply N.leb_le.
    pose proof (proj1 (Forall_forall _ _) Hb c Hc) as Hlt. cbv beta in Hlt. lia.
  - unfold decode. rewrite (atob_base64Encode _ Hb). cbn [rbind].
    f_equal. rewrite map_map.
    induction bytes as [|b l IH]; [reflexivity|].
    cbn [map]. rewrite toUint8_fromCharCode. f_equal. apply IH.
    now inversion Hb.
Qed.

Ltac Zify.zify_post_hook ::= idtac.

End Base64RoundTrip.

(** * Further properties *)

(** ** The reachable states of the App component *)

Section Frames.

Import FatigueDetection Base64 App AppView Observe Invariants.

Lemma sessionFrame_refl s : sessionFrame s s.
Proof.
  constructor; try reflexivity; [now left| |];
    exists []; now rewrite app_nil_r.
Qed.

Lemma sessionFrame_trans s1 s2 s3 :
  sessionFrame s1 s2 -> sessionFrame s2 s3 -> sessionFrame s1 s3.
Proof.
  intros [A1 A2 A3 (ta & A4 & A5) (aa & A6 & A7)]
         [B1 B2 B3 (tb & B4 & B5) (ab & B6 & B7)].
  constructor.
  - congruence.
  - destruct B2 as [B2|B2]; [|now right].
    destruct A2 as [A2|A2]; [left|right]; congruence.
  - congruence.
  - exists (ta ++ tb). rewrite B4, A4, app_assoc. split; [reflexivity|].
    now apply Forall_app.
  - exists (aa ++ ab). rewrite B6, A6, app_assoc. split; [reflexivity|].
    now apply Forall_app.
Qed.

Section Preserve.

Variable R : AppState -> AppState -> Prop.
Hypothesis R_refl : forall s, R s s.
Hypothesis R_trans : forall a b c, R a b -> R b c -> R a c.

Lemma preserves_ret {A} (a : A) : preserves R (ret a).
Proof. intros s. apply R_refl. Qed.

Lemma preserves_get : preserves R get.
Proof. intros s. apply R_refl. Qed.

Lemma preserves_liftResult {A} (r : result A) : preserves R (liftResult r).
Proof. intros s. apply R_refl. Qed.

Lemma preserves_modify f : (forall s, R s (f s)) -> preserves R (modify f).
Proof. intros H s. apply H. Qed.

Lemma preserves_bind {A B} (c : Js A) (k : A -> Js B) :
  preserves R c -> (forall a, preserves R (k a)) -> preserves R (bind c k).
Proof.
  intros Hc Hk s. unfold bind.
  specialize (Hc s). destruct (c s) as [[a|e] s1]; cbn [snd] in *.
  - eapply R_trans; [exact Hc|apply Hk].
  - exact Hc.
Qed.

Lemma preserves_when b c : preserves R c -> preserves R (when b c).
Proof. intros H. destruct b; [exact H|apply preserves_ret]. Qed.

Variable T : AppState -> AppState -> Prop.

Lemma endsWith_last {A} (c : Js A) :
  (forall s, T s (snd (c s))) -> endsWith R T c.
Proof. intros H s. exists s. split; [apply R_refl|right; apply H]. Qed.

Lemma endsWith_bind {A B} (c : Js A) (k : A -> Js B) :
  preserves R c -> (forall a, endsWith R T (k a)) -> endsWith R T (bind c k).
Proof.
  intros Hc Hk s. unfold bind.
  specialize (Hc s). destruct (c s) as [[a|e] s1]; cbn [snd] in *.
  - destruct (Hk a s1) as (s2 & H12 & H).
    exists s2. split; [eapply R_trans; eassumption|exact H].
  - exists s1. split; [exact Hc|now left].
Qed.

End Preserve.

Section Strip.

Variable sp2 : ascii -> ascii -> bool.
Variable sp3 : ascii -> ascii -> ascii -> bool.

Lemma strip_fixed l : leading sp2 sp3 l = false -> strip sp2 sp3 l = l.
Proof.
  destruct l as [|c1 [|c2 [|c3 r]]]; cbn; [reflexivity|..].
  - now destruct (isSpace c1).
  - destruct (isSpace c1); [discriminate|]. now destruct (sp2 c1 c2).
  - destruct (isSpace c1); [discriminate|].
    destruct (sp2 c1 c2); [discriminate|]. now destruct (sp3 c1 c2 c3).
Qed.

Lemma strip_bounded n l :
  (List.length l <= n)%nat ->
  leading sp2 sp3 (strip sp2 sp3 l) = false
  /\ exists p, l = p ++ strip sp2 sp3 l.
Proof.
  revert l. induction n as [|n IH]; intros l Hl.
  - destruct l; [|cbn in Hl; lia]. split; [reflexivity|now exists []].
  - destruct l as [|c1 r1]; [split; [reflexivity|now exists []]|].
    cbn [List.length] in Hl. cbn [strip].
    destruct (isSpace c1) eqn:E1.
    { destruct (IH r1) as (H & p & Hp); [lia|].
      split; [exact H|]. exists (c1 :: p). cbn. now rewrite <- Hp. }
    destruct r1 as [|c2 r2].
    { split; [cbn; now rewrite E1|now exists []]. }
    cbn [List.length] in Hl.
    destruct (sp2 c1 c2) eqn:E2.
    { destruct (IH r2) as (H & p & Hp); [lia|].
      split; [exact H|]. exists (c1 :: c2 :: p). cbn. now rewrite <- Hp. }
    destruct r2 as [|c3 r3].
    { split; [cbn; now rewrite E1, E2|now exists []]. }
    cbn [List.length] in Hl.
    destruct (sp3 c1 c2 c3) eqn:E3.
    { destruct (IH r3) as (H & p & Hp); [lia|].
      split; [exact H|]. exists (c1 :: c2 :: c3 :: p). cbn. now rewrite <- Hp. }
    split; [cbn; now rewrite E1, E2, E3|now exists []].
Qed.

Lemma strip_head l : leading sp2 sp3 (strip sp2 sp3 l) = false.
Proof. exact (proj1 (strip_bounded (List.length l) l (le_n _))). Qed.

Lemma strip_suffix l : exists p, l = p ++ strip sp2 sp3 l.
Proof. exact (proj2 (strip_bounded (List.length l) l (le_n _))). Qed.

Lemma leading_app p q :
  leading sp2 sp3 (p ++ q) = false -> leading sp2 sp3 p = false.
Proof.
  destruct p as [|c1 [|c2 [|c3 r]]]; cbn; [reflexivity|..].
  - destruct (isSpace c1); [|reflexivity]. now destruct q as [|? [|? ?]].
  - destruct (isSpace c1); [now destruct q|].
    destruct (sp2 c1 c2); [now destruct q|reflexivity].
  - tauto.
Qed.

End Strip.

(** [trim] is idempotent. *)
Lemma trim_trim t : trim (trim t) = trim t.
Proof.
  unfold trim. rewrite list_ascii_of_string_of_list_ascii. f_equal.
  set (l1 := trimStart (list_ascii_of_string t)).
  assert (H1 : leading isSpace2 isSpace3 l1 = false) by apply strip_head.
  set (spr2 := fun c2 c1 => isSpace2 c1 c2).
  set (spr3 := fun c3 c2 c1 => isSpace3 c1 c2 c3).
  assert (E : trimEnd l1 = rev (strip spr2 spr3 (rev l1))) by reflexivity.
  assert (H2 : trimStart (trimEnd l1) = trimEnd l1).
  { apply strip_fixed.
    destruct (strip_suffix spr2 spr3 (rev l1)) as (p & Hp).
    apply leading_app with (q := rev p).
    rewrite E, <- rev_app_distr, <- Hp, rev_involutive. exact H1. }
  rewrite H2. unfold trimEnd at 1. fold spr2 spr3.
  rewrite E, rev_involutive.
  now rewrite (strip_fixed _ _ _ (strip_head spr2 spr3 (rev l1))).
Qed.

Lemma tidy_updaterText sp atCall t : tidy (mkEntry sp (updaterText atCall t)).
Proof. unfold tidy, updaterText. cbn [text]. destruct atCall; apply trim_trim. Qed.

Lemma frame_same s s' :
  control s' = control s -> miraState s' = miraState s ->
  nextAudioStartTimeRef s' = nextAudioStartTimeRef s ->
  transcriptions s' = transcriptions s -> actions s' = actions s ->
  sessionFrame s s'.
Proof.
  intros H1 H2 H3 H4 H5. constructor; try assumption; [now left| |].
  - exists []. now rewrite app_nil_r.
  - exists []. now rewrite app_nil_r.
Qed.

Lemma frame_mira_set m s : m <> IDLE -> sessionFrame s (set_miraState m s).
Proof.
  intros Hm. constructor; try reflexivity; [now right| |];
    exists []; now rewrite app_nil_r.
Qed.

Lemma frame_entry e b s :
  tidy e ->
  sessionFrame s (set_updaterAtCall b (set_transcriptions (transcriptions s ++ [e]) s)).
Proof.
  intros He. constructor; try reflexivity; [now left| |].
  - exists [e]. split; [reflexivity|now constructor].
  - exists []. now rewrite app_nil_r.
Qed.

Lemma frame_push a s : isChatter a = true -> sessionFrame s (push a s).
Proof.
  intros Ha. constructor; try reflexivity; [now left| |].
  - exists []. now rewrite app_nil_r.
  - exists [a]. split; [reflexivity|now constructor].
Qed.

Ltac frame_step :=
  first
    [ apply preserves_bind;
      [exact sessionFrame_trans| |intros ?]
    | apply preserves_when; [exact sessionFrame_refl|]
    | apply preserves_ret; exact sessionFrame_refl
    | apply preserves_get; exact sessionFrame_refl
    | apply preserves_liftResult; exact sessionFrame_refl
    | apply preserves_modify; intros ?;
      first [ apply frame_same; reflexivity
            | apply frame_mira_set; discriminate
            | apply frame_push; reflexivity ] ].

Lemma frame_flushTurn : preserves sessionFrame flushTurn.
Proof.
  unfold flushTurn.
  apply preserves_bind;
      [exact sessionFrame_trans|repeat frame_step|intros s0].
  apply preserves_bind;
      [exact sessionFrame_trans| |intros _].
  { destruct (nonEmpty (trim (currentInputTranscription s0))) eqn:E;
      [|apply preserves_ret; exact sessionFrame_refl].
    apply preserves_modify. intros s. apply frame_entry, tidy_updaterText. }
  apply preserves_bind;
      [exact sessionFrame_trans| |intros _].
  { destruct (nonEmpty (trim (currentOutputTranscription s0))) eqn:E;
      [|apply preserves_ret; exact sessionFrame_refl].
    apply preserves_modify. intros s. apply frame_entry, tidy_updaterText. }
  repeat frame_step.
Qed.

Section Tools.

Variable generateContent : string -> Location -> result string.
Variable encodeURIComponent : string -> result string.
Variable closureLocation : option Location.

Local Notation "'tools'" := (mockFunctions generateContent encodeURIComponent closureLocation).

(** The handlers of the component only log and set the song. *)
Lemma frame_tools name h args :
  tools name = Some h -> preserves sessionFrame (h args).
Proof.
  intros Hreg. unfold mockFunctions in Hreg.
  destruct (String.eqb name "find_nearby_places").
  - injection Hreg as <-. unfold find_nearby_places.
    apply preserves_bind;
      [exact sessionFrame_trans|repeat frame_step|intros _].
    destruct closureLocation as [l|]; [|repeat frame_step].
    apply preserves_bind;
      [exact sessionFrame_trans|repeat frame_step|intros s'].
    destruct (negb (aiRef s')); [repeat frame_step|].
    destruct (generateContent _ l); repeat frame_step.
  - destruct (String.eqb name "play_spotify_song"); [|discriminate Hreg].
    injection Hreg as <-. unfold play_spotify_song. repeat frame_step.
Qed.

Lemma frame_dispatch calls : preserves sessionFrame (dispatchToolCalls tools calls).
Proof.
  induction calls as [|fc rest IH]; cbn [dispatchToolCalls].
  - repeat frame_step.
  - apply preserves_bind;
      [exact sessionFrame_trans| |intros _; exact IH].
    destruct (tools (fcName fc)) as [h|] eqn:Hreg; [|repeat frame_step].
    apply preserves_bind;
      [exact sessionFrame_trans
      |now apply (frame_tools (fcName fc))|intros text].
    repeat frame_step.
Qed.

Lemma onmessage_frame message now :
  endsWith sessionFrame (audioStep message now) (onmessage tools message now).
Proof.
  unfold onmessage.
  apply endsWith_bind; [exact sessionFrame_trans| |intros _].
  { destruct (inputTranscription message); repeat frame_step. }
  apply endsWith_bind; [exact sessionFrame_trans| |intros _].
  { destruct (outputTranscription message); repeat frame_step. }
  apply endsWith_bind; [exact sessionFrame_trans| |intros _].
  { apply preserves_when; [exact sessionFrame_refl|apply frame_flushTurn]. }
  apply endsWith_bind; [exact sessionFrame_trans| |intros _].
  { destruct (functionCalls message); [|repeat frame_step].
    apply preserves_bind;
      [exact sessionFrame_trans|repeat frame_step|intros _].
    apply frame_dispatch. }
  apply endsWith_last; [exact sessionFrame_refl|].
  intros s. unfold audioStep.
  destruct (inlineAudio message) as [audioData|]; [|now left].
  unfold bind, get. cbn [fst snd].
  destruct (negb (List.length audioData =? 0)%nat) ; cbn [andb when]; [|now left].
  destruct (outputAudioContextRef s) eqn:Ho; cbn [when]; [|now left].
  right. exists audioData. now repeat split.
Qed.

(** The effects do nothing after a callback that leaves their
    dependencies alone but for a conversational state that is not IDLE. *)
Lemma runEffects_quiet prev cur :
  driverState cur = driverState prev -> isEmergency cur = isEmergency prev ->
  permissionsGranted cur = permissionsGranted prev ->
  emergencyCountdown cur = emergencyCountdown prev ->
  locationVersion cur = locationVersion prev ->
  miraState cur = miraState prev \/ miraState cur <> IDLE ->
  unresponsiveNew prev = false ->
  runEffects prev cur = cur.
Proof.
  intros Hd He Hp Hc Hl Hm Hu.
  unfold runEffects.
  assert (Hx : expiryDepsChanged prev cur = false).
  { unfold expiryDepsChanged. now rewrite Hc, Hl, Z.eqb_refl, Nat.eqb_refl. }
  rewrite Hx.
  destruct (escalationDepsChanged prev cur) eqn:Hdep; [|reflexivity].
  apply escalationEffect_skip.
  - unfold drowsyIdle. destruct Hm as [Hm|Hm].
    + unfold escalationDepsChanged in Hdep.
      rewrite Hd, Hm, He, Hp in Hdep.
      now rewrite DriverState_beq_refl, MiraState_beq_refl, !Bool.eqb_reflx in Hdep.
    + destruct (miraState cur); [now elim Hm|..]; apply andb_false_r.
  - unfold unresponsiveNew in *. now rewrite Hd, He.
Qed.

Lemma TimerInvariant_settled s : TimerInvariant s -> unresponsiveNew s = false.
Proof.
  unfold TimerInvariant, unresponsiveNew.
  destruct (isEmergency s); [intros _; apply andb_false_r|].
  intros [Hd _]. destruct (driverState s); try reflexivity. now elim Hd.
Qed.

Lemma step_models s : step tools ModelsLoaded s = set_modelsLoaded true s.
Proof. unfold step, enabled, handle. apply render_sameDeps. repeat split. Qed.

Lemma step_queue clean s :
  step tools (UpdateQueue clean) s = set_updaterAtCall clean s.
Proof. unfold step, enabled, handle. apply render_sameDeps. repeat split. Qed.

Lemma step_error s :
  sessionPromiseRef s = true -> step tools SessionError s = onerror s.
Proof.
  intros H. unfold step, enabled, handle. rewrite H.
  apply render_sameDeps. repeat split.
Qed.

Lemma step_media s :
  TimerInvariant s -> modelsLoaded s = true ->
  (driverState s = DROWSY -> miraState s <> IDLE) ->
  step tools MediaGranted s = set_permissionsGranted true s.
Proof.
  intros Hinv Hm Hesc. unfold step, enabled, handle. rewrite Hm, render_runEffects.
  unfold runEffects.
  assert (Hx : expiryDepsChanged s (set_permissionsGranted true s) = false).
  { unfold expiryDepsChanged. cbn. now rewrite Z.eqb_refl, Nat.eqb_refl. }
  rewrite Hx.
  destruct (escalationDepsChanged _ _); [|reflexivity].
  apply escalationEffect_skip.
  - unfold drowsyIdle. cbn.
    destruct (driverState s) eqn:Hd; try reflexivity.
    specialize (Hesc eq_refl). destruct (miraState s); [now elim Hesc|..]; reflexivity.
  - apply (TimerInvariant_settled s) in Hinv. exact Hinv.
Qed.

Lemma step_location registry s loc :
  permissionsGranted s = true ->
  step registry (LocationUpdate loc) s =
  let cur := set_locationVersion (S (locationVersion s)) (set_location (Some loc) s) in
  expiryEffect cur cur.
Proof.
  intros Hp. unfold step, enabled, handle. rewrite Hp, render_runEffects.
  unfold runEffects.
  rewrite escalationDepsChanged_same by reflexivity.
  unfold expiryDepsChanged. cbn [locationVersion set_locationVersion].
  replace (locationVersion s =? S (locationVersion s))%nat with false
    by (symmetry; apply Nat.eqb_neq; lia).
  now rewrite orb_true_r.
Qed.

Lemma step_timer s t :
  existsb (Pos.eqb t) (intervals s) = true ->
  step tools (TimerFire t) s = expiryEffect (emergencyTick s) (emergencyTick s).
Proof.
  intros Hlive. unfold step, enabled, handle. rewrite Hlive, render_runEffects.
  unfold runEffects.
  rewrite escalationDepsChanged_same by reflexivity.
  unfold expiryDepsChanged, emergencyTick. cbn [emergencyCountdown set_emergencyCountdown].
  replace (emergencyCountdown s =? emergencyCountdown s - 1)%Z with false
    by (symmetry; apply Z.eqb_neq; lia).
  reflexivity.
Qed.

Lemma step_message s message now :
  TimerInvariant s -> sessionPromiseRef s = true ->
  step tools (SessionMessage message now) s = exec (onmessage tools message now) s.
Proof.
  intros Hinv Hs. unfold step, enabled, handle. rewrite Hs, render_runEffects.
  destruct (keeps_onmessage tools (mockFunctions_benign _ _ _) message now s)
    as (H1 & H2 & H3 & H4 & H5 & H6 & H7 & H8).
  apply runEffects_quiet; try assumption.
  now apply TimerInvariant_settled.
Qed.

Lemma step_close s :
  TimerInvariant s -> sessionPromiseRef s = true ->
  (driverState s = DROWSY -> miraState s <> IDLE) ->
  step tools SessionClose s =
  let cur := onclose s in
  if DriverState_beq (driverState s) DROWSY
  then set_driverState ENGAGED (startLiveSession cur cur)
  else cur.
Proof.
  intros Hinv Hs Hesc. unfold step, enabled, handle. rewrite Hs, render_runEffects.
  cbv zeta. unfold runEffects.
  assert (Hx : expiryDepsChanged s (onclose s) = false).
  { unfold expiryDepsChanged. cbn. now rewrite Z.eqb_refl, Nat.eqb_refl. }
  rewrite Hx.
  assert (Hu : unresponsiveNew (onclose s) = false)
    by (apply (TimerInvariant_settled s) in Hinv; exact Hinv).
  destruct (DriverState_beq (driverState s) DROWSY) eqn:Hd.
  - apply DriverState_beq_eq in Hd. specialize (Hesc Hd).
    assert (Hdep : escalationDepsChanged s (onclose s) = true).
    { unfold escalationDepsChanged. cbn.
      rewrite DriverState_beq_refl, !Bool.eqb_reflx.
      destruct (miraState s); [now elim Hesc|..]; reflexivity. }
    rewrite Hdep. rewrite escalationEffect_drowsy by exact Hd. reflexivity.
  - destruct (escalationDepsChanged _ _); [|reflexivity].
    apply escalationEffect_skip; [|exact Hu].
    unfold drowsyIdle. cbn. now rewrite Hd.
Qed.

(** The outcomes of a detection tick while the loop runs. *)
Lemma detectionCallback_outcomes s inp :
  exists c m,
    let base := withCounters c m s in
    exec (detectionCallback inp) s = base
    \/ exec (detectionCallback inp) s
       = set_driverState DROWSY (push (ConsoleLog msgDrowsy) base)
    \/ ((CONSECUTIVE_FRAMES_UNRESPONSIVE < m)%nat
        /\ exec (detectionCallback inp) s
           = set_driverState UNRESPONSIVE (push (ConsoleLog msgUnresponsive) base)).
Proof.
  destruct inp as [[|] [d|]].
  - destruct (sampleEAR d) as [ear|e] eqn:Hear.
    + rewrite (detectionCallback_ear s d ear Hear). cbv zeta.
      exists (if (ear <? EAR_THRESHOLD)%float
              then S (eyeClosedFramesRef s) else 0%nat), 0%nat.
      destruct (CONSECUTIVE_FRAMES_DROWSY <? _)%nat; [right|]; now left.
    + exists (eyeClosedFramesRef s), 0%nat. left.
      unfold sampleEAR in Hear.
      unfold exec, detectionCallback, bind, modify, liftResult.
      cbn [videoPlaying detections].
      destruct (getEyeAspectRatio (leftEye d)) as [l|]; [|reflexivity].
      destruct (getEyeAspectRatio (rightEye d)) as [r|]; [discriminate Hear|reflexivity].
  - exists (eyeClosedFramesRef s), (S (noFaceFramesRef s)).
    assert (Hno : noFace (mkInput true None) = true) by reflexivity.
    rewrite (detectionCallback_noFace s _ Hno). cbv zeta.
    destruct (CONSECUTIVE_FRAMES_UNRESPONSIVE <? S (noFaceFramesRef s))%nat eqn:E.
    + right. right. apply Nat.ltb_lt in E. split; [exact E|]. destruct s; reflexivity.
    + left. destruct s; reflexivity.
  - exists (eyeClosedFramesRef s), (noFaceFramesRef s). left.
    now rewrite withCounters_same.
  - exists (eyeClosedFramesRef s), (noFaceFramesRef s). left.
    now rewrite withCounters_same.
Qed.

Lemma step_detection s inp :
  detectionActive s = true -> TimerInvariant s ->
  exists c m,
    let base := withCounters c m s in
    let drowsy := set_driverState DROWSY (push (ConsoleLog msgDrowsy) base) in
    let gone := set_driverState UNRESPONSIVE (push (ConsoleLog msgUnresponsive) base) in
    step tools (DetectionTick inp) s = base
    \/ step tools (DetectionTick inp) s
       = (if MiraState_beq (miraState s) IDLE
          then set_driverState ENGAGED (startLiveSession drowsy drowsy)
          else drowsy)
    \/ ((CONSECUTIVE_FRAMES_UNRESPONSIVE < m)%nat
        /\ step tools (DetectionTick inp) s = beginEmergency gone).
Proof.
  intros Hact Hinv.
  pose proof (detectionActive_driver s Hact) as Hmon.
  destruct (TimerInvariant_calm s Hinv) as [He Hi]; [now rewrite Hmon|].
  unfold step, enabled. rewrite Hact, render_runEffects. unfold handle.
  destruct (detectionCallback_outcomes s inp) as (c & m & [H|[H|[Hm H]]]);
    cbv zeta in H; rewrite H; exists c, m; cbv zeta.
  - left. apply runEffects_sameDeps. repeat split.
  - right. left.
    rewrite runEffects_driver; [|cbn; rewrite Hmon; discriminate|repeat split].
    now rewrite escalationEffect_drowsy.
  - right. right. split; [exact Hm|].
    rewrite runEffects_driver; [|cbn; rewrite Hmon; discriminate|repeat split].
    rewrite escalationEffect_unresponsive by reflexivity.
    cbn [isEmergency set_driverState push set_actions withCounters
         set_eyeClosedFramesRef set_noFaceFramesRef].
    now rewrite He.
Qed.

Lemma sequential_raise l : forall t c c',
  (0 <=? t)%float = true -> (c <=? c')%float = true ->
  sequential t l c -> sequential t l c'.
Proof.
  induction l as [|a l IH]; intros t c c' Ht Hc; cbn.
  - intros H. now apply (float_leb_trans _ c).
  - destruct a as [| | | | | |w d]; try (apply IH; assumption).
    intros (H1 & H2 & H3 & H4). repeat split; try assumption.
    apply (IH _ c); [|assumption|assumption].
    apply (float_leb_trans _ w); [reflexivity| |exact H3].
    now apply (float_leb_trans _ t).
Qed.

Lemma sequential_app_other l added : forall t c,
  Forall (fun a => match a with StartSource _ _ => False | _ => True end) added ->
  sequential t l c -> sequential t (l ++ added) c.
Proof.
  induction l as [|a l IH]; intros t c Hadd; cbn.
  - intros H. induction Hadd as [|a added Ha _ IH']; [exact H|].
    destruct a; try exact IH'. now elim Ha.
  - destruct a; try (apply IH; assumption).
    intros (H1 & H2 & H3 & H4). repeat split; try assumption. now apply IH.
Qed.

Lemma sequential_start l : forall t c w d,
  (0 <=? t)%float = true -> (c <=? w)%float = true ->
  (0 <=? d)%float = true -> (w <=? w + d)%float = true ->
  (0 <=? w + d)%float = true ->
  sequential t l c -> sequential t (l ++ [StartSource w d]) (w + d)%float.
Proof.
  induction l as [|a l IH]; intros t c w d Ht Hw Hd Hwd Hp; cbn.
  - intros H. repeat split; try assumption.
    + now apply (float_leb_trans _ c).
    + apply float_leb_refl. now apply nonneg_not_nan.
  - destruct a as [| | | | | |w' d']; try (apply IH; assumption).
    intros (H1 & H2 & H3 & H4). repeat split; try assumption.
    apply (IH _ c); try assumption.
    apply (float_leb_trans _ w'); [reflexivity| |exact H3].
    now apply (float_leb_trans _ t).
Qed.

Lemma Scheduled_app_other l added c :
  Forall (fun a => match a with StartSource _ _ => False | _ => True end) added ->
  Scheduled l c -> Scheduled (l ++ added) c.
Proof.
  intros Hadd H Hn. destruct (H Hn) as [H0 Hs].
  split; [exact H0|now apply sequential_app_other].
Qed.

Lemma Scheduled_push_other a l c :
  match a with StartSource _ _ => False | _ => True end ->
  Scheduled l c -> Scheduled (l ++ [a]) c.
Proof. intros Ha. apply Scheduled_app_other. now constructor. Qed.

(** The cursor is moved up to the clock. *)
Lemma Scheduled_raise l c now :
  Scheduled l c -> Scheduled l (Math_max c now).
Proof.
  intros H Hn. destruct (Math_max_nan _ _ Hn) as [Hc Hnow].
  destruct (H Hc) as [H0 Hs].
  destruct (Math_max_ge c now H0 Hnow) as [H1 H2].
  split; [exact H2|]. now apply (sequential_raise _ _ c).
Qed.

(** A source is started at the cursor, moved up to the clock. *)
Lemma Scheduled_start l c now d :
  (0 <=? d)%float = true ->
  Scheduled l c ->
  Scheduled (l ++ [StartSource (Math_max c now) d]) (Math_max c now + d)%float.
Proof.
  intros Hd H Hn.
  destruct (Math_max_nan _ _ (is_nan_add _ _ Hn)) as [Hc Hnow].
  destruct (H Hc) as [H0 Hs].
  destruct (Math_max_ge c now H0 Hnow) as [H1 H2].
  destruct (float_add_ge _ d H2 Hd) as [H3 H4].
  split; [exact H4|]. now apply (sequential_start _ _ c).
Qed.

Lemma chatter_other added :
  Forall (fun a => isChatter a = true) added ->
  Forall (fun a => match a with StartSource _ _ => False | _ => True end) added.
Proof.
  intros H. eapply Forall_impl; [|exact H].
  intros [] Ha; try exact I. discriminate Ha.
Qed.

(** A state that differs from a coherent one only outside of what the
    invariant reads. *)
Lemma Coherent_same s s' :
  control s' = control s -> miraState s' = miraState s ->
  transcriptions s' = transcriptions s ->
  Scheduled (actions s') (nextAudioStartTimeRef s') ->
  Coherent s -> Coherent s'.
Proof.
  unfold control.
  intros [= H1 H2 H3 H4 H5 H6 H7 H8 H9 H10 H11 H12 H13 H14 H15 H16] Hm Ht Ha
         [C1 C2 C3 C4 C5 C6 C7 C8 C9 C10 C11].
  constructor; unfold TimerInvariant in *;
    rewrite ?H1, ?H2, ?H3, ?H4, ?H5, ?H6, ?H7, ?H8, ?H9, ?H10, ?H11, ?H12,
      ?H13, ?H14, ?H15, ?H16, ?Hm, ?Ht; assumption.
Qed.

Lemma Coherent_frame s s1 :
  Coherent s -> sessionPromiseRef s = true -> sessionFrame s s1 -> Coherent s1.
Proof.
  intros [C1 C2 C3 C4 C5 C6 C7 C8 C9 C10 C11] Hs
         [F1 F2 F3 (ta & F4 & F5) (aa & F6 & F7)].
  unfold control in F1.
  injection F1 as H1 H2 H3 H4 H5 H6 H7 H8 H9 H10 H11 H12 H13 H14 H15 H16.
  constructor; unfold TimerInvariant in *;
    rewrite ?H1, ?H2, ?H3, ?H4, ?H5, ?H6, ?H7, ?H8, ?H9, ?H10, ?H11, ?H12,
      ?H13, ?H14, ?H15, ?H16; try assumption.
  - intros _. exact Hs.
  - intros Ha. specialize (C8 Ha).
    destruct F2 as [F2|F2]; [now rewrite F2|exact F2].
  - intros Hd. specialize (C9 Hd).
    destruct F2 as [F2|F2]; [now rewrite F2|exact F2].
  - rewrite F4. now apply Forall_app.
  - rewrite F6, F3.
    apply Scheduled_app_other; [now apply chatter_other|exact C11].
Qed.

Lemma expiryEffect_coherent cur :
  Coherent cur ->
  Coherent (expiryEffect cur cur) /\ Running (expiryEffect cur cur).
Proof.
  intros Hcoh. split.
  - pose proof (expiryEffect_inv cur cur (coh_timer _ Hcoh)) as Hinv.
    destruct Hcoh as [C1 C2 C3 C4 C5 C6 C7 C8 C9 C10 C11].
    unfold expiryEffect in *.
    destruct (emergencyCountdown cur <=? 0)%Z; [|now constructor].
    constructor; try exact Hinv; unfold clearEmergencyTimer in *;
      destruct (emergencyTimerRef cur); cbn in *; try assumption;
      try discriminate; try (intros H; now elim H);
      now apply Scheduled_push_other.
  - unfold Running, expiryEffect.
    destruct (emergencyCountdown cur <=? 0)%Z eqn:E; cbn; [discriminate|].
    intros _. apply Z.leb_gt in E. lia.
Qed.

Lemma startLiveSession_coherent snap acc :
  Coherent acc -> permissionsGranted acc = true ->
  Coherent (startLiveSession snap acc).
Proof.
  intros [C1 C2 C3 C4 C5 C6 C7 C8 C9 C10 C11] Hp.
  unfold startLiveSession.
  destruct (negb (permissionsGranted snap) || negb (aiRef acc)) eqn:E;
    [now constructor|].
  apply orb_false_elim in E. destruct E as [_ E]. apply negb_false_iff in E.
  destruct (DriverState_beq (driverState snap) DROWSY);
    constructor; unfold TimerInvariant in *; cbn in *; try assumption;
    try discriminate; try (intros _; now repeat split);
    repeat apply Scheduled_push_other; try exact I; assumption.
Qed.

Lemma startLiveSession_engaged snap acc :
  set_driverState ENGAGED (startLiveSession snap acc)
  = startLiveSession snap (set_driverState ENGAGED acc).
Proof.
  unfold startLiveSession. cbn [permissionsGranted aiRef set_driverState].
  destruct (negb (permissionsGranted snap) || negb (aiRef acc)); [reflexivity|].
  destruct (DriverState_beq (driverState snap) DROWSY); reflexivity.
Qed.

(** Coherence is kept by: the models arrive. *)
Lemma coherent_models s  :
  Coherent s -> Running s -> enabled ModelsLoaded s = true ->
  Coherent (step tools ModelsLoaded s) /\ Running (step tools ModelsLoaded s).
Proof.
  intros Hcoh Hrun Hen.
  pose proof (coh_timer _ Hcoh) as Hinv.
  cbn [enabled] in Hen.
  rewrite step_models. split; [|exact Hrun].
  destruct Hcoh as [C1 C2 C3 C4 C5 C6 C7 C8 C9 C10 C11].
  constructor; unfold TimerInvariant in *; cbn in *; auto.
Qed.

(** Coherence is kept by: media access is granted. *)
Lemma coherent_media s  :
  Coherent s -> Running s -> enabled MediaGranted s = true ->
  Coherent (step tools MediaGranted s) /\ Running (step tools MediaGranted s).
Proof.
  intros Hcoh Hrun Hen.
  pose proof (coh_timer _ Hcoh) as Hinv.
  cbn [enabled] in Hen.
  rewrite step_media; [|exact Hinv|exact Hen|apply (coh_escalated _ Hcoh)].
  split; [|exact Hrun].
  destruct Hcoh as [C1 C2 C3 C4 C5 C6 C7 C8 C9 C10 C11].
  constructor; unfold TimerInvariant in *; cbn in *; auto.
  intros Hs. destruct (C7 Hs) as (? & ? & ?). now repeat split.
Qed.

Lemma coherent_cur_location s loc :
  Coherent s ->
  Coherent (set_locationVersion (S (locationVersion s)) (set_location (Some loc) s)).
Proof.
  intros [C1 C2 C3 C4 C5 C6 C7 C8 C9 C10 C11]. now constructor.
Qed.

Lemma coherent_cur_tick s t :
  Coherent s -> Running s ->
  existsb (Pos.eqb t) (intervals s) = true ->
  Coherent (emergencyTick s).
Proof.
  intros Hcoh Hrun Hen.
  pose proof (coh_timer _ Hcoh) as Hinv.
  assert (He : isEmergency s = true).
  { destruct (isEmergency s) eqn:E; [reflexivity|].
    unfold TimerInvariant in Hinv. rewrite E in Hinv. destruct Hinv as [_ Hi].
    rewrite Hi in Hen. discriminate Hen. }
  specialize (Hrun He).
  destruct Hcoh as [C1 C2 C3 C4 C5 C6 C7 C8 C9 C10 C11].
  unfold emergencyTick.
  constructor; try assumption.
  cbn. lia.
Qed.

(** Coherence is kept by: a position update. *)
Lemma coherent_location s loc :
  Coherent s -> Running s -> enabled (LocationUpdate loc) s = true ->
  Coherent (step tools (LocationUpdate loc) s) /\ Running (step tools (LocationUpdate loc) s).
Proof.
  intros Hcoh Hrun Hen.
  pose proof (coh_timer _ Hcoh) as Hinv.
  cbn [enabled] in Hen.
  rewrite (step_location tools) by exact Hen. cbv zeta.
  apply expiryEffect_coherent.
  destruct Hcoh as [C1 C2 C3 C4 C5 C6 C7 C8 C9 C10 C11].
  constructor; unfold TimerInvariant in *; cbn in *; auto.
Qed.

Lemma Coherent_push a s :
  match a with StartSource _ _ => False | _ => True end ->
  Coherent s -> Coherent (push a s).
Proof.
  intros Ha Hcoh. apply (Coherent_same s); try reflexivity; [|exact Hcoh].
  apply Scheduled_push_other; [exact Ha|apply (coh_audio _ Hcoh)].
Qed.

Lemma Coherent_counters c m s :
  isEmergency s = false -> Coherent s -> Coherent (withCounters c m s).
Proof.
  intros He [C1 C2 C3 C4 C5 C6 C7 C8 C9 C10 C11].
  constructor; try assumption.
  intros H. change (isEmergency s = true) in H. congruence.
Qed.

Lemma Coherent_driver d s :
  d <> UNRESPONSIVE -> isEmergency s = false -> permissionsGranted s = true ->
  (d = DROWSY -> miraState s <> IDLE) ->
  Coherent s -> Coherent (set_driverState d s).
Proof.
  intros Hd He Hp Hm [C1 C2 C3 C4 C5 C6 C7 C8 C9 C10 C11].
  constructor; try assumption.
  - unfold TimerInvariant in *.
    change (isEmergency (set_driverState d s)) with (isEmergency s).
    rewrite He in *. split; [exact Hd|now destruct C1].
  - intros _. exact Hp.
Qed.

Lemma Coherent_begin s :
  Coherent s -> isEmergency s = false -> permissionsGranted s = true ->
  (CONSECUTIVE_FRAMES_UNRESPONSIVE < noFaceFramesRef s)%nat ->
  Coherent (beginEmergency (set_driverState UNRESPONSIVE s))
  /\ Running (beginEmergency (set_driverState UNRESPONSIVE s)).
Proof.
  intros Hcoh He Hp Hm.
  assert (Hi : intervals s = []).
  { pose proof (coh_timer _ Hcoh) as Hinv. unfold TimerInvariant in Hinv.
    rewrite He in Hinv. now destruct Hinv. }
  pose proof (beginEmergency_inv (set_driverState UNRESPONSIVE s) eq_refl Hi) as Hb.
  assert (Hfields :
    let r := beginEmergency (set_driverState UNRESPONSIVE s) in
    isEmergency r = true /\ emergencyCountdown r = 15%Z
    /\ noFaceFramesRef r = noFaceFramesRef s
    /\ permissionsGranted r = permissionsGranted s
    /\ modelsLoaded r = modelsLoaded s
    /\ driverState r = UNRESPONSIVE
    /\ miraState r = miraState s
    /\ sessionPromiseRef r = sessionPromiseRef s
    /\ aiRef r = aiRef s
    /\ outputAudioContextRef r = outputAudioContextRef s
    /\ analyserNode r = analyserNode s
    /\ transcriptions r = transcriptions s
    /\ nextAudioStartTimeRef r = nextAudioStartTimeRef s
    /\ actions r = actions s
                   ++ (if sessionPromiseRef s then [SendText promptUnresponsive] else [])).
  { cbv zeta. unfold beginEmergency, startEmergencyTimer. cbn.
    destruct (sessionPromiseRef s) eqn:Hs; cbn; rewrite ?Hs, ?app_nil_r;
      repeat split. }
  cbv zeta in Hfields.
  destruct Hfields as (F1 & F2 & F3 & F4 & F5 & F6 & F7 & F8 & F9 & F10 & F11
                       & F12 & F13 & F14).
  destruct Hcoh as [C1 C2 C3 C4 C5 C6 C7 C8 C9 C10 C11].
  split.
  - constructor; rewrite ?F1, ?F2, ?F3, ?F4, ?F5, ?F6, ?F7, ?F8, ?F9, ?F10, ?F11,
      ?F12, ?F13, ?F14; try assumption.
    + lia.
    + intros _. exact Hm.
    + intros _. exact Hp.
    + discriminate.
    + apply Scheduled_app_other; [|exact C11].
      destruct (sessionPromiseRef s); repeat constructor.
  - unfold Running. rewrite F2. lia.
Qed.

(** Coherence is kept by: a detection tick. *)
Lemma coherent_tick s inp :
  Coherent s -> Running s -> enabled (DetectionTick inp) s = true ->
  Coherent (step tools (DetectionTick inp) s) /\ Running (step tools (DetectionTick inp) s).
Proof.
  intros Hcoh Hrun Hen.
  pose proof (coh_timer _ Hcoh) as Hinv.
  cbn [enabled] in Hen.
  pose proof (detectionActive_driver s Hen) as Hmon.
  destruct (TimerInvariant_calm s Hinv) as [He Hi]; [now rewrite Hmon|].
  assert (Hp : permissionsGranted s = true).
  { unfold detectionActive in Hen.
    now destruct (permissionsGranted s). }
  destruct (step_detection s inp Hen Hinv) as (c & m & [H|[H|[Hm H]]]);
    cbv zeta in H; rewrite H; clear H.
  - split; [|exact Hrun]. now apply Coherent_counters.
  - assert (Hlog : Coherent (push (ConsoleLog msgDrowsy) (withCounters c m s)))
      by (apply Coherent_push; [exact I|now apply Coherent_counters]).
    destruct (MiraState_beq (miraState s) IDLE) eqn:Hidle.
    + rewrite startLiveSession_engaged. split.
      * apply startLiveSession_coherent; [|exact Hp].
        change (Coherent (set_driverState ENGAGED
                  (push (ConsoleLog msgDrowsy) (withCounters c m s)))).
        apply Coherent_driver; try assumption; discriminate.
      * unfold Running.
        match goal with
        | |- context [startLiveSession ?a ?b] =>
            destruct (startLiveSession_deps a b) as (_ & E2 & _ & E4 & _)
        end.
        rewrite E2, E4. exact Hrun.
    + split; [|exact Hrun].
      apply Coherent_driver; try assumption; try discriminate.
      intros _ Hm. change (miraState s = IDLE) in Hm. rewrite Hm in Hidle.
      discriminate Hidle.
  - apply (Coherent_begin
             (push (ConsoleLog msgUnresponsive) (withCounters c m s)));
      try assumption.
    apply Coherent_push; [exact I|now apply Coherent_counters].
Qed.

(** Coherence is kept by: a firing of the interval. *)
Lemma coherent_fire s t :
  Coherent s -> Running s -> enabled (TimerFire t) s = true ->
  Coherent (step tools (TimerFire t) s) /\ Running (step tools (TimerFire t) s).
Proof.
  intros Hcoh Hrun Hen.
  pose proof (coh_timer _ Hcoh) as Hinv.
  cbn [enabled] in Hen.
  rewrite step_timer by exact Hen.
  apply expiryEffect_coherent.
  assert (He : isEmergency s = true).
  { destruct (isEmergency s) eqn:E; [reflexivity|].
    destruct (TimerInvariant_calm s Hinv) as [_ Hi].
    - unfold TimerInvariant in Hinv. rewrite E in Hinv. now destruct Hinv.
    - rewrite Hi in Hen. discriminate Hen. }
  specialize (Hrun He).
  destruct Hcoh as [C1 C2 C3 C4 C5 C6 C7 C8 C9 C10 C11].
  unfold emergencyTick.
  constructor; unfold TimerInvariant in *; cbn in *; auto. lia.
Qed.

(** Coherence is kept by: the acknowledgment. *)
Lemma coherent_cancel s  :
  Coherent s -> Running s -> enabled ClickImOkay s = true ->
  Coherent (step tools ClickImOkay s) /\ Running (step tools ClickImOkay s).
Proof.
  intros Hcoh Hrun Hen.
  pose proof (coh_timer _ Hcoh) as Hinv.
  cbn [enabled] in Hen.
  rewrite step_cancel by exact Hen.
  assert (Hc : TimerInvariant (cancelEmergency s)).
  { unfold TimerInvariant in *. rewrite Hen in Hinv.
    destruct Hinv as (_ & t & Hr & Hi).
    unfold cancelEmergency, clearEmergencyTimer. rewrite Hr. cbn. rewrite Hi. cbn.
    split; [discriminate|].
    destruct (Pos.eq_dec t t) as [_|Hne]; [reflexivity|now elim Hne]. }
  split; [|unfold Running, cancelEmergency; cbn; discriminate].
  destruct Hcoh as [C1 C2 C3 C4 C5 C6 C7 C8 C9 C10 C11].
  constructor; try exact Hc; unfold cancelEmergency, clearEmergencyTimer in *;
    destruct (emergencyTimerRef s); cbn in *; auto; try discriminate;
    try (intros H; now elim H).
  + apply Forall_app. split; [assumption|]. constructor; [|constructor].
    split; reflexivity.
  + apply Forall_app. split; [assumption|]. constructor; [|constructor].
    split; reflexivity.
Qed.

(** Coherence is kept by: a message of the session. *)
Lemma coherent_message s message now :
  Coherent s -> Running s -> enabled (SessionMessage message now) s = true ->
  Coherent (step tools (SessionMessage message now) s) /\ Running (step tools (SessionMessage message now) s).
Proof.
  intros Hcoh Hrun Hen.
  pose proof (coh_timer _ Hcoh) as Hinv.
  cbn [enabled] in Hen.
  rewrite step_message by assumption.
  destruct (onmessage_frame message now s) as (s1 & Hf & Hlast).
  pose proof (Coherent_frame s s1 Hcoh Hen Hf) as Hc1.
  assert (Hr1 : Running s1).
  { destruct Hf as [F1 _ _ _ _]. unfold control in F1.
    injection F1 as H1 H2 H3 H4 H5 H6 H7 H8 H9 H10 H11 H12 H13 H14 H15 H16.
    unfold Running. now rewrite H6, H7. }
  unfold exec.
  destruct Hlast as [Hl|[Hl|(audioData & Ha & Ho & Hl)]]; rewrite Hl;
    try now split.
  rewrite scheduleAudio_exec. cbv zeta. unfold cursor.
  destruct (chunk audioData) as [b|e] eqn:Hb.
  + split; [|exact Hr1].
    apply (Coherent_same s1); try reflexivity; [|exact Hc1].
    cbn [actions nextAudioStartTimeRef set_nextAudioStartTimeRef push set_actions].
    apply Scheduled_start; [now apply (chunk_duration audioData)|].
    apply (coh_audio _ Hc1).
  + split; [|exact Hr1].
    apply (Coherent_same s1); try reflexivity; [|exact Hc1].
    cbn [actions nextAudioStartTimeRef set_nextAudioStartTimeRef].
    apply Scheduled_raise, (coh_audio _ Hc1).
Qed.

(** Coherence is kept by: an error of the session. *)
Lemma coherent_error s  :
  Coherent s -> Running s -> enabled SessionError s = true ->
  Coherent (step tools SessionError s) /\ Running (step tools SessionError s).
Proof.
  intros Hcoh Hrun Hen.
  pose proof (coh_timer _ Hcoh) as Hinv.
  cbn [enabled] in Hen.
  rewrite step_error by exact Hen. split; [|exact Hrun].
  apply (Coherent_same s); try reflexivity; [|exact Hcoh].
  cbn. apply Scheduled_push_other; [exact I|apply (coh_audio _ Hcoh)].
Qed.

(** Coherence is kept by: the session closes. *)
Lemma coherent_close s  :
  Coherent s -> Running s -> enabled SessionClose s = true ->
  Coherent (step tools SessionClose s) /\ Running (step tools SessionClose s).
Proof.
  intros Hcoh Hrun Hen.
  pose proof (coh_timer _ Hcoh) as Hinv.
  cbn [enabled] in Hen.
  rewrite step_close; [|exact Hinv|exact Hen|apply (coh_escalated _ Hcoh)].
  cbv zeta.
  destruct (coh_client _ Hcoh Hen) as (Hai & Hp & Ho).
  destruct (DriverState_beq (driverState s) DROWSY) eqn:Hd.
  + apply DriverState_beq_eq in Hd.
    rewrite startLiveSession_engaged. split.
    * apply startLiveSession_coherent; [|exact Hp].
      destruct (TimerInvariant_calm s Hinv) as [He Hi]; [now rewrite Hd|].
      destruct Hcoh as [C1 C2 C3 C4 C5 C6 C7 C8 C9 C10 C11].
      unfold onclose.
      constructor; unfold TimerInvariant in *; cbn in *;
        try assumption; try discriminate; try (intros H; now elim H).
      -- rewrite He in *. split; [discriminate|now destruct C1].
      -- intros _. exact Hp.
      -- now apply Scheduled_push_other.
    * unfold Running.
      destruct (startLiveSession_deps (onclose s) (set_driverState ENGAGED (onclose s)))
        as (_ & E2 & _ & E4 & _).
      rewrite E2, E4. exact Hrun.
  + split; [|exact Hrun].
    destruct Hcoh as [C1 C2 C3 C4 C5 C6 C7 C8 C9 C10 C11].
    unfold onclose.
    constructor; unfold TimerInvariant in *; cbn in *;
      try assumption; try discriminate; try (intros H; now elim H).
    * intros H. rewrite H in Hd. discriminate Hd.
    * now apply Scheduled_push_other.
Qed.

(** Coherence is kept by: React settles its update queue. *)
Lemma coherent_queue clean s :
  Coherent s -> Running s ->
  Coherent (step tools (UpdateQueue clean) s)
  /\ Running (step tools (UpdateQueue clean) s).
Proof.
  intros Hcoh Hrun. rewrite step_queue. split; [|exact Hrun].
  destruct Hcoh as [C1 C2 C3 C4 C5 C6 C7 C8 C9 C10 C11].
  constructor; unfold TimerInvariant in *; cbn in *; auto.
Qed.

Lemma step_coherent ev s :
  Coherent s -> Running s ->
  Coherent (step tools ev s) /\ Running (step tools ev s).
Proof.
  intros Hcoh Hrun.
  destruct (enabled ev s) eqn:Hen.
  - destruct ev;
      [ now apply coherent_models | now apply coherent_media
      | now apply coherent_location | now apply coherent_tick
      | now apply coherent_fire | now apply coherent_cancel
      | now apply coherent_message | now apply coherent_error
      | now apply coherent_close | now apply coherent_queue ].
  - unfold step. rewrite Hen. now split.
Qed.

Lemma onmessage_messageFrame message now s :
  messageFrame s (exec (onmessage tools message now) s).
Proof.
  destruct (onmessage_frame message now s) as (s1 & [F1 F2 F3 F4 (aa & F5 & F6)] & Hlast).
  assert (Hout : Forall (fun a => isSessionOutput a = true) aa).
  { eapply Forall_impl; [|exact F6]. intros [] Ha; (reflexivity || discriminate Ha). }
  unfold exec.
  destruct Hlast as [Hl|[Hl|(audioData & Ha & Ho & Hl)]]; rewrite Hl.
  - constructor; try assumption. now exists aa.
  - constructor; try assumption. now exists aa.
  - rewrite scheduleAudio_exec. cbv zeta.
    destruct (chunk audioData) as [b|e].
    + constructor; try assumption.
      exists (aa ++ [StartSource (Math_max (cursor s1) now) (duration b)]).
      cbn. rewrite F5, app_assoc. split; [reflexivity|].
      apply Forall_app. split; [exact Hout|now repeat constructor].
    + constructor; try assumption. now exists aa.
Qed.

Lemma expiryEffect_actions cur :
  actions (expiryEffect cur cur) =
  actions cur ++ (if (emergencyCountdown cur <=? 0)%Z
                  then [NotifyEmergencyContact emergencyContact (location cur)]
                  else []).
Proof.
  unfold expiryEffect, clearEmergencyTimer.
  destruct (emergencyCountdown cur <=? 0)%Z; [|now rewrite app_nil_r].
  destruct (emergencyTimerRef cur); reflexivity.
Qed.

Lemma init_coherent apiKey : Coherent (init apiKey) /\ Running (init apiKey).
Proof.
  split; [|unfold Running; cbn; discriminate].
  constructor; unfold TimerInvariant;
    cbn -[Scheduled initializeAi];
    try discriminate; try (intros H; now elim H);
    first [now split | lia | constructor | idtac].
  - reflexivity.
  - now destruct apiKey.
Qed.

Lemma run_coherent evs : forall s,
  Coherent s -> Running s ->
  Coherent (run tools evs s) /\ Running (run tools evs s).
Proof.
  induction evs as [|ev evs IH]; intros s Hc Hr; [now split|].
  cbn [run fold_left].
  destruct (step_coherent ev s Hc Hr) as [Hc' Hr']. now apply IH.
Qed.

Lemma reachable_coherent evs apiKey :
  Coherent (run tools evs (init apiKey)) /\ Running (run tools evs (init apiKey)).
Proof.
  destruct (init_coherent apiKey) as [Hc Hr]. now apply run_coherent.
Qed.

(** X1. In every state the component reaches, the countdown is between 0 and
    15.  A driver state of UNRESPONSIVE comes with an emergency that is
    on.  While an emergency is on the countdown is at least 1 and exactly
    one interval timer is live, the one the reference holds; outside an
    emergency no interval timer is live. *)
Theorem emergency_state_coherent (evs : list Event) (apiKey : bool) :
  let s := run tools evs (init apiKey) in
  (0 <= emergencyCountdown s <= 15)%Z
  /\ (driverState s = UNRESPONSIVE -> isEmergency s = true)
  /\ (isEmergency s = true ->
      (1 <= emergencyCountdown s)%Z
      /\ exists t, emergencyTimerRef s = Some t /\ intervals s = [t])
  /\ (isEmergency s = false -> intervals s = []).
Proof.
  intros s. destruct (reachable_coherent evs apiKey) as [Hc Hr]. fold s in Hc, Hr.
  pose proof (coh_timer _ Hc) as Hinv. unfold TimerInvariant, Running in *.
  split; [apply (coh_range _ Hc)|].
  destruct (isEmergency s).
  - destruct Hinv as (Hd & t & Ht & Hi).
    split; [reflexivity|]. split; [|discriminate].
    intros _. split; [now apply Hr|now exists t].
  - destruct Hinv as (Hd & Hi).
    split; [intros H; now elim Hd|].
    split; [discriminate|now intros _].
Qed.

(** X2. In every state the component reaches: a session is held only
    with a client of the service, with permissions and with an output audio
    context; an analyser node is held only while the conversational state
    is not IDLE; and the driver state is DROWSY only while the
    conversational state is not IDLE (a drowsy driver whose conversational
    state is IDLE is marked ENGAGED in the same event). *)
Theorem session_state_coherent (evs : list Event) (apiKey : bool) :
  let s := run tools evs (init apiKey) in
  (sessionPromiseRef s = true ->
   aiRef s = true /\ permissionsGranted s = true /\ outputAudioContextRef s = true)
  /\ (analyserNode s = true -> miraState s <> IDLE)
  /\ (driverState s = DROWSY -> miraState s <> IDLE).
Proof.
  intros s. destruct (reachable_coherent evs apiKey) as [Hc _]. fold s in Hc.
  destruct Hc. repeat split; auto; now apply coh_client0.
Qed.

(** X3. In the binary64 numbers of the program, in every state the
    component reaches with a playback cursor that is not NaN: the cursor
    is not negative, and the audio sources started so far follow each
    other.  Each has a duration that is not negative, starts no earlier
    than the cursor the one before it left (the rounded sum of its start
    and its duration), and leaves a cursor that is not below its own
    start; the playback cursor is not below the cursor the last one
    left. *)
Theorem audio_sources_follow_the_cursor (evs : list Event) (apiKey : bool) :
  let s := run tools evs (init apiKey) in
  PrimFloat.is_nan (cursor s) = false ->
  (0 <=? cursor s)%float = true /\ sequential 0 (actions s) (cursor s).
Proof.
  intros s. destruct (reachable_coherent evs apiKey) as [Hc _].
  apply (coh_audio _ Hc).
Qed.

(** X4. Once a countdown has expired the countdown stays at 0, and the
    expiry effect also depends on the position: every position update then
    reports the emergency again, with the new position, and sets the
    driver state to MONITORING whatever it was. *)
Theorem position_update_after_expiry
    (registry : string -> option Handler) (s : AppState) (loc : Location) :
  permissionsGranted s = true ->
  (emergencyCountdown s <= 0)%Z ->
  let s' := step registry (LocationUpdate loc) s in
  notifications s' =
    notifications s ++ [NotifyEmergencyContact emergencyContact (Some loc)]
  /\ driverState s' = MONITORING
  /\ isEmergency s' = false
  /\ emergencyCountdown s' = emergencyCountdown s.
Proof.
  intros Hp Hc s'. subst s'.
  rewrite step_location by exact Hp. cbv zeta.
  set (cur := set_locationVersion (S (locationVersion s)) (set_location (Some loc) s)).
  assert (Hle : (emergencyCountdown cur <=? 0)%Z = true) by now apply Z.leb_le.
  split.
  - unfold notifications. rewrite expiryEffect_actions, Hle, filter_app.
    reflexivity.
  - destruct (expiryEffect_deps cur cur) as (H1 & _ & H3 & _ & H5 & _).
    cbv zeta in *. rewrite Hle in *. now rewrite H1, H3, H5.
Qed.

(** X5. The acknowledgment of an emergency does not reset the no-face
    counter.  In a state after setup in which an emergency is on, the
    "I'm Okay" button sets the driver state to MONITORING and leaves the
    counter as it is; when the counter stands at 25 or more (as it does
    when the samples without a face started the emergency and no face was
    found since), a single further sample without a face makes the driver
    UNRESPONSIVE at once and starts a new countdown at 15. *)
Theorem acknowledgment_keeps_no_face_counter (s : AppState) (inp : DetectionInput) :
  isEmergency s = true ->
  permissionsGranted s = true -> modelsLoaded s = true ->
  (CONSECUTIVE_FRAMES_UNRESPONSIVE <= noFaceFramesRef s)%nat ->
  noFace inp = true ->
  let s1 := step tools ClickImOkay s in
  let s2 := step tools (DetectionTick inp) s1 in
  (driverState s1 = MONITORING /\ isEmergency s1 = false
   /\ noFaceFramesRef s1 = noFaceFramesRef s)
  /\ driverState s2 = UNRESPONSIVE
  /\ isEmergency s2 = true
  /\ emergencyCountdown s2 = 15%Z
  /\ unresponsiveRequests s2 = S (unresponsiveRequests s).
Proof.
  intros He Hp Hm Hn Hno s1 s2.
  assert (E1 : s1 = cancelEmergency s) by (apply step_cancel; exact He).
  assert (Hfields : driverState s1 = MONITORING /\ isEmergency s1 = false
                    /\ noFaceFramesRef s1 = noFaceFramesRef s
                    /\ permissionsGranted s1 = true /\ modelsLoaded s1 = true
                    /\ actions s1 = actions s).
  { rewrite E1. unfold cancelEmergency, clearEmergencyTimer.
    destruct (emergencyTimerRef s); cbn; now repeat split. }
  destruct Hfields as (F1 & F2 & F3 & F4 & F5 & F6).
  split; [now repeat split|].
  assert (Hact : detectionActive s1 = true)
    by (unfold detectionActive; now rewrite F1, F4, F5).
  destruct (step_noFace_fire tools s1 inp Hact Hno) as [_ Hstep];
    [rewrite F3; exact Hn|].
  cbv zeta in Hstep. fold s2 in Hstep. rewrite F2 in Hstep. rewrite Hstep.
  unfold beginEmergency, startEmergencyTimer, unresponsiveRequests. cbn.
  destruct (sessionPromiseRef s1); cbn; rewrite F6, ?filter_app, ?length_app;
    cbn; repeat split; lia.
Qed.

Lemma control_fields s s' :
  control s' = control s ->
  driverState s' = driverState s /\ isEmergency s' = isEmergency s
  /\ emergencyCountdown s' = emergencyCountdown s
  /\ eyeClosedFramesRef s' = eyeClosedFramesRef s
  /\ noFaceFramesRef s' = noFaceFramesRef s
  /\ sessionPromiseRef s' = sessionPromiseRef s
  /\ aiRef s' = aiRef s
  /\ permissionsGranted s' = permissionsGranted s.
Proof.
  unfold control.
  intros [= H1 H2 H3 H4 H5 H6 H7 H8 H9 H10 H11 H12 H13 H14 H15 H16].
  now repeat split.
Qed.

Lemma notifications_output s added :
  Forall (fun a => isSessionOutput a = true) added ->
  filter isNotify (actions s ++ added) = notifications s.
Proof.
  intros H. rewrite filter_app.
  replace (filter isNotify added) with (@nil Action); [now rewrite app_nil_r|].
  induction H as [|a l Ha _ IH]; [reflexivity|].
  destruct a; try discriminate Ha; exact IH.
Qed.

(** The part of the state that stays as it is once the driver is engaged
    in a conversation and no emergency is on. *)
Lemma engaged_step ev s :
  driverState s = ENGAGED -> isEmergency s = false -> intervals s = [] ->
  (0 < emergencyCountdown s)%Z ->
  isDetection ev = false ->
  let s' := step tools ev s in
  (driverState s' = ENGAGED /\ isEmergency s' = false /\ intervals s' = [])
  /\ emergencyCountdown s' = emergencyCountdown s
  /\ eyeClosedFramesRef s' = eyeClosedFramesRef s
  /\ noFaceFramesRef s' = noFaceFramesRef s
  /\ notifications s' = notifications s.
Proof.
  intros Hd He Hi Hpos Hev s'. subst s'.
  assert (Hinv : TimerInvariant s).
  { unfold TimerInvariant. rewrite He, Hd. split; [discriminate|exact Hi]. }
  destruct (enabled ev s) eqn:Hen; [|unfold step; rewrite Hen; now repeat split].
  destruct ev; cbn [enabled] in Hen; try discriminate Hev.
  - rewrite step_models. now repeat split.
  - rewrite step_media; [now repeat split|exact Hinv|exact Hen|].
    rewrite Hd. discriminate.
  - rewrite (step_location tools) by exact Hen. cbv zeta.
    rewrite expiryEffect_skip by (cbn; apply Z.leb_gt; lia).
    now repeat split.
  - rewrite Hi in Hen. discriminate Hen.
  - rewrite He in Hen. discriminate Hen.
  - rewrite step_message by assumption.
    destruct (onmessage_messageFrame message now s) as [F1 _ _ (aa & F4 & F5)].
    pose proof F1 as F1'. unfold control in F1'.
    injection F1' as H1 H2 H3 H4 H5 H6 H7 H8 H9 H10 H11 H12 H13 H14 H15 H16.
    destruct (control_fields _ _ F1) as (G1 & G2 & G3 & G4 & G5 & _).
    rewrite G1, G2, G3, G4, G5, H9. repeat split; try assumption.
    unfold notifications at 1. rewrite F4. now apply notifications_output.
  - rewrite step_error by exact Hen. repeat split; try assumption.
    unfold notifications, onerror. cbn. rewrite filter_app. cbn. apply app_nil_r.
  - rewrite step_close; [|exact Hinv|exact Hen|rewrite Hd; discriminate].
    cbv zeta. rewrite Hd. cbn [DriverState_beq]. repeat split; try assumption.
    unfold notifications, onclose. cbn. rewrite filter_app. cbn. apply app_nil_r.
  - rewrite step_queue. now repeat split.
Qed.

(** X6. A driver who is ENGAGED stays ENGAGED.  From a state in which the
    driver state is ENGAGED, no emergency is on, no interval is live and
    the countdown is above 0, no sequence of events other than the end of
    a detection changes the driver state again (not the messages of the
    session, not its close, no error, position update, timer or button):
    the detection loop stays off, its counters stay as they are and
    nobody is notified.  In particular the close of the session does not
    bring the monitoring back. *)
Theorem engaged_driver_stays_engaged (s : AppState) (evs : list Event) :
  driverState s = ENGAGED -> isEmergency s = false -> intervals s = [] ->
  (0 < emergencyCountdown s)%Z ->
  Forall (fun ev => isDetection ev = false) evs ->
  let s' := run tools evs s in
  driverState s' = ENGAGED
  /\ detectionActive s' = false
  /\ emergencyCountdown s' = emergencyCountdown s
  /\ eyeClosedFramesRef s' = eyeClosedFramesRef s
  /\ noFaceFramesRef s' = noFaceFramesRef s
  /\ notifications s' = notifications s.
Proof.
  intros Hd He Hi Hpos Hevs s'. subst s'.
  assert (H : driverState (run tools evs s) = ENGAGED
              /\ emergencyCountdown (run tools evs s) = emergencyCountdown s
              /\ eyeClosedFramesRef (run tools evs s) = eyeClosedFramesRef s
              /\ noFaceFramesRef (run tools evs s) = noFaceFramesRef s
              /\ notifications (run tools evs s) = notifications s).
  { revert s Hd He Hi Hpos.
    induction Hevs as [|ev evs Hev _ IH]; intros s Hd He Hi Hpos;
      [now repeat split|].
    cbn [run fold_left].
    destruct (engaged_step ev s Hd He Hi Hpos Hev)
      as ((E1 & E1' & E1'') & E2 & E3 & E4 & E5).
    destruct (IH (step tools ev s)) as (I1 & I2 & I3 & I4 & I5);
      try assumption; [rewrite E2; exact Hpos|].
    unfold run in *. rewrite I1, I2, I3, I4, I5. now repeat split. }
  destruct H as (H1 & H2 & H3 & H4 & H5).
  repeat split; try assumption.
  unfold detectionActive. rewrite H1. apply andb_false_r.
Qed.

Lemma sessionStarts_push a s :
  isConnect a = false -> sessionStarts (push a s) = sessionStarts s.
Proof.
  intros Ha. unfold sessionStarts. cbn. rewrite filter_app. cbn. rewrite Ha.
  now rewrite app_nil_r.
Qed.

Lemma sessionStarts_app s s' added :
  actions s' = actions s ++ added ->
  Forall (fun a => isConnect a = false) added ->
  sessionStarts s' = sessionStarts s.
Proof.
  intros E H. unfold sessionStarts. rewrite E, filter_app.
  replace (filter isConnect added) with (@nil Action); [now rewrite app_nil_r|].
  clear E. induction H as [|a l Ha _ IH]; [reflexivity|].
  cbn [filter]. rewrite Ha. exact IH.
Qed.

(** A session start while the conversational state is IDLE. *)
Lemma startLiveSession_idle snap acc :
  miraState acc = IDLE ->
  (sessionStarts (startLiveSession snap acc) + idle (startLiveSession snap acc)
   = sessionStarts acc + 1)%nat.
Proof.
  intros Hm. unfold startLiveSession, idle.
  destruct (negb (permissionsGranted snap) || negb (aiRef acc)).
  - now rewrite Hm.
  - destruct (DriverState_beq (driverState snap) DROWSY);
      unfold sessionStarts; cbn; rewrite ?filter_app; cbn;
      rewrite ?length_app; cbn; lia.
Qed.

Lemma idle_engaged s : idle (set_driverState ENGAGED s) = idle s.
Proof. reflexivity. Qed.

Lemma expiryEffect_sessions cur :
  sessionStarts (expiryEffect cur cur) = sessionStarts cur
  /\ miraState (expiryEffect cur cur) = miraState cur.
Proof.
  split.
  - eapply sessionStarts_app; [apply expiryEffect_actions|].
    destruct (_ <=? _)%Z; repeat constructor.
  - now destruct (expiryEffect_deps cur cur) as (_ & H & _).
Qed.

Lemma sessions_step ev s :
  Coherent s -> Running s ->
  (sessionStarts (step tools ev s) + idle (step tools ev s)
   <= sessionStarts s + idle s + (if isClose ev then 1 else 0))%nat.
Proof.
  intros Hc Hr.
  pose proof (coh_timer _ Hc) as Hinv.
  destruct (enabled ev s) eqn:Hen; [|unfold step; rewrite Hen; lia].
  destruct ev; cbn [enabled isClose] in *; rewrite ?Nat.add_0_r.
  - rewrite step_models. apply Nat.eq_le_incl. reflexivity.
  - rewrite step_media; [|exact Hinv|exact Hen|apply (coh_escalated _ Hc)].
    apply Nat.eq_le_incl. reflexivity.
  - rewrite (step_location tools) by exact Hen. cbv zeta.
    destruct (expiryEffect_sessions
                (set_locationVersion (S (locationVersion s)) (set_location (Some loc) s)))
      as [E1 E2].
    unfold idle. rewrite E1, E2. apply Nat.eq_le_incl. reflexivity.
  - destruct (step_detection s inp Hen Hinv) as (c & m & [H|[H|[_ H]]]);
      cbv zeta in H; rewrite H; clear H.
    + apply Nat.eq_le_incl. reflexivity.
    + unfold idle at 2.
      destruct (MiraState_beq (miraState s) IDLE) eqn:Hidle.
      * rewrite idle_engaged.
        change (sessionStarts (set_driverState ENGAGED ?x)) with (sessionStarts x).
        rewrite startLiveSession_idle.
        -- change (sessionStarts (set_driverState DROWSY ?x)) with (sessionStarts x).
           rewrite sessionStarts_push by reflexivity.
           change (sessionStarts (withCounters c m s)) with (sessionStarts s). lia.
        -- cbn. destruct (miraState s); (reflexivity || discriminate Hidle).
      * unfold idle. cbn [miraState set_driverState push set_actions withCounters
                          set_eyeClosedFramesRef set_noFaceFramesRef].
        rewrite Hidle.
        change (sessionStarts (set_driverState DROWSY ?x)) with (sessionStarts x).
        rewrite sessionStarts_push by reflexivity.
        change (sessionStarts (withCounters c m s)) with (sessionStarts s). lia.
    + apply Nat.eq_le_incl. f_equal.
      * match goal with
        | |- sessionStarts (beginEmergency ?g) = _ =>
            rewrite (sessionStarts_app g _ _ (beginEmergency_actions g))
        end.
        -- change (sessionStarts (set_driverState UNRESPONSIVE ?x)) with (sessionStarts x).
           now rewrite sessionStarts_push.
        -- destruct (sessionPromiseRef _); repeat constructor.
      * unfold idle, beginEmergency, startEmergencyTimer. cbn.
        destruct (sessionPromiseRef s); reflexivity.
  - rewrite step_timer by exact Hen.
    destruct (expiryEffect_sessions (emergencyTick s)) as [E1 E2].
    unfold idle. rewrite E1, E2. apply Nat.eq_le_incl. reflexivity.
  - rewrite step_cancel by exact Hen.
    apply Nat.eq_le_incl. unfold cancelEmergency, clearEmergencyTimer, idle, sessionStarts.
    destruct (emergencyTimerRef s); reflexivity.
  - rewrite step_message by assumption.
    destruct (onmessage_messageFrame message now s) as [_ F2 _ (aa & F4 & F5)].
    rewrite (sessionStarts_app s _ aa F4).
    + unfold idle. destruct F2 as [F2|F2]; [rewrite F2; lia|].
      destruct (miraState (exec _ s)); [now elim F2|..]; cbn; lia.
    + eapply Forall_impl; [|exact F5].
      intros [] Ha; (reflexivity || discriminate Ha).
  - rewrite step_error by exact Hen. apply Nat.eq_le_incl.
    unfold onerror. now rewrite sessionStarts_push.
  - rewrite step_close; [|exact Hinv|exact Hen|apply (coh_escalated _ Hc)].
    cbv zeta.
    destruct (DriverState_beq (driverState s) DROWSY) eqn:Hd.
    + rewrite idle_engaged.
      change (sessionStarts (set_driverState ENGAGED ?x)) with (sessionStarts x).
      rewrite startLiveSession_idle by reflexivity.
      unfold onclose. rewrite sessionStarts_push by reflexivity.
      change (sessionStarts (set_analyserNode false (set_miraState IDLE s)))
        with (sessionStarts s). lia.
    + unfold onclose. rewrite sessionStarts_push by reflexivity.
      change (sessionStarts (set_analyserNode false (set_miraState IDLE s)))
        with (sessionStarts s).
      unfold idle at 1. cbn. lia.
  - rewrite step_queue. apply Nat.eq_le_incl. reflexivity.
Qed.

Lemma sessions_run evs : forall s,
  Coherent s -> Running s ->
  (sessionStarts (run tools evs s) + idle (run tools evs s)
   <= sessionStarts s + idle s + closes evs)%nat.
Proof.
  induction evs as [|ev evs IH]; intros s Hc Hr; [cbn; lia|].
  cbn [run fold_left].
  destruct (step_coherent ev s Hc Hr) as [Hc' Hr'].
  specialize (IH _ Hc' Hr'). unfold run in IH.
  pose proof (sessions_step ev s Hc Hr) as Hs.
  unfold closes in *. cbn [filter].
  destruct (isClose ev); cbn [List.length]; lia.
Qed.

(** X7. Live sessions are opened one at a time: the number of sessions the
    component has started is at most one more than the number of close
    events it received, and while the conversational state is IDLE it is
    at most that number. *)
Theorem sessions_one_at_a_time (evs : list Event) (apiKey : bool) :
  let s := run tools evs (init apiKey) in
  (sessionStarts s <= closes evs + 1)%nat
  /\ (miraState s = IDLE -> (sessionStarts s <= closes evs)%nat).
Proof.
  intros s.
  destruct (init_coherent apiKey) as [Hc Hr].
  pose proof (sessions_run evs (init apiKey) Hc Hr) as H. fold s in H.
  replace (sessionStarts (init apiKey)) with 0%nat in H by now destruct apiKey.
  change (idle (init apiKey)) with 1%nat in H.
  split; [lia|]. intros Hm. unfold idle in H. rewrite Hm in H. cbn in H. lia.
Qed.

Lemma offline_step ev s :
  Coherent s -> aiRef s = false ->
  Forall (fun a => isReport a = true) (actions s) ->
  aiRef (step tools ev s) = false
  /\ Forall (fun a => isReport a = true) (actions (step tools ev s)).
Proof.
  intros Hc Hai Hact.
  pose proof (coh_timer _ Hc) as Hinv.
  assert (Hs : sessionPromiseRef s = false).
  { destruct (sessionPromiseRef s) eqn:E; [|reflexivity].
    destruct (coh_client _ Hc E) as [H _]. congruence. }
  assert (Hlog : forall msg a, Forall (fun a => isReport a = true) (actions a) ->
            Forall (fun a => isReport a = true) (actions (push (ConsoleLog msg) a))).
  { intros msg a H. cbn. apply Forall_app. split; [exact H|now repeat constructor]. }
  assert (Hexp : forall cur, aiRef cur = false ->
            Forall (fun a => isReport a = true) (actions cur) ->
            aiRef (expiryEffect cur cur) = false
            /\ Forall (fun a => isReport a = true) (actions (expiryEffect cur cur))).
  { intros cur H1 H2. split.
    - unfold expiryEffect, clearEmergencyTimer.
      destruct (_ <=? _)%Z; [|exact H1]. now destruct (emergencyTimerRef cur).
    - rewrite expiryEffect_actions. apply Forall_app. split; [exact H2|].
      destruct (_ <=? _)%Z; now repeat constructor. }
  destruct (enabled ev s) eqn:Hen; [|unfold step; rewrite Hen; now split].
  destruct ev; cbn [enabled] in Hen; try congruence.
  - rewrite step_models. now split.
  - rewrite step_media; [now split|exact Hinv|exact Hen|apply (coh_escalated _ Hc)].
  - rewrite (step_location tools) by exact Hen. cbv zeta. now apply Hexp.
  - destruct (step_detection s inp Hen Hinv) as (c & m & [H|[H|[_ H]]]);
      cbv zeta in H; rewrite H; clear H.
    + now split.
    + assert (Hd : aiRef (set_driverState DROWSY
                     (push (ConsoleLog msgDrowsy) (withCounters c m s))) = false)
        by exact Hai.
      destruct (MiraState_beq (miraState s) IDLE).
      * unfold startLiveSession. rewrite Hd, orb_true_r. cbn [negb].
        split; [exact Hai|]. now apply Hlog.
      * split; [exact Hai|]. now apply Hlog.
    + unfold beginEmergency, startEmergencyTimer. cbn [sessionPromiseRef
        set_emergencyTimerRef set_intervals set_nextTimerId set_emergencyCountdown
        set_isEmergency set_driverState push set_actions withCounters
        set_eyeClosedFramesRef set_noFaceFramesRef].
      rewrite Hs. split; [exact Hai|]. now apply (Hlog msgUnresponsive s).
  - rewrite step_timer by exact Hen. now apply Hexp.
  - rewrite step_cancel by exact Hen.
    unfold cancelEmergency, clearEmergencyTimer.
    destruct (emergencyTimerRef s); now split.
  - rewrite step_queue. now split.
Qed.

(** X8. Without an API key [initializeAi] logs an error and raises an
    alert, no client of the service exists, and then the component never
    opens a session and never sends anything: in every state it reaches
    no session reference and no analyser node is held, the conversational
    state is IDLE, and all it has done to the outside are console lines,
    alerts and reports to the emergency contact.  The driver state is
    never DROWSY between events: a drowsy driver is marked ENGAGED at
    once, without a conversation. *)
Theorem no_api_key_no_session (evs : list Event) :
  let s := run tools evs (init false) in
  actions (init false) =
    [ConsoleLog "API_KEY environment variable not set.";
     Alert "API Key is not configured. Please set the API_KEY environment variable."]
  /\ aiRef s = false
  /\ sessionPromiseRef s = false
  /\ miraState s = IDLE
  /\ analyserNode s = false
  /\ driverState s <> DROWSY
  /\ Forall (fun a => isReport a = true) (actions s).
Proof.
  intros s. split; [reflexivity|].
  assert (H : Coherent s /\ aiRef s = false
              /\ Forall (fun a => isReport a = true) (actions s)).
  { subst s.
    assert (H0 : aiRef (init false) = false
                 /\ Forall (fun a => isReport a = true) (actions (init false)))
      by (split; [reflexivity|repeat constructor]).
    destruct (init_coherent false) as [Hc Hr].
    revert Hc Hr H0. generalize (init false).
    induction evs as [|ev evs IH]; intros s Hc Hr [H1 H2];
      [exact (conj Hc (conj H1 H2))|].
    cbn [run fold_left].
    destruct (step_coherent ev s Hc Hr) as [Hc' Hr'].
    apply IH; try assumption. now apply offline_step. }
  destruct H as (Hc & Hai & Hact).
  assert (Hs : sessionPromiseRef s = false).
  { destruct (sessionPromiseRef s) eqn:E; [|reflexivity].
    destruct (coh_client _ Hc E) as [H _]. congruence. }
  assert (Hm : miraState s = IDLE).
  { destruct (miraState s) eqn:E; [reflexivity|..];
      (assert (Hn : miraState s <> IDLE) by (rewrite E; discriminate));
      pose proof (coh_session _ Hc Hn); congruence. }
  repeat split; try assumption.
  - destruct (analyserNode s) eqn:E; [|reflexivity].
    now elim (coh_analyser _ Hc E).
  - intros Hd. now elim (coh_escalated _ Hc Hd).
Qed.

Lemma notifications_push a s :
  isNotify a = false -> notifications (push a s) = notifications s.
Proof.
  intros Ha. unfold notifications. cbn. rewrite filter_app. cbn. rewrite Ha.
  apply app_nil_r.
Qed.

Lemma startLiveSession_notifications snap acc :
  notifications (startLiveSession snap acc) = notifications acc.
Proof.
  unfold notifications. rewrite startLiveSession_actions, filter_app.
  unfold sessionActions.
  destruct (negb (permissionsGranted snap) || negb (aiRef acc)); cbn;
    [apply app_nil_r|].
  destruct (DriverState_beq (driverState snap) DROWSY); apply app_nil_r.
Qed.

(** The report of an expiry. *)
Lemma expiry_report cur :
  Coherent cur ->
  let s' := expiryEffect cur cur in
  (notifications s' = notifications cur /\ (0 < emergencyCountdown cur)%Z)
  \/ (notifications s' =
        notifications cur ++ [NotifyEmergencyContact emergencyContact (location s')]
      /\ emergencyCountdown s' = 0%Z
      /\ isEmergency s' = false
      /\ driverState s' = MONITORING).
Proof.
  intros Hc s'. subst s'.
  pose proof (coh_range _ Hc) as Hrange.
  destruct (expiryEffect_deps cur cur) as (H1 & _ & H3 & _ & H5 & _).
  cbv zeta in *.
  unfold notifications. rewrite expiryEffect_actions, filter_app.
  destruct (emergencyCountdown cur <=? 0)%Z eqn:E.
  - right. apply Z.leb_le in E.
    assert (Hloc : location (expiryEffect cur cur) = location cur).
    { unfold expiryEffect, clearEmergencyTimer.
      destruct (_ <=? _)%Z; [|reflexivity]. now destruct (emergencyTimerRef cur). }
    rewrite Hloc, H1, H3, H5. repeat split. lia.
  - left. apply Z.leb_gt in E. cbn. now rewrite app_nil_r.
Qed.

(** X9. The emergency contact is notified only when the countdown stands at
    0: an event either leaves the list of notifications as it is, or it is
    a firing of the interval or a position update, the countdown is 0
    after it, and exactly one notification with the position of that
    moment is added; the emergency is then over and the driver state is
    MONITORING. *)
Theorem contact_notified_only_at_zero
    (evs : list Event) (apiKey : bool) (ev : Event) :
  let s := run tools evs (init apiKey) in
  let s' := step tools ev s in
  notifications s' = notifications s
  \/ (notifications s' =
        notifications s ++ [NotifyEmergencyContact emergencyContact (location s')]
      /\ emergencyCountdown s' = 0%Z
      /\ isEmergency s' = false
      /\ driverState s' = MONITORING
      /\ (isFire ev = true \/ exists loc, ev = LocationUpdate loc)).
Proof.
  intros s s'.
  destruct (reachable_coherent evs apiKey) as [Hc Hr]. fold s in Hc, Hr.
  clearbody s. subst s'.
  pose proof (coh_timer _ Hc) as Hinv.
  destruct (enabled ev s) eqn:Hen; [|unfold step; rewrite Hen; now left].
  destruct ev; cbn [enabled] in Hen.
  - left. now rewrite step_models.
  - left. rewrite step_media; [reflexivity|exact Hinv|exact Hen|apply (coh_escalated _ Hc)].
  - rewrite (step_location tools) by exact Hen. cbv zeta.
    set (cur := set_locationVersion (S (locationVersion s)) (set_location (Some loc) s)).
    assert (Hcur : Coherent cur)
      by (apply (coherent_cur_location s loc Hc)).
    destruct (expiry_report cur Hcur) as [[H _]|(H1 & H2 & H3 & H4)];
      cbv zeta in *.
    + left. exact H.
    + right. repeat split; try assumption. right. now exists loc.
  - left.
    destruct (step_detection s inp Hen Hinv) as (c & m & [H|[H|[_ H]]]);
      cbv zeta in H; rewrite H; clear H.
    + reflexivity.
    + destruct (MiraState_beq (miraState s) IDLE).
      * change (notifications (set_driverState ENGAGED ?x)) with (notifications x).
        rewrite startLiveSession_notifications.
        change (notifications (set_driverState DROWSY ?x)) with (notifications x).
        now rewrite notifications_push.
      * change (notifications (set_driverState DROWSY ?x)) with (notifications x).
        now rewrite notifications_push.
    + unfold notifications. rewrite beginEmergency_actions, filter_app.
      cbn [actions set_driverState push set_actions withCounters
           set_eyeClosedFramesRef set_noFaceFramesRef sessionPromiseRef].
      rewrite filter_app. cbn.
      destruct (sessionPromiseRef s); cbn; now rewrite !app_nil_r.
  - rewrite step_timer by exact Hen.
    assert (Hcur : Coherent (emergencyTick s))
      by (apply (coherent_cur_tick s t Hc Hr Hen)).
    destruct (expiry_report (emergencyTick s) Hcur) as [[H _]|(H1 & H2 & H3 & H4)];
      cbv zeta in *.
    + left. exact H.
    + right. repeat split; try assumption. now left.
  - left. rewrite step_cancel by exact Hen.
    unfold cancelEmergency, clearEmergencyTimer, notifications.
    now destruct (emergencyTimerRef s).
  - left. rewrite step_message by assumption.
    destruct (onmessage_messageFrame message now s) as [_ _ _ (aa & F4 & F5)].
    unfold notifications at 1. rewrite F4. now apply notifications_output.
  - left. rewrite step_error by exact Hen. unfold onerror.
    now rewrite notifications_push.
  - left. rewrite step_close; [|exact Hinv|exact Hen|apply (coh_escalated _ Hc)].
    cbv zeta. unfold onclose.
    destruct (DriverState_beq (driverState s) DROWSY).
    + change (notifications (set_driverState ENGAGED ?x)) with (notifications x).
      rewrite startLiveSession_notifications. now rewrite notifications_push.
    + now rewrite notifications_push.
  - left. now rewrite step_queue.
Qed.

(** The effects never touch the transcript. *)
Lemma runEffects_transcriptions prev cur :
  transcriptions (runEffects prev cur) = transcriptions cur.
Proof.
  assert (H1 : forall snap acc,
            transcriptions (escalationEffect snap acc) = transcriptions acc).
  { intros snap acc.
    unfold escalationEffect, startLiveSession, startEmergencyTimer.
    repeat match goal with
    | |- context [if ?b then _ else _] => destruct b
    end; reflexivity. }
  assert (H2 : forall snap acc,
            transcriptions (expiryEffect snap acc) = transcriptions acc).
  { intros snap acc. unfold expiryEffect, clearEmergencyTimer.
    destruct (_ <=? _)%Z; [|reflexivity]. now destruct (emergencyTimerRef acc). }
  unfold runEffects.
  destruct (escalationDepsChanged prev cur), (expiryDepsChanged prev cur);
    now rewrite ?H2, ?H1.
Qed.

(** X10. The transcript only grows, and no entry of it has white space at
    the ends of its text: in every state the component reaches the text of
    each entry is equal to its own [trim] (it may be empty), and every
    event leaves the transcript as it is or appends to it. *)
Theorem transcript_grows_by_tidy_entries
    (evs : list Event) (apiKey : bool) (ev : Event) :
  let s := run tools evs (init apiKey) in
  Forall (fun e => trim (text e) = text e) (transcriptions s)
  /\ exists added, transcriptions (step tools ev s) = transcriptions s ++ added.
Proof.
  intros s.
  destruct (reachable_coherent evs apiKey) as [Hc Hr]. fold s in Hc, Hr.
  clearbody s.
  split; [exact (coh_transcript _ Hc)|].
  unfold step. destruct (enabled ev s) eqn:Hen;
    [|exists []; now rewrite app_nil_r].
  rewrite render_runEffects, runEffects_transcriptions.
  destruct ev; cbn [handle].
  - exists []. now rewrite app_nil_r.
  - exists []. now rewrite app_nil_r.
  - exists []. now rewrite app_nil_r.
  - exists [].
    destruct (detectionCallback_outcomes s inp) as (c & m & [H|[H|[_ H]]]);
      cbv zeta in H; rewrite H; now rewrite app_nil_r.
  - exists []. now rewrite app_nil_r.
  - exists [mkEntry USER "I'm okay."].
    unfold cancelEmergency, clearEmergencyTimer.
    now destruct (emergencyTimerRef s).
  - destruct (onmessage_messageFrame message now s) as [_ _ (ta & F3 & _) _].
    now exists ta.
  - exists []. now rewrite app_nil_r.
  - exists []. now rewrite app_nil_r.
  - exists []. now rewrite app_nil_r.
Qed.

Lemma append_assoc (a b c : string) : ((a ++ b) ++ c = a ++ (b ++ c))%string.
Proof. induction a as [|x a IH]; cbn; [reflexivity|now rewrite IH]. Qed.

Lemma append_nil_r (a : string) : (a ++ "" = a)%string.
Proof. induction a as [|x a IH]; cbn; [reflexivity|now rewrite IH]. Qed.

(** A message with pieces of the transcriptions extends the two
    accumulators; a piece of the reply also sets the state SPEAKING. *)
Lemma step_transcriptMessage s heard spoken now :
  TimerInvariant s -> sessionPromiseRef s = true ->
  step tools (SessionMessage (transcriptMessage heard spoken) now) s =
  let s1 := match heard with
            | Some t => set_currentInputTranscription
                          (currentInputTranscription s ++ t) s
            | None => s
            end in
  match spoken with
  | Some t => set_miraState SPEAKING
                (set_currentOutputTranscription (currentOutputTranscription s ++ t) s1)
  | None => s1
  end.
Proof.
  intros Hinv Hs. rewrite step_message by assumption.
  destruct heard, spoken; reflexivity.
Qed.

(** The message that completes a turn moves the accumulators to the
    transcript. *)
Lemma step_turnComplete s now :
  TimerInvariant s -> sessionPromiseRef s = true ->
  let s' := step tools (SessionMessage turnCompleteMessage now) s in
  transcriptions s' =
    transcriptions s
    ++ turnEntry USER (updaterAtCall s) (currentInputTranscription s)
    ++ turnEntry MIRA
         (updaterAtCall s && negb (nonEmpty (trim (currentInputTranscription s))))
         (currentOutputTranscription s)
  /\ miraState s' = LISTENING
  /\ currentInputTranscription s' = EmptyString
  /\ currentOutputTranscription s' = EmptyString.
Proof.
  intros Hinv Hs s'. subst s'. rewrite step_message by assumption.
  unfold turnEntry.
  cbv [exec onmessage turnCompleteMessage flushTurn logTurn bind ret get modify when
       inputTranscription outputTranscription turnComplete functionCalls inlineAudio].
  destruct (nonEmpty (trim (currentInputTranscription s)));
    destruct (nonEmpty (trim (currentOutputTranscription s)));
    cbn; rewrite <- ?app_assoc, ?app_nil_r, ?andb_true_r, ?andb_false_r;
    repeat split.
Qed.

(** X11. A turn is logged once, when it completes: the pieces of the user's
    and of the agent's transcription that arrive in messages are joined in
    the order of arrival and leave the transcript as it is, and the
    message that completes the turn appends an entry of the user, then one
    of the agent, each only if the trimmed text is not empty; it empties
    both accumulators and sets the conversational state to LISTENING.
    The text of an entry is the trimmed text when React runs the updater
    at the call of the setter, which it does for the first update of a
    clean queue only; otherwise the updater runs at the next render (taken
    to follow the callback before another message arrives), after the
    accumulators were emptied, and the text of the entry is empty.  So the
    entry of the agent has an empty text whenever an entry of the user is
    logged in the same turn. *)
Theorem turn_is_logged_when_complete
    (evs : list Event) (apiKey : bool)
    (parts : list (option string * option string)) (now : float) :
  let s := run tools evs (init apiKey) in
  sessionPromiseRef s = true ->
  let messages :=
    map (fun p => SessionMessage (transcriptMessage (fst p) (snd p)) now) parts in
  let s1 := run tools messages s in
  let s2 := step tools (SessionMessage turnCompleteMessage now) s1 in
  let heard := (currentInputTranscription s ++ joined (map fst parts))%string in
  let spoken := (currentOutputTranscription s ++ joined (map snd parts))%string in
  transcriptions s1 = transcriptions s
  /\ transcriptions s2 =
       transcriptions s
       ++ turnEntry USER (updaterAtCall s) heard
       ++ turnEntry MIRA (updaterAtCall s && negb (nonEmpty (trim heard))) spoken
  /\ miraState s2 = LISTENING
  /\ currentInputTranscription s2 = EmptyString
  /\ currentOutputTranscription s2 = EmptyString.
Proof.
  intros s Hs messages s1 s2 heard spoken. subst heard spoken.
  destruct (reachable_coherent evs apiKey) as [Hc Hr]. fold s in Hc, Hr.
  clearbody s.
  assert (H : Coherent s1 /\ sessionPromiseRef s1 = true
              /\ updaterAtCall s1 = updaterAtCall s
              /\ transcriptions s1 = transcriptions s
              /\ currentInputTranscription s1
                 = (currentInputTranscription s ++ joined (map fst parts))%string
              /\ currentOutputTranscription s1
                 = (currentOutputTranscription s ++ joined (map snd parts))%string).
  { subst s1 messages. clear s2. revert s Hs Hc Hr.
    induction parts as [|[heard spoken] rest IH]; intros s Hs Hc Hr.
    - cbn. rewrite !append_nil_r. now split.
    - cbn [map run fold_left fst snd].
      destruct (step_coherent
                  (SessionMessage (transcriptMessage heard spoken) now) s Hc Hr)
        as [Hc' Hr'].
      pose proof (step_transcriptMessage s heard spoken now (coh_timer _ Hc) Hs) as E.
      cbv zeta in E.
      set (s' := step tools (SessionMessage (transcriptMessage heard spoken) now) s) in *.
      assert (F : sessionPromiseRef s' = true
                  /\ updaterAtCall s' = updaterAtCall s
                  /\ transcriptions s' = transcriptions s
                  /\ currentInputTranscription s'
                     = (currentInputTranscription s
                        ++ match heard with Some t => t | None => "" end)%string
                  /\ currentOutputTranscription s'
                     = (currentOutputTranscription s
                        ++ match spoken with Some t => t | None => "" end)%string).
      { rewrite E. destruct heard, spoken; cbn; rewrite ?append_nil_r; now repeat split. }
      destruct F as (F1 & F0 & F2 & F3 & F4).
      destruct (IH s' F1 Hc' Hr') as (I1 & I2 & I0 & I3 & I4 & I5).
      unfold run in *. rewrite I0, I3, I4, I5, F0, F2, F3, F4.
      split; [exact I1|]. split; [exact I2|]. split; [reflexivity|].
      split; [reflexivity|]. split.
      + destruct heard; cbn [joined]; now rewrite ?append_assoc, ?append_nil_r.
      + destruct spoken; cbn [joined]; now rewrite ?append_assoc, ?append_nil_r. }
  destruct H as (Hc1 & Hs1 & Hq & Ht & Hi & Ho).
  split; [exact Ht|].
  destruct (step_turnComplete s1 now (coh_timer _ Hc1) Hs1) as (T1 & T2 & T3 & T4).
  fold s2 in T1, T2, T3, T4. rewrite T1, Hq, Ht, Hi, Ho. now repeat split.
Qed.

(** X12. A call of find_nearby_places always gets its tool result: with no
    position known to the handler the result says so, a failure of the
    Maps query is turned into an apology, and otherwise the result is the
    text of the response.  The answer "AI service is not initialized."
    never occurs, because a session exists only with a client. *)
Theorem find_nearby_places_always_answers
    (evs : list Event) (apiKey : bool) (fc : FunctionCall) (now : float) :
  let s := run tools evs (init apiKey) in
  sessionPromiseRef s = true ->
  fcName fc = "find_nearby_places"%string ->
  let s' := step tools (SessionMessage (toolMessage [fc]) now) s in
  let answer :=
    match closureLocation with
    | None =>
        "I can't find nearby places because I don't have your current location."%string
    | Some loc =>
        match generateContent (argText "query" (fcArgs fc)) loc with
        | Ok response => response
        | Throw _ => "I had trouble looking that up. Please try again."%string
        end
    end in
  responses s' = responses s ++ [SendToolResponse (fcId fc) (fcName fc) answer]
  /\ miraState s' = THINKING.
Proof.
  intros s Hs Hname s' answer.
  destruct (reachable_coherent evs apiKey) as [Hc Hr]. fold s in Hc, Hr.
  clearbody s. subst s' answer.
  destruct (coh_client _ Hc Hs) as (Hai & _ & _).
  rewrite step_message by (assumption || apply (coh_timer _ Hc)).
  unfold exec, onmessage, toolMessage.
  cbn [inputTranscription outputTranscription turnComplete functionCalls inlineAudio
       dispatchToolCalls].
  rewrite Hname.
  change (tools "find_nearby_places"%string) with (Some (find_nearby_places generateContent closureLocation)).
  cbv [find_nearby_places bind ret when modify get].
  destruct closureLocation as [loc|].
  - cbn [aiRef set_miraState push set_actions]. rewrite Hai. cbn [negb].
    destruct (generateContent (argText "query" (fcArgs fc)) loc) as [response|e];
      cbn [sessionPromiseRef set_miraState push set_actions]; rewrite Hs;
      unfold responses; cbn [snd actions miraState set_miraState push set_actions];
      rewrite ?filter_app; cbn [filter isResponse]; rewrite ?app_nil_r; now split.
  - cbn [sessionPromiseRef set_miraState push set_actions]. rewrite Hs.
    unfold responses. cbn [snd actions miraState set_miraState push set_actions].
    rewrite ?filter_app. cbn [filter isResponse]. rewrite ?app_nil_r. now split.
Qed.

(** X13. The status line in the states the component reaches: the alert
    styling is on exactly during an emergency; during an emergency the
    line is the countdown text with a number from 1 to 15; and the lines
    "Loading AI Vision Models..." and "Unresponsive Driver Detected!" are
    never what a settled state shows (permissions are granted only after
    the models are loaded, and an unresponsive driver starts the
    emergency in the same event). *)
Theorem status_line_coherent (evs : list Event) (apiKey : bool) :
  let s := run tools evs (init apiKey) in
  isAlertState s = isEmergency s
  /\ (isEmergency s = true ->
      getStatusText s
        = ("EMERGENCY COUNTDOWN: " ++ numberText (emergencyCountdown s))%string
      /\ (1 <= emergencyCountdown s <= 15)%Z)
  /\ getStatusText s <> "Loading AI Vision Models..."%string
  /\ getStatusText s <> "Unresponsive Driver Detected!"%string.
Proof.
  intros s.
  destruct (reachable_coherent evs apiKey) as [Hc Hr]. fold s in Hc, Hr.
  clearbody s.
  pose proof (coh_timer _ Hc) as Hinv.
  pose proof (coh_range _ Hc) as Hrange.
  pose proof (coh_models _ Hc) as Hmod.
  pose proof (coh_setup _ Hc) as Hset.
  unfold TimerInvariant, Running, isAlertState, getStatusText in *.
  destruct (isEmergency s) eqn:He.
  - destruct Hinv as (Hd & _). rewrite Hd in *. cbn [DriverState_beq orb].
    assert (Hp : permissionsGranted s = true) by (apply Hset; discriminate).
    rewrite Hp, (Hmod Hp). cbn [negb].
    split; [reflexivity|]. split; [intros _; split; [reflexivity|]|].
    + specialize (Hr eq_refl). lia.
    + split; discriminate.
  - destruct Hinv as (Hd & _).
    split; [destruct (driverState s); try reflexivity; now elim Hd|].
    split; [discriminate|].
    destruct (permissionsGranted s) eqn:Hp; cbn [negb]; [|split; discriminate].
    rewrite (Hmod eq_refl). cbn [negb].
    destruct (driverState s); try (split; discriminate). now elim Hd.
Qed.

(** The conversational state a computation leaves behind is a function of
    the one it found, however it ends. *)
Lemma mira_bind_total {A B} (c : Js A) (k : A -> Js B) f g :
  (forall s, miraState (snd (c s)) = f (miraState s)) ->
  (forall s, isOk (fst (c s)) = true) ->
  (forall a s, miraState (snd (k a s)) = g (miraState s)) ->
  forall s, miraState (snd (bind c k s)) = g (f (miraState s)).
Proof.
  intros Hc Hok Hk s. unfold bind.
  specialize (Hc s). specialize (Hok s).
  destruct (c s) as [[a|e] s1]; cbn [fst snd isOk] in *; [|discriminate Hok].
  now rewrite Hk, Hc.
Qed.

Lemma mira_bind_same {A B} (c : Js A) (k : A -> Js B) f :
  (forall s, miraState (snd (c s)) = f (miraState s)) ->
  (forall a s, miraState (snd (k a s)) = miraState s) ->
  forall s, miraState (snd (bind c k s)) = f (miraState s).
Proof.
  intros Hc Hk s. unfold bind.
  specialize (Hc s).
  destruct (c s) as [[a|e] s1]; cbn [fst snd] in *; [|exact Hc].
  now rewrite Hk, Hc.
Qed.

Lemma mira_tools name h args s :
  tools name = Some h -> miraState (snd (h args s)) = miraState s.
Proof.
  intros Hreg. unfold mockFunctions in Hreg.
  destruct (String.eqb name "find_nearby_places").
  - injection Hreg as <-. unfold find_nearby_places, bind, modify, get, ret.
    destruct closureLocation as [l|]; cbn; [|reflexivity].
    destruct (negb (aiRef s)); [reflexivity|].
    destruct (generateContent _ l); reflexivity.
  - destruct (String.eqb name "play_spotify_song"); [|discriminate Hreg].
    injection Hreg as <-. unfold play_spotify_song, bind, modify, ret, liftResult.
    cbn. destruct (encodeURIComponent _); reflexivity.
Qed.

Lemma mira_dispatch calls : forall s,
  miraState (snd (dispatchToolCalls tools calls s)) = miraState s.
Proof.
  induction calls as [|fc rest IH]; intros s; [reflexivity|].
  cbn [dispatchToolCalls].
  apply (mira_bind_same _ _ (fun m => m)); [|intros _ s'; apply IH].
  clear s. intros s.
  destruct (tools (fcName fc)) as [h|] eqn:Hreg; [|reflexivity].
  apply (mira_bind_same _ _ (fun m => m)).
  - intros s'. now apply (mira_tools (fcName fc)).
  - intros text s'. unfold bind, get, when, modify, ret. cbn.
    destruct (sessionPromiseRef s'); reflexivity.
Qed.

Lemma mira_scheduleAudio audioData now s :
  miraState (snd (scheduleAudio audioData now s)) = miraState s.
Proof.
  change (snd (scheduleAudio audioData now s)) with (exec (scheduleAudio audioData now) s).
  rewrite scheduleAudio_exec. cbv zeta. destruct (chunk audioData); reflexivity.
Qed.

(** X14. The conversational state after a message is decided by its last
    part that sets one: THINKING if the message carries tool calls (also
    when a handler throws, and it stays THINKING after the results are
    sent); otherwise LISTENING if it completes a turn; otherwise SPEAKING
    if it carries a piece of the reply; otherwise the state is
    unchanged.  No message sets the state to IDLE. *)
Theorem conversational_state_after_message
    (evs : list Event) (apiKey : bool) (message : LiveServerMessage) (now : float) :
  let s := run tools evs (init apiKey) in
  sessionPromiseRef s = true ->
  miraState (step tools (SessionMessage message now) s) =
    match functionCalls message, turnComplete message, outputTranscription message with
    | Some _, _, _ => THINKING
    | None, true, _ => LISTENING
    | None, false, Some _ => SPEAKING
    | None, false, None => miraState s
    end.
Proof.
  intros s Hs.
  destruct (reachable_coherent evs apiKey) as [Hc _]. fold s in Hc. clearbody s.
  rewrite step_message by (assumption || apply (coh_timer _ Hc)).
  unfold exec, onmessage.
  set (f1 := fun m : MiraState =>
               match outputTranscription message with Some _ => SPEAKING | None => m end).
  set (f2 := fun m : MiraState => if turnComplete message then LISTENING else m).
  set (f3 := fun m : MiraState =>
               match functionCalls message with Some _ => THINKING | None => m end).
  transitivity (f3 (f2 (f1 (miraState s))));
    [|subst f1 f2 f3; cbv beta;
      destruct (functionCalls message), (turnComplete message),
        (outputTranscription message); reflexivity].
  apply (mira_bind_total _ _ (fun m => m) (fun m => f3 (f2 (f1 m)))).
  { intros s'. destruct (inputTranscription message); reflexivity. }
  { intros s'. destruct (inputTranscription message); reflexivity. }
  intros _. apply (mira_bind_total _ _ f1 (fun m => f3 (f2 m))).
  { intros s'. subst f1. destruct (outputTranscription message); reflexivity. }
  { intros s'. destruct (outputTranscription message); reflexivity. }
  intros _. apply (mira_bind_total _ _ f2 f3).
  { intros s'. subst f2. cbv beta. unfold flushTurn, when, bind, get, modify, ret.
    destruct (turnComplete message); [|reflexivity]. cbn.
    destruct (nonEmpty (trim (currentInputTranscription s')));
      destruct (nonEmpty (trim (currentOutputTranscription s'))); reflexivity. }
  { intros s'. unfold flushTurn, when, bind, get, modify, ret.
    destruct (turnComplete message); [|reflexivity]. cbn.
    destruct (nonEmpty (trim (currentInputTranscription s')));
      destruct (nonEmpty (trim (currentOutputTranscription s'))); reflexivity. }
  intros _. apply mira_bind_same.
  { intros s'. subst f3. cbv beta.
    destruct (functionCalls message) as [calls|]; [|reflexivity].
    unfold bind at 1, modify at 1. cbn [fst snd].
    pose proof (mira_dispatch calls (set_miraState THINKING s')) as Hd.
    destruct (dispatchToolCalls tools calls (set_miraState THINKING s')) as [[u|e] s2];
      exact Hd. }
  intros _ s'.
  destruct (inlineAudio message) as [audioData|]; [|reflexivity].
  unfold bind, get. cbn [fst snd].
  destruct (negb (List.length audioData =? 0)%nat && outputAudioContextRef s');
    [|reflexivity].
  cbn [when]. apply mira_scheduleAudio.
Qed.

End Tools.

End Frames.

Section EffectsSettle.

Import App Observe.

(** X15. The two effects never keep each other running: after an event, one
    round of effects brings the component to a state in which no effect
    has anything left to do, so that any number of further renders leaves
    it as it is. *)
Theorem effects_settle_in_one_round (prev cur : AppState) (rounds : nat) :
  runEffects cur (runEffects prev cur) = runEffects prev cur
  /\ commit (S rounds) prev cur = runEffects prev cur.
Proof.
  split; [apply runEffects_idem|].
  destruct rounds as [|n]; [reflexivity|].
  cbn [commit]. rewrite runEffects_idem. apply commit_settled.
Qed.

End EffectsSettle.

Section AudioErrors.

Import FatigueDetection Base64 App AppView Observe Invariants.

Variable registry : string -> option Handler.

Lemma atob_error data e : atob data = Throw e -> e = InvalidCharacterError.
Proof.
  unfold atob.
  repeat match goal with
  | |- context [if ?b then _ else _] => destruct b
  | |- context [match ?x with Some _ => _ | None => _ end] => destruct x
  end; intros [= <-] || discriminate; reflexivity.
Qed.

(** X16. An audio payload that cannot be decoded starts nothing and only
    moves the playback cursor up to the clock.  There are three ways to
    fail: the payload is not base64 (InvalidCharacterError), it holds an
    odd number of bytes (RangeError: no 16-bit view), or it holds no byte
    at all (NotSupportedError: a buffer of zero frames). *)
Theorem undecodable_audio_only_moves_cursor
    (s : AppState) (audioData : JsString) (now : float) (e : JsError) :
  sessionPromiseRef s = true -> outputAudioContextRef s = true ->
  isEmpty audioData = false ->
  chunk audioData = Throw e ->
  receive registry now audioData s
    = set_nextAudioStartTimeRef (Math_max (cursor s) now) s
  /\ ((decode audioData = Throw InvalidCharacterError /\ e = InvalidCharacterError)
      \/ (exists bytes, decode audioData = Ok bytes
                        /\ Nat.odd (List.length bytes) = true /\ e = RangeError)
      \/ (decode audioData = Ok [] /\ e = NotSupportedError)).
Proof.
  intros Hs Ho Hne Hchunk. split.
  - rewrite receive_exec, Hs, Ho, Hne. cbn [andb negb].
    rewrite scheduleAudio_exec. cbv zeta. now rewrite Hchunk.
  - unfold chunk in Hchunk.
    destruct (decode audioData) as [bytes|e'] eqn:Hd; cbn [rbind] in Hchunk.
    + unfold decodeAudioData in Hchunk.
      destruct (Nat.odd (List.length bytes)) eqn:Hodd.
      * right. left. exists bytes. injection Hchunk as <-. now repeat split.
      * rewrite Nat.div_1_r in Hchunk.
        destruct (Nat.div (List.length bytes) 2 =? 0)%nat eqn:E; [|discriminate Hchunk].
        right. right. injection Hchunk as <-. split; [|reflexivity].
        f_equal. apply Nat.eqb_eq in E.
        destruct bytes as [|b1 [|b2 rest]]; [reflexivity|discriminate Hodd|].
        exfalso. cbn [List.length] in E.
        change (S (S (List.length rest))) with (2 + List.length rest)%nat in E.
        replace (2 + List.length rest)%nat with (List.length rest + 1 * 2)%nat in E by lia.
        rewrite Nat.div_add in E by discriminate. lia.
    + left. injection Hchunk as <-.
      unfold decode in Hd.
      destruct (atob audioData) as [b|e''] eqn:Ha; [discriminate Hd|].
      cbn [rbind] in Hd. injection Hd as <-.
      apply atob_error in Ha. subst. now split.
Qed.

End AudioErrors.

Section ReachableWitnesses.

Import FatigueDetection Base64 App AppView Observe Samples Invariants Scenarios.

Lemma audio_sources_follow_the_cursor_witness :
  let s := run (mockFunctions offline plain None)
             (conversation ++ [SessionMessage spokenMessage 1;
                               SessionMessage spokenMessage 0])
             (init true) in
  PrimFloat.is_nan (cursor s) = false
  /\ (0 <=? cursor s)%float = true /\ sequential 0 (actions s) (cursor s).
Proof.
  intros s.
  assert (Hn : PrimFloat.is_nan (cursor s) = false) by (vm_compute; reflexivity).
  split; [exact Hn|].
  exact (audio_sources_follow_the_cursor offline plain None _ true Hn).
Defined.

Lemma position_update_after_expiry_witness :
  let s := run noTools conversationAfterExpiry (init true) in
  let s' := step noTools (LocationUpdate home) s in
  (permissionsGranted s = true /\ (emergencyCountdown s <= 0)%Z
   /\ driverState s = ENGAGED)
  /\ notifications s' =
       notifications s ++ [NotifyEmergencyContact emergencyContact (Some home)]
  /\ driverState s' = MONITORING
  /\ isEmergency s' = false
  /\ emergencyCountdown s' = emergencyCountdown s.
Proof.
  intros s s'.
  assert (Hp : permissionsGranted s = true) by (vm_compute; reflexivity).
  assert (Hc : (emergencyCountdown s <= 0)%Z) by (vm_compute; discriminate).
  assert (Hd : driverState s = ENGAGED) by (vm_compute; reflexivity).
  split; [exact (conj Hp (conj Hc Hd))|].
  exact (position_update_after_expiry noTools s home Hp Hc).
Defined.

Lemma acknowledgment_keeps_no_face_counter_witness :
  let s := run (mockFunctions offline plain None) unanswered (init true) in
  let s1 := step (mockFunctions offline plain None) ClickImOkay s in
  let s2 := step (mockFunctions offline plain None) (DetectionTick noFaceSample) s1 in
  (isEmergency s = true /\ permissionsGranted s = true /\ modelsLoaded s = true
   /\ (CONSECUTIVE_FRAMES_UNRESPONSIVE <= noFaceFramesRef s)%nat
   /\ noFace noFaceSample = true)
  /\ (driverState s1 = MONITORING /\ isEmergency s1 = false
      /\ noFaceFramesRef s1 = noFaceFramesRef s)
  /\ driverState s2 = UNRESPONSIVE
  /\ isEmergency s2 = true
  /\ emergencyCountdown s2 = 15%Z
  /\ unresponsiveRequests s2 = S (unresponsiveRequests s).
Proof.
  intros s s1 s2.
  assert (He : isEmergency s = true) by (vm_compute; reflexivity).
  assert (Hp : permissionsGranted s = true) by (vm_compute; reflexivity).
  assert (Hm : modelsLoaded s = true) by (vm_compute; reflexivity).
  assert (Hc : (CONSECUTIVE_FRAMES_UNRESPONSIVE <= noFaceFramesRef s)%nat)
    by (vm_compute; lia).
  assert (Hn : noFace noFaceSample = true) by reflexivity.
  split; [now repeat split|].
  exact (acknowledgment_keeps_no_face_counter offline plain None
           s noFaceSample He Hp Hm Hc Hn).
Defined.

Lemma engaged_driver_stays_engaged_witness :
  let s := run (mockFunctions offline plain None) conversation (init true) in
  let later := [SessionMessage spokenMessage 0; SessionClose;
                ClickImOkay; LocationUpdate home] in
  let s' := run (mockFunctions offline plain None) later s in
  (driverState s = ENGAGED /\ isEmergency s = false /\ intervals s = []
   /\ (0 < emergencyCountdown s)%Z
   /\ Forall (fun ev => isDetection ev = false) later)
  /\ driverState s' = ENGAGED
  /\ detectionActive s' = false
  /\ emergencyCountdown s' = emergencyCountdown s
  /\ eyeClosedFramesRef s' = eyeClosedFramesRef s
  /\ noFaceFramesRef s' = noFaceFramesRef s
  /\ notifications s' = notifications s.
Proof.
  intros s later s'.
  assert (Hd : driverState s = ENGAGED) by (vm_compute; reflexivity).
  assert (He : isEmergency s = false) by (vm_compute; reflexivity).
  assert (Hi : intervals s = []) by (vm_compute; reflexivity).
  assert (Hc : (0 < emergencyCountdown s)%Z) by (vm_compute; reflexivity).
  assert (Hl : Forall (fun ev => isDetection ev = false) later)
    by (repeat constructor).
  split; [now repeat split|].
  exact (engaged_driver_stays_engaged offline plain None s later Hd He Hi Hc Hl).
Defined.

Lemma turn_is_logged_when_complete_witness :
  let s := run (mockFunctions offline plain None) conversation (init true) in
  let messages :=
    map (fun p => SessionMessage (transcriptMessage (fst p) (snd p)) 0) greeting in
  let s1 := run (mockFunctions offline plain None) messages s in
  let s2 := step (mockFunctions offline plain None)
              (SessionMessage turnCompleteMessage 0) s1 in
  let heard := (currentInputTranscription s ++ joined (map fst greeting))%string in
  let spoken := (currentOutputTranscription s ++ joined (map snd greeting))%string in
  sessionPromiseRef s = true
  /\ transcriptions s1 = transcriptions s
  /\ transcriptions s2 =
       transcriptions s
       ++ turnEntry USER (updaterAtCall s) heard
       ++ turnEntry MIRA (updaterAtCall s && negb (nonEmpty (trim heard))) spoken
  /\ miraState s2 = LISTENING
  /\ currentInputTranscription s2 = EmptyString
  /\ currentOutputTranscription s2 = EmptyString.
Proof.
  intros s messages s1 s2.
  assert (Hs : sessionPromiseRef s = true) by (vm_compute; reflexivity).
  split; [exact Hs|].
  exact (turn_is_logged_when_complete offline plain None conversation true greeting 0 Hs).
Defined.

(** The turn of [greeting] as it is logged: with a clean update queue the
    entry of the user has its text and that of the agent is empty;
    otherwise both are empty. *)
Remark turn_logged_with_empty_text :
  let s := run (mockFunctions offline plain None) conversation (init true) in
  let turn :=
    map (fun p => SessionMessage (transcriptMessage (fst p) (snd p)) 0) greeting
    ++ [SessionMessage turnCompleteMessage 0] in
  transcriptions (run (mockFunctions offline plain None) turn s) =
    transcriptions s ++ [mkEntry USER "Good morning"; mkEntry MIRA ""]
  /\ transcriptions (run (mockFunctions offline plain None) (UpdateQueue false :: turn) s) =
       transcriptions s ++ [mkEntry USER ""; mkEntry MIRA ""].
Proof. vm_compute. split; reflexivity. Qed.

Lemma conversational_state_after_message_witness :
  let s := run (mockFunctions offline plain None) conversation (init true) in
  let message := mkMessage None (Some "Sure."%string) true (Some [songCall]) None in
  sessionPromiseRef s = true
  /\ miraState (step (mockFunctions offline plain None) (SessionMessage message 0) s) =
       match functionCalls message, turnComplete message, outputTranscription message with
       | Some _, _, _ => THINKING
       | None, true, _ => LISTENING
       | None, false, Some _ => SPEAKING
       | None, false, None => miraState s
       end.
Proof.
  intros s message.
  assert (Hs : sessionPromiseRef s = true) by (vm_compute; reflexivity).
  split; [exact Hs|].
  exact (conversational_state_after_message offline plain None conversation true
           message 0 Hs).
Defined.

Lemma undecodable_audio_only_moves_cursor_witness :
  let audioData := [65; 65]%N in
  (sessionPromiseRef engaged = true /\ outputAudioContextRef engaged = true
   /\ isEmpty audioData = false /\ chunk audioData = Throw RangeError)
  /\ receive noTools 2 audioData engaged
      = set_nextAudioStartTimeRef (Math_max (cursor engaged) 2) engaged
  /\ ((decode audioData = Throw InvalidCharacterError
       /\ RangeError = InvalidCharacterError)
      \/ (exists bytes, decode audioData = Ok bytes
                        /\ Nat.odd (List.length bytes) = true /\ RangeError = RangeError)
      \/ (decode audioData = Ok [] /\ RangeError = NotSupportedError)).
Proof.
  intros audioData.
  assert (Hs : sessionPromiseRef engaged = true) by (vm_compute; reflexivity).
  assert (Ho : outputAudioContextRef engaged = true) by (vm_compute; reflexivity).
  assert (Hne : isEmpty audioData = false) by reflexivity.
  assert (Hc : chunk audioData = Throw RangeError) by reflexivity.
  split; [exact (conj Hs (conj Ho (conj Hne Hc)))|].
  exact (undecodable_audio_only_moves_cursor noTools engaged audioData 2 RangeError
           Hs Ho Hne Hc).
Defined.

Lemma find_nearby_places_always_answers_witness :
  let s := run (mockFunctions offline plain (Some home)) conversation (init true) in
  let s' := step (mockFunctions offline plain (Some home))
              (SessionMessage (toolMessage [coffeeCall]) 0) s in
  let answer :=
    match Some home with
    | None =>
        "I can't find nearby places because I don't have your current location."%string
    | Some loc =>
        match offline (argText "query" (fcArgs coffeeCall)) loc with
        | Ok response => response
        | Throw _ => "I had trouble looking that up. Please try again."%string
        end
    end in
  (sessionPromiseRef s = true /\ fcName coffeeCall = "find_nearby_places"%string)
  /\ responses s' =
       responses s ++ [SendToolResponse (fcId coffeeCall) (fcName coffeeCall) answer]
  /\ miraState s' = THINKING.
Proof.
  intros s s' answer.
  assert (Hs : sessionPromiseRef s = true) by (vm_compute; reflexivity).
  assert (Hn : fcName coffeeCall = "find_nearby_places"%string) by reflexivity.
  split; [exact (conj Hs Hn)|].
  exact (find_nearby_places_always_answers offline plain (Some home)
           conversation true coffeeCall 0 Hs Hn).
Defined.

End ReachableWitnesses.

Section InterruptedClosure.

Import FatigueDetection Base64 App Observe.

Variable registry : string -> option Handler.

Lemma detectionActive_withCounters c m s :
  detectionActive (withCounters c m s) = detectionActive s.
Proof. reflexivity. Qed.

Lemma Forall_ticks_app (P : DetectionInput -> Prop) l1 l2 :
  Forall P l1 -> Forall P l2 -> Forall P (l1 ++ l2).
Proof. intros. now apply Forall_app. Qed.

(** X17. Losing the face does not interrupt an eye closure: samples without a
    face leave the closed-eye counter as it is, so closed-eye samples
    before and after a gap without a face add up.  Ten closed-eye samples
    with up to 25 samples without a face somewhere in between make no
    request; the next closed-eye sample makes the drowsiness request. *)
Theorem eye_closure_spans_face_loss
    (s : AppState) (before gap rest : list DetectionInput) (last : DetectionInput) :
  detectionActive s = true ->
  eyeClosedFramesRef s = 0%nat -> noFaceFramesRef s = 0%nat ->
  Forall (fun inp => closedEyes inp = true) before ->
  Forall (fun inp => noFace inp = true) gap ->
  Forall (fun inp => closedEyes inp = true) rest ->
  closedEyes last = true ->
  (List.length before + List.length rest = 10)%nat ->
  (List.length gap <= 25)%nat ->
  let s1 := run registry (ticks (before ++ gap ++ rest)) s in
  let s2 := step registry (DetectionTick last) s1 in
  (driverState s1 = MONITORING
   /\ eyeClosedFramesRef s1 = 10%nat
   /\ drowsyRequests s1 = drowsyRequests s
   /\ unresponsiveRequests s1 = unresponsiveRequests s)
  /\ drowsyRequests s2 = S (drowsyRequests s)
  /\ driverState s2 <> MONITORING.
Proof.
  intros Hact Hc0 Hm0 Hb Hg Hr Hl Hlen Hgap s1 s2.
  pose proof (detectionActive_driver s Hact) as Hmon.
  assert (E1 : exists m, s1 = withCounters 10 m s).
  { subst s1. unfold ticks. rewrite !map_app, !run_app. fold (ticks before).
    fold (ticks gap). fold (ticks rest).
    rewrite (run_closed registry before s Hact Hb)
      by (unfold CONSECUTIVE_FRAMES_DROWSY; rewrite Hc0; lia).
    set (sa := withCounters _ _ s).
    rewrite (run_noFace registry gap sa) by
      (try exact Hg; try exact Hact; unfold CONSECUTIVE_FRAMES_UNRESPONSIVE;
       subst sa; cbn; destruct before; cbn; rewrite ?Hm0; lia).
    set (sb := withCounters _ _ sa).
    rewrite (run_closed registry rest sb) by
      (try exact Hr; try exact Hact; unfold CONSECUTIVE_FRAMES_DROWSY;
       subst sb sa; cbn; rewrite Hc0; lia).
    subst sb sa. rewrite !withCounters_twice.
    eexists. f_equal. cbn. rewrite Hc0. lia. }
  destruct E1 as (m & E1).
  split; [rewrite E1; now repeat split|].
  assert (Hact1 : detectionActive s1 = true) by (rewrite E1; exact Hact).
  destruct (step_closed_fire registry s1 last Hact1 Hl) as [_ Hstep];
    [rewrite E1; unfold CONSECUTIVE_FRAMES_DROWSY; cbn; lia|].
  cbv zeta in Hstep. fold s2 in Hstep. rewrite Hstep.
  assert (Hreq : drowsyRequests
                   (set_driverState DROWSY
                      (push (ConsoleLog msgDrowsy)
                         (withCounters (S (eyeClosedFramesRef s1)) 0 s1)))
                 = S (drowsyRequests s)).
  { rewrite E1. unfold drowsyRequests. cbn. rewrite filter_app, length_app. cbn. lia. }
  destruct (MiraState_beq (miraState s1) IDLE).
  - rewrite drowsyRequests_session. split; [exact Hreq|discriminate].
  - split; [exact Hreq|discriminate].
Qed.

End InterruptedClosure.

Section InterruptedClosureWitness.

Import FatigueDetection Base64 App Observe Samples.

Lemma eye_closure_spans_face_loss_witness :
  let s := monitoring true in
  let before := repeat closedSample 6 in
  let gap := repeat noFaceSample 3 in
  let rest := repeat closedSample 4 in
  let s1 := run noTools (ticks (before ++ gap ++ rest)) s in
  let s2 := step noTools (DetectionTick closedSample) s1 in
  (detectionActive s = true /\ eyeClosedFramesRef s = 0%nat
   /\ noFaceFramesRef s = 0%nat)
  /\ (driverState s1 = MONITORING
      /\ eyeClosedFramesRef s1 = 10%nat
      /\ drowsyRequests s1 = drowsyRequests s
      /\ unresponsiveRequests s1 = unresponsiveRequests s)
  /\ drowsyRequests s2 = S (drowsyRequests s)
  /\ driverState s2 <> MONITORING.
Proof.
  intros s before gap rest s1 s2.
  assert (Ha : detectionActive s = true) by (vm_compute; reflexivity).
  assert (Hc : eyeClosedFramesRef s = 0%nat) by (vm_compute; reflexivity).
  assert (Hm : noFaceFramesRef s = 0%nat) by (vm_compute; reflexivity).
  split; [exact (conj Ha (conj Hc Hm))|].
  apply (eye_closure_spans_face_loss noTools s before gap rest closedSample Ha Hc Hm).
  - repeat constructor.
  - repeat constructor.
  - repeat constructor.
  - vm_compute. reflexivity.
  - reflexivity.
  - vm_compute. repeat constructor.
Defined.

End InterruptedClosureWitness.

(** ** The player *)

Section Player.

Import App Observe Invariants SpotifyPlayer.

Lemma player_step_inv ev s :
  (0 <= progress s <= 100)%Z /\ (isPlaying s = true -> song s <> None)
  /\ (song s = None -> progress s = 0%Z) ->
  (0 <= progress (step ev s) <= 100)%Z
  /\ (isPlaying (step ev s) = true -> song (step ev s) <> None)
  /\ (song (step ev s) = None -> progress (step ev s) = 0%Z).
Proof.
  intros (Hr & Hp & Hn). unfold step.
  destruct (enabled ev s) eqn:Hen; [|now repeat split].
  destruct ev; cbn [handle enabled] in *.
  - unfold songEffect. cbn [song]. destruct sg; cbn; repeat split; try lia;
      discriminate.
  - unfold tick. cbn.
    destruct (progress s >=? 100)%Z eqn:E; repeat split; try lia; try assumption.
    intros H. unfold ticking in Hen. rewrite H in Hen.
    now rewrite andb_false_r in Hen.
  - unfold togglePlay. destruct (song s) eqn:Hs; [|discriminate Hen].
    cbn. repeat split; try lia; discriminate.
Qed.

(** X18. The progress of the player stays between 0 and 100 (the width of
    the bar in percent), the player never plays without a song, and
    without a song the progress is 0. *)
Theorem player_progress_in_range (sg : option Song) (evs : list PlayerEvent) :
  let s := run evs (mount sg) in
  (0 <= barWidth s <= 100)%Z
  /\ (isPlaying s = true -> song s <> None)
  /\ (song s = None -> progress s = 0%Z).
Proof.
  intros s. subst s. unfold barWidth.
  assert (H0 : (0 <= progress (mount sg) <= 100)%Z
               /\ (isPlaying (mount sg) = true -> song (mount sg) <> None)
               /\ (song (mount sg) = None -> progress (mount sg) = 0%Z)).
  { unfold mount, songEffect. destruct sg; cbn; repeat split; try lia; discriminate. }
  revert H0. generalize (mount sg).
  induction evs as [|ev evs IH]; intros s H; [exact H|].
  cbn [run fold_left]. apply IH. now apply player_step_inv.
Qed.

(** X19. While a song plays, the progress counts the firings of the interval
    modulo 101: it runs from 0 to 100 and the firing after 100 sets it back
    to 0. *)
Theorem player_progress_cycles (s : PlayerState) (n : nat) :
  ticking s = true ->
  (0 <= progress s <= 100)%Z ->
  let s' := run (repeat Tick n) s in
  progress s' = ((progress s + Z.of_nat n) mod 101)%Z
  /\ song s' = song s /\ isPlaying s' = isPlaying s.
Proof.
  intros Ht Hr s'. subst s'. revert s Ht Hr.
  induction n as [|n IH]; intros s Ht Hr.
  - cbn [repeat run fold_left]. rewrite Z.add_0_r, Z.mod_small by lia.
    now repeat split.
  - cbn [repeat run fold_left].
    assert (E : step Tick s = tick s) by (unfold step; cbn [enabled]; now rewrite Ht).
    rewrite E.
    destruct (IH (tick s)) as (I1 & I2 & I3).
    + exact Ht.
    + unfold tick. cbn. destruct (progress s >=? 100)%Z eqn:G; [lia|].
      rewrite Z.geb_leb in G. apply Z.leb_gt in G. lia.
    + unfold run in *. rewrite I1, I2, I3. repeat split.
      unfold tick. cbn [progress].
      destruct (progress s >=? 100)%Z eqn:G.
      * rewrite Z.geb_leb in G. apply Z.leb_le in G. assert (progress s = 100%Z) by lia.
        replace (progress s + Z.of_nat (S n))%Z with (0 + Z.of_nat n + 1 * 101)%Z by lia.
        now rewrite Z.mod_add by lia.
      * rewrite Z.geb_leb in G. apply Z.leb_gt in G. f_equal. lia.
Qed.

(** X20. Pausing freezes the progress and resuming continues from it: while
    paused no interval fires, and the two clicks of the button bring a
    playing player back to the state it was in. *)
Theorem pause_and_resume (s : PlayerState) (n : nat) :
  isPlaying s = true -> song s <> None ->
  let paused := step ClickPlay s in
  ticking paused = false
  /\ run (repeat Tick n) paused = paused
  /\ step ClickPlay (run (repeat Tick n) paused) = s.
Proof.
  intros Hp Hs paused.
  assert (E : paused = mkPlayer (song s) false (progress s)).
  { subst paused. unfold step, enabled, handle, togglePlay.
    destruct (song s); [|now elim Hs]. now rewrite Hp. }
  assert (Ht : ticking paused = false) by (rewrite E; reflexivity).
  assert (Hr : run (repeat Tick n) paused = paused).
  { clear E. induction n as [|n IH]; [reflexivity|].
    cbn [repeat run fold_left]. unfold step at 2. cbn [enabled]. rewrite Ht.
    exact IH. }
  split; [exact Ht|]. split; [exact Hr|].
  rewrite Hr, E. unfold step, enabled, handle, togglePlay. cbn.
  destruct s as [sg pl pr]. cbn in *. subst pl.
  destruct sg; [reflexivity|now elim Hs].
Qed.

Section PlayerAndTools.

Variable generateContent : string -> Location -> result string.
Variable encodeURIComponent : string -> result string.
Variable closureLocation : option Location.

Local Notation "'tools'" := (mockFunctions generateContent encodeURIComponent closureLocation).

(** X21. A call of play_spotify_song with its two arguments, whose song name
    can be URI-encoded, sets the current song from the arguments and gets
    the result "Now playing ... Enjoy!"; the player, whatever it showed
    before, then shows that song, plays, and starts at progress 0. *)
Theorem play_spotify_song_starts_player
    (evs : list Event) (apiKey : bool) (fc : FunctionCall) (now : float)
    (songName artistName seed : string) (p : PlayerState) :
  let s := App.run tools evs (init apiKey) in
  sessionPromiseRef s = true ->
  fcName fc = "play_spotify_song"%string ->
  fcArgs fc = [("songName", songName); ("artist", artistName)]%string ->
  encodeURIComponent songName = Ok seed ->
  let s' := App.step tools (SessionMessage (toolMessage [fc]) now) s in
  let sg := mkSong songName artistName
              ("https://picsum.photos/seed/" ++ seed ++ "/200") in
  let p' := step (SongProp (currentSong s')) p in
  currentSong s' = Some sg
  /\ responses s' =
     responses s ++ [SendToolResponse (fcId fc) (fcName fc)
                       ("Now playing " ++ songName ++ " by " ++ artistName ++ ". Enjoy!")]
  /\ song p' = Some sg /\ isPlaying p' = true /\ progress p' = 0%Z.
Proof.
  intros s Hs Hname Hargs Henc s' sg p'.
  destruct (reachable_coherent generateContent encodeURIComponent closureLocation
              evs apiKey) as [Hc Hr].
  fold s in Hc, Hr. clearbody s.
  assert (E : currentSong s' = Some sg
              /\ responses s' =
                 responses s ++ [SendToolResponse (fcId fc) (fcName fc)
                   ("Now playing " ++ songName ++ " by " ++ artistName ++ ". Enjoy!")]).
  { subst s'.
    rewrite step_message by (assumption || apply (coh_timer _ Hc)).
    unfold exec, onmessage, toolMessage.
    cbn [inputTranscription outputTranscription turnComplete functionCalls inlineAudio
         dispatchToolCalls].
    rewrite Hname, Hargs.
    change (tools "play_spotify_song"%string)
      with (Some (play_spotify_song encodeURIComponent)).
    cbv [play_spotify_song bind ret when modify get liftResult].
    change (argText "songName" [("songName", songName); ("artist", artistName)]%string)
      with songName.
    change (argText "artist" [("songName", songName); ("artist", artistName)]%string)
      with artistName.
    rewrite Henc.
    cbn [sessionPromiseRef set_miraState push set_actions set_currentSong].
    rewrite Hs.
    unfold responses.
    cbn [snd actions currentSong set_miraState push set_actions set_currentSong].
    rewrite ?filter_app. cbn [filter isResponse]. rewrite ?app_nil_r. now split. }
  destruct E as [E1 E2]. split; [exact E1|]. split; [exact E2|].
  subst p'. rewrite E1. unfold step. cbn [enabled handle].
  unfold songEffect. cbn. now repeat split.
Qed.

End PlayerAndTools.

End Player.

Section PlayerWitnesses.

Import App Observe Samples Invariants Scenarios SpotifyPlayer.

Lemma player_progress_cycles_witness :
  let s := mkPlayer (Some (mkSong "Blue in Green" "Miles Davis" "")) true 98 in
  let s' := run (repeat Tick 5) s in
  (ticking s = true /\ (0 <= progress s <= 100)%Z)
  /\ progress s' = ((progress s + Z.of_nat 5) mod 101)%Z
  /\ song s' = song s /\ isPlaying s' = isPlaying s.
Proof.
  intros s s'.
  assert (Ht : ticking s = true) by reflexivity.
  assert (Hr : (0 <= progress s <= 100)%Z) by (cbn; lia).
  split; [exact (conj Ht Hr)|].
  exact (player_progress_cycles s 5 Ht Hr).
Defined.

Lemma pause_and_resume_witness :
  let s := mkPlayer (Some (mkSong "Blue in Green" "Miles Davis" "")) true 42 in
  let paused := step ClickPlay s in
  (isPlaying s = true /\ song s <> None)
  /\ ticking paused = false
  /\ run (repeat Tick 7) paused = paused
  /\ step ClickPlay (run (repeat Tick 7) paused) = s.
Proof.
  intros s paused.
  assert (Hp : isPlaying s = true) by reflexivity.
  assert (Hs : song s <> None) by discriminate.
  split; [exact (conj Hp Hs)|].
  exact (pause_and_resume s 7 Hp Hs).
Defined.

Lemma play_spotify_song_starts_player_witness :
  let s := App.run (mockFunctions offline plain None) conversation (init true) in
  let s' := App.step (mockFunctions offline plain None)
              (SessionMessage (toolMessage [songCall]) 0) s in
  let songName := "Blue in Green"%string in
  let artistName := "Miles Davis"%string in
  let sg := mkSong songName artistName
              ("https://picsum.photos/seed/" ++ "Blue in Green" ++ "/200") in
  let p' := step (SongProp (currentSong s')) (mount None) in
  (sessionPromiseRef s = true
   /\ fcName songCall = "play_spotify_song"%string
   /\ fcArgs songCall = [("songName", songName); ("artist", artistName)]%string
   /\ plain songName = Ok "Blue in Green"%string)
  /\ currentSong s' = Some sg
  /\ responses s' =
     responses s ++ [SendToolResponse (fcId songCall) (fcName songCall)
                       ("Now playing " ++ songName ++ " by " ++ artistName ++ ". Enjoy!")]
  /\ song p' = Some sg /\ isPlaying p' = true /\ progress p' = 0%Z.
Proof.
  intros s s' songName artistName sg p'.
  assert (Hs : sessionPromiseRef s = true) by (vm_compute; reflexivity).
  assert (Hn : fcName songCall = "play_spotify_song"%string) by reflexivity.
  assert (Ha : fcArgs songCall = [("songName", songName); ("artist", artistName)]%string)
    by reflexivity.
  assert (He : plain songName = Ok "Blue in Green"%string) by reflexivity.
  split; [exact (conj Hs (conj Hn (conj Ha He)))|].
  exact (play_spotify_song_starts_player offline plain None conversation true
           songCall 0 songName artistName "Blue in Green" (mount None) Hs Hn Ha He).
Defined.

End PlayerWitnesses.

(** ** The visualiser *)

Section Visualiser.

Import MiraCore.

Lemma binIndex_bound bufferLength i :
  (i < barCount)%nat -> (0 < bufferLength)%nat ->
  (binIndex bufferLength i < bufferLength)%nat.
Proof.
  intros Hi Hb. unfold binIndex, barCount in *.
  apply Nat.Div0.div_lt_upper_bound. nia.
Qed.

Lemma radial_bound (c rho t half : R) :
  (0 <= rho <= half)%R -> (-1 <= t <= 1)%R -> (c = half)%R ->
  (0 <= c + rho * t <= 2 * half)%R.
Proof. intros Hr Ht ->. nra. Qed.

(** X22. The visualiser reads only bins that exist and draws inside the
    canvas: for each of the 60 bars the index of the bin is below the
    number of bins, the bar is at most half the radius high, and both of
    its end points lie within the canvas. *)
Theorem bars_stay_inside_canvas
    (dataArray : list Byte.byte) (WIDTH HEIGHT : R) (i : nat) :
  (0 <= WIDTH)%R -> (0 <= HEIGHT)%R ->
  dataArray <> [] -> (i < barCount)%nat ->
  (binIndex (List.length dataArray) i < List.length dataArray)%nat
  /\ exists h b,
       barHeight dataArray WIDTH HEIGHT i = Some h
       /\ (0 <= h <= radius WIDTH HEIGHT / 2)%R
       /\ bar dataArray WIDTH HEIGHT i = Some b
       /\ (0 <= startX b <= WIDTH)%R /\ (0 <= startY b <= HEIGHT)%R
       /\ (0 <= endX b <= WIDTH)%R /\ (0 <= endY b <= HEIGHT)%R.
Proof.
  intros HW HH Hdata Hi.
  assert (Hlen : (0 < List.length dataArray)%nat)
    by (destruct dataArray; [now elim Hdata|cbn; lia]).
  pose proof (binIndex_bound _ i Hi Hlen) as Hidx.
  split; [exact Hidx|].
  unfold bar, barHeight.
  destruct (nth_error dataArray (binIndex (List.length dataArray) i)) as [v|] eqn:E;
    [|apply nth_error_None in E; lia].
  set (h := (IZR (Z.of_N (Byte.to_N v)) / 255 * radius WIDTH HEIGHT * (1 / 2))%R).
  assert (Hv : (0 <= IZR (Z.of_N (Byte.to_N v)) <= 255)%R).
  { pose proof (Byte.to_N_bounded v) as Hb.
    split; [apply IZR_le; lia|apply IZR_le; lia]. }
  assert (Hr : (0 <= radius WIDTH HEIGHT)%R).
  { unfold radius. pose proof (Rmin_glb 0 WIDTH HEIGHT) as Hm.
    assert (0 <= Rmin WIDTH HEIGHT)%R by (apply Rmin_glb; assumption). lra. }
  assert (Hh : (0 <= h <= radius WIDTH HEIGHT / 2)%R).
  { subst h. split; nra. }
  assert (HrW : (3 * radius WIDTH HEIGHT <= WIDTH)%R)
    by (unfold radius; pose proof (Rmin_l WIDTH HEIGHT); lra).
  assert (HrH : (3 * radius WIDTH HEIGHT <= HEIGHT)%R)
    by (unfold radius; pose proof (Rmin_r WIDTH HEIGHT); lra).
  pose proof (COS_bound (angle i)) as Hc.
  pose proof (SIN_bound (angle i)) as Hs.
  eexists h, _. split; [reflexivity|]. split; [exact Hh|]. split; [reflexivity|].
  cbn [startX startY endX endY].
  set (r := radius WIDTH HEIGHT) in *.
  set (c := cos (angle i)) in *. set (sn := sin (angle i)) in *.
  repeat split; nra.
Qed.

End Visualiser.

Section VisualiserWitness.

Import MiraCore.

Lemma bars_stay_inside_canvas_witness :
  let dataArray := [Byte.x80; Byte.xff] in
  ((0 <= 300)%R /\ (0 <= 300)%R /\ dataArray <> [] /\ (59 < barCount)%nat)
  /\ (binIndex (List.length dataArray) 59 < List.length dataArray)%nat
  /\ exists h b,
       barHeight dataArray 300 300 59 = Some h
       /\ (0 <= h <= radius 300 300 / 2)%R
       /\ bar dataArray 300 300 59 = Some b
       /\ (0 <= startX b <= 300)%R /\ (0 <= startY b <= 300)%R
       /\ (0 <= endX b <= 300)%R /\ (0 <= endY b <= 300)%R.
Proof.
  intros dataArray.
  assert (HW : (0 <= 300)%R) by lra.
  assert (Hd : dataArray <> []) by discriminate.
  assert (Hi : (59 < barCount)%nat) by (unfold barCount; lia).
  split; [exact (conj HW (conj HW (conj Hd Hi)))|].
  exact (bars_stay_inside_canvas dataArray 300 300 59 HW HW Hd Hi).
Defined.

End VisualiserWitness.

(** ** The samples of the audio *)

Section PcmRoundTrip.

Import Base64 App Observe Pcm.

Ltac Zify.zify_post_hook ::= Z.to_euclidean_division_equations.

Lemma toUint8_value c : (c < 256)%N -> Byte.to_N (toUint8 c) = c.
Proof.
  intros Hc. unfold toUint8. rewrite N.mod_small by exact Hc.
  destruct (Byte.of_N c) as [b|] eqn:E.
  - now apply Byte.to_of_N.
  - apply Byte.of_N_None_iff in E. lia.
Qed.

Lemma toInt16_range v : (-32768 <= toInt16 v <= 32767)%Z.
Proof. unfold toInt16. lia. Qed.

Lemma dataInt16_int16Bytes n rest :
  (-32768 <= n <= 32767)%Z ->
  dataInt16 (int16Bytes n ++ rest) = n :: dataInt16 rest.
Proof.
  intros Hn. unfold int16Bytes. cbn [app dataInt16].
  rewrite !toUint8_value by lia.
  f_equal.
  destruct (_ <? 32768)%Z eqn:E; [apply Z.ltb_lt in E|apply Z.ltb_ge in E]; lia.
Qed.

Lemma dataInt16_bufferOfInt16 l :
  Forall (fun n => (-32768 <= n <= 32767)%Z) l ->
  dataInt16 (bufferOfInt16 l) = l.
Proof.
  induction 1 as [|n l Hn _ IH]; [reflexivity|].
  unfold bufferOfInt16. cbn [flat_map]. rewrite dataInt16_int16Bytes by exact Hn.
  f_equal. exact IH.
Qed.

Lemma length_bufferOfInt16 l : List.length (bufferOfInt16 l) = (2 * List.length l)%nat.
Proof.
  induction l as [|n l IH]; [reflexivity|].
  unfold bufferOfInt16 in *. cbn [flat_map]. rewrite length_app, IH. cbn. lia.
Qed.

Lemma map_nth_seq {A B} (f : A -> B) (d : A) (l : list A) :
  map (fun i => f (nth i l d)) (seq 0 (List.length l)) = map f l.
Proof.
  induction l as [|a l IH]; [reflexivity|].
  cbn [List.length seq map nth]. f_equal.
  rewrite <- seq_shift, map_map. exact IH.
Qed.

Lemma getChannelData_mono data :
  getChannelData data 1 0 = map (fun n => inject_Z n / 32768) (dataInt16 data).
Proof.
  unfold getChannelData. rewrite Nat.div_1_r.
  rewrite <- (map_nth_seq (fun n => inject_Z n / 32768) 0%Z).
  apply map_ext. intros i. now rewrite Nat.mul_1_r, Nat.add_0_r.
Qed.


Lemma decode_base64Encode bytes :
  decode (base64Encode (map fromCharCode bytes)) = Ok bytes.
Proof.
  unfold decode. rewrite (atob_base64Encode _ (fromCharCode_bounded bytes)).
  cbn [rbind]. f_equal. rewrite map_map.
  induction bytes as [|b l IH]; [reflexivity|].
  cbn [map]. now rewrite toUint8_fromCharCode, IH.
Qed.

Lemma encode_total bytes :
  encode bytes = Ok (base64Encode (map fromCharCode bytes)).
Proof.
  unfold encode, btoa.
  replace (forallb (fun c => (c <=? 255)%N) (map fromCharCode bytes)) with true;
    [reflexivity|].
  symmetry. apply forallb_forall. intros c Hc. apply N.leb_le.
  pose proof (proj1 (Forall_forall _ _) (fromCharCode_bounded bytes) c Hc) as Hlt.
  cbv beta in Hlt. lia.
Qed.

Lemma base64Encode_length s :
  List.length (base64Encode s) = (4 * ((List.length s + 2) / 3))%nat.
Proof.
  induction s as [| a | a b | a b c rest IH] using list_ind3; try reflexivity.
  cbn [base64Encode List.length]. rewrite IH.
  replace (S (S (S (List.length rest))) + 2)%nat
    with ((List.length rest + 2) + 1 * 3)%nat by lia.
  rewrite Nat.div_add by discriminate. lia.
Qed.

Lemma b64char_valid i : b64index (b64char i) <> None.
Proof.
  destruct (N.ltb_spec i 64) as [H|H].
  - now rewrite b64index_b64char.
  - unfold b64char.
    repeat match goal with
    | |- context [(?a <? ?b)%N] => destruct (N.ltb_spec a b); try lia
    | |- context [(?a =? ?b)%N] => destruct (N.eqb_spec a b); try lia
    end.
    discriminate.
Qed.

Lemma base64Encode_alphabet s :
  Forall (fun c => c = padChar \/ b64index c <> None) (base64Encode s).
Proof.
  induction s as [| a | a b | a b c rest IH] using list_ind3;
    cbn [base64Encode];
    repeat (apply Forall_cons; [first [right; apply b64char_valid | now left]|]);
    first [apply Forall_nil | exact IH].
Qed.

(** X23. The encoding of [n] bytes is a string of [4 * ceil(n / 3)] code
    units, each a letter of the base64 alphabet or the padding sign. *)
Theorem encode_length (bytes : list Byte.byte) :
  exists base64 : JsString,
    encode bytes = Ok base64
    /\ List.length base64 = (4 * ((List.length bytes + 2) / 3))%nat
    /\ Forall (fun c => c = padChar \/ b64index c <> None) base64.
Proof.
  exists (base64Encode (map fromCharCode bytes)).
  split; [apply encode_total|]. split.
  - now rewrite base64Encode_length, length_map.
  - apply base64Encode_alphabet.
Qed.


(** X24. What the microphone path encodes, the playback path decodes: the
    payload [onaudioprocess] makes of a block of samples is a string that
    [decode] turns back into bytes of which [decodeAudioData] makes a
    buffer with one frame for each sample, and the value of each frame is
    the 16-bit integer the sample was stored as, divided by 32768. *)
Theorem microphone_pcm_round_trip (inputData : list Q) :
  exists (payload : JsString) (bytes : list Byte.byte),
    pcmBlob inputData = Ok payload
    /\ decode payload = Ok bytes
    /\ decodeAudioData bytes 24000 1
       = (if Nat.eqb (List.length inputData) 0 then Throw NotSupportedError
          else Ok (mkBuffer 1 (List.length inputData) 24000))
    /\ getChannelData bytes 1 0
       = map (fun v => inject_Z (toInt16 (v * 32768)) / 32768) inputData.
Proof.
  exists (base64Encode (map fromCharCode (bufferOfInt16 (int16 inputData)))),
         (bufferOfInt16 (int16 inputData)).
  split; [apply encode_total|]. split; [apply decode_base64Encode|].
  assert (Hlen : List.length (int16 inputData) = List.length inputData)
    by apply length_map.
  split.
  - unfold decodeAudioData. rewrite length_bufferOfInt16, Hlen.
    replace (Nat.odd (2 * List.length inputData)) with false
      by (symmetry; rewrite Nat.odd_mul; reflexivity).
    replace (Nat.div (2 * List.length inputData) 2) with (List.length inputData)
      by (rewrite Nat.mul_comm, Nat.div_mul; [reflexivity|discriminate]).
    rewrite Nat.div_1_r. reflexivity.
  - rewrite getChannelData_mono, dataInt16_bufferOfInt16.
    + unfold int16. now rewrite map_map.
    + unfold int16. apply Forall_forall. intros n Hn.
      apply in_map_iff in Hn. destruct Hn as (v & <- & _). apply toInt16_range.
Qed.

(** The integer a sample is stored as, when the sample is in [-1, 1). *)
Lemma toInt16_in_range (n : Z) (d : positive) :
  (- Zpos d <= n < Zpos d)%Z ->
  let t := Z.quot (n * 32768) (Zpos d) in
  toInt16 ((n # d) * 32768) = t
  /\ (-32768 <= t <= 32767)%Z
  /\ (Z.abs (n * 32768 - t * Zpos d) < Zpos d)%Z
  /\ (0 <= n -> t * Zpos d <= n * 32768)%Z
  /\ (n <= 0 -> n * 32768 <= t * Zpos d)%Z.
Proof.
  intros Hn t.
  assert (Hq : (n * 32768 = Zpos d * t + Z.rem (n * 32768) (Zpos d))%Z)
    by (apply Z.quot_rem; discriminate).
  assert (Hr : (Z.abs (Z.rem (n * 32768) (Zpos d)) < Zpos d)%Z).
  { pose proof (Z.rem_bound_abs (n * 32768) (Zpos d)) as H.
    rewrite (Z.abs_eq (Zpos d)) in H by lia. apply H. discriminate. }
  assert (Hs : (0 <= n -> 0 <= Z.rem (n * 32768) (Zpos d))%Z).
  { intros H0. apply Z.rem_nonneg; [discriminate|lia]. }
  assert (Hs' : (n <= 0 -> Z.rem (n * 32768) (Zpos d) <= 0)%Z).
  { intros H0. apply Z.rem_nonpos; [discriminate|lia]. }
  set (r := Z.rem (n * 32768) (Zpos d)) in *.
  assert (Ht : (-32768 <= t <= 32767)%Z) by nia.
  repeat split; try lia; try nia.
  unfold toInt16, truncate. cbn [Qnum Qden Qmult].
  rewrite Pos.mul_1_r. fold t.
  rewrite Z.mod_small by lia. lia.
Qed.

(** X25. A sample in [-1, 1) is recorded with an error below 1/32768: the
    value that comes back is the sample rounded toward zero to a multiple
    of 1/32768, and it lies in [-1, 1) again. *)
Theorem recorded_sample_error (v : Q) :
  -1 <= v -> v < 1 ->
  let r := inject_Z (toInt16 (v * 32768)) / 32768 in
  (v - (1 # 32768) < r /\ r < v + (1 # 32768))
  /\ (0 <= v -> 0 <= r <= v)
  /\ (v <= 0 -> v <= r <= 0).
Proof.
  destruct v as [n d]. intros H1 H2 r. subst r.
  unfold Qle, Qlt in H1, H2. cbn [Qnum Qden] in H1, H2.
  destruct (toInt16_in_range n d) as (E & Ht & Herr & Hpos & Hneg); [lia|].
  cbv zeta in *. rewrite E.
  set (t := Z.quot (n * 32768) (Zpos d)) in *.
  unfold Qdiv, Qinv, inject_Z, Qminus, Qplus, Qopp, Qmult, Qle, Qlt.
  cbn [Qnum Qden Z.opp].
  rewrite ?Pos2Z.inj_mul.
  repeat split; intros; try nia.
Qed.

(** X26. Samples are not clipped: a sample at or above full scale, in
    [1, 2), is stored modulo 2^16 and comes back negative, lower by 2 (up
    to the rounding); in particular the sample 1 comes back as -1. *)
Theorem full_scale_sample_wraps (v : Q) :
  1 <= v -> v < 2 ->
  let r := inject_Z (toInt16 (v * 32768)) / 32768 in
  -1 <= r /\ r < 0
  /\ v - 2 - (1 # 32768) < r /\ r <= v - 2.
Proof.
  destruct v as [n d]. intros H1 H2 r. subst r.
  unfold Qle, Qlt in H1, H2. cbn [Qnum Qden] in H1, H2.
  set (t := Z.quot (n * 32768) (Zpos d)).
  assert (Hq : (n * 32768 = Zpos d * t + Z.rem (n * 32768) (Zpos d))%Z)
    by (apply Z.quot_rem; discriminate).
  assert (Hr : (0 <= Z.rem (n * 32768) (Zpos d) < Zpos d)%Z)
    by (apply Z.rem_bound_pos; lia).
  set (m := Z.rem (n * 32768) (Zpos d)) in *.
  assert (Ht : (32768 <= t <= 65535)%Z) by nia.
  assert (E : toInt16 ((n # d) * 32768) = (t - 65536)%Z).
  { unfold toInt16, truncate. cbn [Qnum Qden Qmult].
    rewrite Pos.mul_1_r. fold t.
    replace (t + 32768)%Z with ((t - 32768) + 1 * 65536)%Z by lia.
    rewrite Z.mod_add by discriminate. rewrite Z.mod_small by lia. lia. }
  rewrite E.
  unfold Qdiv, Qinv, inject_Z, Qminus, Qplus, Qopp, Qmult, Qle, Qlt.
  cbn [Qnum Qden Z.opp].
  rewrite ?Pos2Z.inj_mul.
  repeat split; try nia.
Qed.

Ltac Zify.zify_post_hook ::= idtac.

End PcmRoundTrip.

Section PcmWitnesses.

Import Base64 Pcm.

Lemma recorded_sample_error_witness :
  let v := 1 # 3 in
  let r := inject_Z (toInt16 (v * 32768)) / 32768 in
  (-1 <= v /\ v < 1)
  /\ (v - (1 # 32768) < r /\ r < v + (1 # 32768))
  /\ (0 <= v -> 0 <= r <= v)
  /\ (v <= 0 -> v <= r <= 0).
Proof.
  intros v r.
  assert (H1 : -1 <= v) by (vm_compute; discriminate).
  assert (H2 : v < 1) by reflexivity.
  split; [exact (conj H1 H2)|].
  exact (recorded_sample_error v H1 H2).
Defined.

Lemma full_scale_sample_wraps_witness :
  let v := 1 in
  let r := inject_Z (toInt16 (v * 32768)) / 32768 in
  (1 <= v /\ v < 2)
  /\ -1 <= r /\ r < 0
  /\ v - 2 - (1 # 32768) < r /\ r <= v - 2.
Proof.
  intros v r.
  assert (H1 : 1 <= v) by (vm_compute; discriminate).
  assert (H2 : v < 2) by reflexivity.
  split; [exact (conj H1 H2)|].
  exact (full_scale_sample_wraps v H1 H2).
Defined.

End PcmWitnesses.

(** ** The eye aspect ratio under isometries *)

Section EyeAspectRatioIsometries.

Import FatigueDetection Observe Geometry.

Lemma distR_rotate a b p q :
  (a * a + b * b = 1)%R -> distR (rotate a b p) (rotate a b q) = distR p q.
Proof.
  intros H. unfold distR, rotate; simpl. f_equal.
  replace ((a * x p - b * y p - (a * x q - b * y q)) *
           (a * x p - b * y p - (a * x q - b * y q)) +
           (b * x p + a * y p - (b * x q + a * y q)) *
           (b * x p + a * y p - (b * x q + a * y q)))%R
    with ((a * a + b * b) * ((x p - x q) * (x p - x q) + (y p - y q) * (y p - y q)))%R
    by ring.
  rewrite H. ring.
Qed.

Lemma distR_mirror p q : distR (mirror p) (mirror q) = distR p q.
Proof. unfold distR, mirror; simpl. f_equal. ring. Qed.

(** A map of the points that keeps all distances keeps the ratio. *)
Lemma getEyeAspectRatio_isometry (f : Point R -> Point R) (l : list (Point R)) :
  (forall p q, distR (f p) (f q) = distR p q) ->
  getEyeAspectRatio (map f l) = getEyeAspectRatio l.
Proof.
  intros Hf.
  do 6 (destruct l as [|? l]; [reflexivity|]).
  cbn [map]. rewrite !EAR_as_distances. now rewrite !Hf.
Qed.

(** X27. In exact arithmetic the eye aspect ratio does not depend on the
    orientation of the face in the picture: a rotation of all landmark
    points about the origin and the mirror image of the picture leave the
    result as it is (for a list that is too short, the same TypeError). *)
Theorem getEyeAspectRatio_rotation_mirror (l : list (Point R)) (a b : R) :
  (a * a + b * b = 1)%R ->
  getEyeAspectRatio (map (rotate a b) l) = getEyeAspectRatio l
  /\ getEyeAspectRatio (map mirror l) = getEyeAspectRatio l.
Proof.
  intros H. split; apply getEyeAspectRatio_isometry.
  - intros p q. now apply distR_rotate.
  - apply distR_mirror.
Qed.

End EyeAspectRatioIsometries.

Section EyeAspectRatioIsometriesWitness.

Import FatigueDetection Observe Samples Geometry.

Lemma getEyeAspectRatio_rotation_mirror_witness :
  (0 * 0 + 1 * 1 = 1)%R
  /\ getEyeAspectRatio (map (rotate 0 1) unitEyeR) = getEyeAspectRatio unitEyeR
  /\ getEyeAspectRatio (map mirror unitEyeR) = getEyeAspectRatio unitEyeR.
Proof.
  assert (H : (0 * 0 + 1 * 1 = 1)%R) by lra.
  split; [exact H|].
  exact (getEyeAspectRatio_rotation_mirror unitEyeR 0 1 H).
Defined.

End EyeAspectRatioIsometriesWitness.
